(** * ThreadSanitizer v2 run-time entry points (tsan_rtl.cc)

    A shallow embedding of the race-detection run-time: the shadow-word
    scan of [MemoryAccess], the event trace and [RestoreStack], the thread
    registry ([ThreadCreate] .. [ThreadDetach]) and the mutex hooks.

    Conventions.
    - Machine integers are [Z]; wrap-around and bit-field truncation are
      written out ([u64], [bitfield], [to_int]).
    - The registry array [threads] and the stack buffer of [RestoreStack]
      are lists; an access outside the array is [Undefined]. Zero-filled
      memory indexed modulo its size (trace ring, trace headers, shadow) is
      a finite map whose absent entries read 0.
    - [CHECK] failures ([CheckFailed] followed by [Die]) are [Fatal].
    - Threads are identified by the address of their [ThreadState]; the
      states live in the store [tls] so that the registry ([tctx->thr])
      and the running thread alias the same object.
    - The run-time is modelled sequentially: the [Lock] guards
      ([thread_mtx], [report_mtx], [trace.mtx], the per-object [mtx]) are
      acquired and released within one call and are not represented;
      slab allocation ([clockslab]) is infallible and not represented. *)

From Stdlib Require Import ZArith Lia Bool List String.
From stdpp Require Import base numbers option list gmap strings.

Open Scope Z_scope.

(** ** Machine integers *)

(** Value of a [u64] expression. *)
Definition u64 (x : Z) : Z := x mod 2 ^ 64.

(** Value stored by an assignment to an unsigned bit-field of width [w]. *)
Definition bitfield (w x : Z) : Z := x mod 2 ^ w.

(** Conversion of a [u64] to [int] (two's complement, 32 bits). *)
Definition to_int (x : Z) : Z := (x + 2 ^ 31) mod 2 ^ 32 - 2 ^ 31.

(** Array subscript with an integer index. *)
Definition zlookup {A} (l : list A) (i : Z) : option A :=
  if i <? 0 then None else l !! Z.to_nat i.

Definition zinsert {A} (i : Z) (x : A) (l : list A) : list A :=
  <[Z.to_nat i := x]> l.

(** ** Enumerations *)

Inductive ThreadStatus :=
| ThreadStatusInvalid    (* Non-existent thread, data is invalid. *)
| ThreadStatusCreated    (* Created but not yet running. *)
| ThreadStatusRunning    (* The thread is currently running. *)
| ThreadStatusFinished.  (* Joinable thread is finished but not yet joined. *)

Definition status_eqb (a b : ThreadStatus) : bool :=
  match a, b with
  | ThreadStatusInvalid, ThreadStatusInvalid
  | ThreadStatusCreated, ThreadStatusCreated
  | ThreadStatusRunning, ThreadStatusRunning
  | ThreadStatusFinished, ThreadStatusFinished => true
  | _, _ => false
  end.

(** Modelled from the spec: [EventType] (tsan_trace.h); the enumerators in the order the specification lists
    them, numbered from zero. *)
Inductive EventType :=
| EventTypeMop | EventTypeFuncEnter | EventTypeFuncExit
| EventTypeLock | EventTypeUnlock | EventTypeRLock | EventTypeRUnlock.

Definition EventType_code (t : EventType) : Z :=
  match t with
  | EventTypeMop => 0 | EventTypeFuncEnter => 1 | EventTypeFuncExit => 2
  | EventTypeLock => 3 | EventTypeUnlock => 4
  | EventTypeRLock => 5 | EventTypeRUnlock => 6
  end.

(** [enum StatType] of tsan_rtl.h (the counters the entry points bump). *)
Inductive StatType := StatMop | StatFuncEnter | StatFuncExit | StatEvents.

Definition StatType_code (s : StatType) : Z :=
  match s with
  | StatMop => 0 | StatFuncEnter => 15 | StatFuncExit => 16 | StatEvents => 17
  end.

(** Modelled from the spec: the tag of a [SyncVar] (tsan_sync.h); a tagged variant [{Mutex, ...}], every tag other
    than the mutex one is [OtherSync]. *)
Inductive SyncVarType := Mtx | OtherSync.

Inductive ReportType := ReportTypeRace.

(** ** Vector clocks *)

(** Modelled from the spec: [ChunkedClock] (tsan_clock.h): a mapping [tid -> epoch], absent components are 0;
    [get] reads a component, [set] overwrites one, [acquire] is the
    pointwise maximum with another clock, [release] makes the target at
    least the releasing clock in every component, [Free] empties it. *)
Definition clock_get (c : gmap Z Z) (tid : Z) : Z := default 0 (c !! tid).

Definition clock_set (c : gmap Z Z) (tid epoch : Z) : gmap Z Z :=
  <[tid := epoch]> c.

Definition clock_join (a b : gmap Z Z) : gmap Z Z :=
  union_with (fun x y => Some (Z.max x y)) a b.

Definition clock_acquire (c src : gmap Z Z) : gmap Z Z := clock_join c src.

Definition clock_release (c dst : gmap Z Z) : gmap Z Z := clock_join dst c.

Definition clock_Free : gmap Z Z := ∅.

(** ** Records *)

(** Modelled from the spec: [Trace] (tsan_trace.h): a ring of [kTraceSize] events and [kTraceParts]
    headers, each recording the first epoch [epoch0] of its partition. *)
Record Trace := mkTrace {
  headers : gmap Z Z;   (* headers[i].epoch0, by index *)
  events : gmap Z Z     (* events[i], by index *)
}.

(** [ThreadState], as tsan_rtl.cc uses it: [fast] packs [tid] and [epoch]
    in bit-fields of [kTidBits] and [kClkBits] bits. *)
Record ThreadState := mkThreadState {
  fast_tid : Z;
  fast_epoch : Z;
  fast_synch_epoch : Z;
  trace : Trace;
  clock : gmap Z Z;
  stat : gmap Z Z
}.

Record ThreadContext := mkThreadContext {
  thr : option Z;        (* ThreadState *thr, None is the null pointer *)
  status : ThreadStatus;
  uid : Z;               (* Some opaque user thread id. *)
  detached : bool;
  sync : gmap Z Z
}.

Record SyncVar := mkSyncVar {
  sv_type : SyncVarType;
  sv_addr : Z;
  sv_is_rw : bool;
  sv_clock : gmap Z Z
}.

Record ReportStackEntry := mkReportStackEntry {
  ent_pc : option Z;     (* None: copied from a word never written *)
  ent_func : string;
  ent_file : string;
  ent_line : Z
}.

Record ReportStack := mkReportStack {
  stack_cnt : Z;
  stack_entry : list ReportStackEntry
}.

Record ReportMop := mkReportMop {
  mop_tid : Z;
  mop_addr : Z;
  mop_size : Z;
  mop_write : bool;
  mop_nmutex : Z;
  mop_stack : ReportStack
}.

Record ReportDesc := mkReportDesc {
  rep_typ : ReportType;
  rep_nmop : Z;
  rep_mop : list ReportMop;
  rep_loc : Z;
  rep_nthread : Z;
  rep_nmutex : Z
}.

Record Context := mkContext {
  synctab : gmap Z SyncVar;
  rep : option ReportDesc;      (* None until the first report is built *)
  thread_seq : Z;
  threads : list ThreadContext
}.

(** What the run-time hands to its collaborators. *)
Inductive Output :=
| OutPrintf (fmt : string) (args : list Z)   (* Printf *)
| OutFatal (cond : string)                   (* Report in CheckFailed *)
| OutOnReport (r : ReportDesc) (suppressed : bool)
| OutPrintReport (r : ReportDesc).

Record World := mkWorld {
  initialized : bool;                 (* the static flag of Initialize *)
  ctx : Context;
  tls : gmap Z ThreadState;           (* thread states, by address *)
  shadow : gmap Z Z;                  (* shadow words, by slot address *)
  out : list Output;
  races : list (Z * Z * Z)            (* calls of ReportRace: addr, s0, s1 *)
}.

(** ** Build-time constants and external collaborators

    The constants of tsan_defs.h and tsan_report.h and the functions of the
    platform, symbolizer and suppression modules are parameters. *)
Class Config := {
  kTidBits : Z;
  kClkBits : Z;
  kShadowCnt : Z;
  kMaxTid : Z;
  kTraceSize : Z;
  kTraceParts : Z;
  TSAN_DEBUG : bool;
  kCollectStats : bool;
  sizeof_ReportMop : Z;
  sizeof_ReportStackEntry : Z;
  sizeof_alloc : Z;                   (* sizeof(rep->alloc) *)
  MemToShadow : Z -> Z;
  SymbolizeCode : option Z -> string * string * Z;
  IsSuppressed : ReportType -> ReportStack -> bool;
  OnReport : ReportDesc -> bool -> bool
}.

(** ** Field updates *)

Definition set_fast_epoch (t : ThreadState) (e : Z) : ThreadState :=
  mkThreadState (fast_tid t) e (fast_synch_epoch t) (trace t) (clock t) (stat t).

Definition set_fast_synch_epoch (t : ThreadState) (e : Z) : ThreadState :=
  mkThreadState (fast_tid t) (fast_epoch t) e (trace t) (clock t) (stat t).

Definition set_trace (t : ThreadState) (tr : Trace) : ThreadState :=
  mkThreadState (fast_tid t) (fast_epoch t) (fast_synch_epoch t) tr (clock t) (stat t).

Definition set_clock (t : ThreadState) (c : gmap Z Z) : ThreadState :=
  mkThreadState (fast_tid t) (fast_epoch t) (fast_synch_epoch t) (trace t) c (stat t).

Definition set_stat (t : ThreadState) (s : gmap Z Z) : ThreadState :=
  mkThreadState (fast_tid t) (fast_epoch t) (fast_synch_epoch t) (trace t) (clock t) s.

Definition set_thr (c : ThreadContext) (p : option Z) : ThreadContext :=
  mkThreadContext p (status c) (uid c) (detached c) (sync c).

Definition set_status (c : ThreadContext) (s : ThreadStatus) : ThreadContext :=
  mkThreadContext (thr c) s (uid c) (detached c) (sync c).

Definition set_uid (c : ThreadContext) (u : Z) : ThreadContext :=
  mkThreadContext (thr c) (status c) u (detached c) (sync c).

Definition set_detached (c : ThreadContext) (d : bool) : ThreadContext :=
  mkThreadContext (thr c) (status c) (uid c) d (sync c).

Definition set_sync (c : ThreadContext) (s : gmap Z Z) : ThreadContext :=
  mkThreadContext (thr c) (status c) (uid c) (detached c) s.

Definition set_sv_clock (s : SyncVar) (c : gmap Z Z) : SyncVar :=
  mkSyncVar (sv_type s) (sv_addr s) (sv_is_rw s) c.

Definition set_synctab (c : Context) (t : gmap Z SyncVar) : Context :=
  mkContext t (rep c) (thread_seq c) (threads c).

Definition set_rep (c : Context) (r : ReportDesc) : Context :=
  mkContext (synctab c) (Some r) (thread_seq c) (threads c).

Definition set_thread_seq (c : Context) (n : Z) : Context :=
  mkContext (synctab c) (rep c) n (threads c).

Definition set_threads (c : Context) (l : list ThreadContext) : Context :=
  mkContext (synctab c) (rep c) (thread_seq c) l.

Definition set_initialized (w : World) (b : bool) : World :=
  mkWorld b (ctx w) (tls w) (shadow w) (out w) (races w).

Definition set_ctx (w : World) (c : Context) : World :=
  mkWorld (initialized w) c (tls w) (shadow w) (out w) (races w).

Definition set_tls (w : World) (m : gmap Z ThreadState) : World :=
  mkWorld (initialized w) (ctx w) m (shadow w) (out w) (races w).

Definition set_shadow (w : World) (m : gmap Z Z) : World :=
  mkWorld (initialized w) (ctx w) (tls w) m (out w) (races w).

Definition add_out (w : World) (o : Output) : World :=
  mkWorld (initialized w) (ctx w) (tls w) (shadow w) (out w ++ [o]) (races w).

Definition add_race (w : World) (r : Z * Z * Z) : World :=
  mkWorld (initialized w) (ctx w) (tls w) (shadow w) (out w) (races w ++ [r]).

(** ** The monad of the entry points: state, fatal errors, undefined
    behaviour *)

Inductive Res (A : Type) :=
| Ret (a : A)
| Fatal          (* CheckFailed: Report, then Die *)
| Undefined.     (* out-of-bounds access, null dereference *)

Arguments Ret {A} a.
Arguments Fatal {A}.
Arguments Undefined {A}.

Definition M (A : Type) : Type := World -> World * Res A.

Definition ret {A} (a : A) : M A := fun w => (w, Ret a).

Definition bind {A B} (m : M A) (k : A -> M B) : M B :=
  fun w =>
    match m w with
    | (w', Ret a) => k a w'
    | (w', Fatal) => (w', Fatal)
    | (w', Undefined) => (w', Undefined)
    end.

Notation "'let*' x ':=' c1 'in' c2" := (bind c1 (fun x => c2))
  (at level 10, x name, c1 at level 100, c2 at level 200).

Definition undefined {A} : M A := fun w => (w, Undefined).

Definition get_ctx : M Context := fun w => (w, Ret (ctx w)).

Definition put_ctx (c : Context) : M unit := fun w => (set_ctx w c, Ret tt).

(** Dereference of a [ThreadState *]. *)
Definition load_thr (p : Z) : M ThreadState :=
  fun w => match tls w !! p with
           | Some t => (w, Ret t)
           | None => (w, Undefined)
           end.

Definition store_thr (p : Z) (t : ThreadState) : M unit :=
  fun w => (set_tls w (<[p := t]> (tls w)), Ret tt).

(** [ctx->threads[tid]], read and written back. *)
Definition thread_at (tid : Z) : M ThreadContext :=
  fun w => match zlookup (threads (ctx w)) tid with
           | Some c => (w, Ret c)
           | None => (w, Undefined)
           end.

Definition set_thread (tid : Z) (c : ThreadContext) : M unit :=
  fun w => (set_ctx w (set_threads (ctx w) (zinsert tid c (threads (ctx w)))),
            Ret tt).

Definition get_shadow : M (gmap Z Z) := fun w => (w, Ret (shadow w)).

Definition put_shadow (sh : gmap Z Z) : M unit :=
  fun w => (set_shadow w sh, Ret tt).

Definition get_initialized : M bool := fun w => (w, Ret (initialized w)).

Definition put_initialized (b : bool) : M unit :=
  fun w => (set_initialized w b, Ret tt).

(** Hand [o] to a collaborator. *)
Definition emit (o : Output) : M unit := fun w => (add_out w o, Ret tt).

(** Record a call of [ReportRace]. *)
Definition enter_ReportRace (addr s0 s1 : Z) : M unit :=
  fun w => (add_race w (addr, s0, s1), Ret tt).

Definition Printf (fmt : string) (args : list Z) : M unit :=
  fun w => (add_out w (OutPrintf fmt args), Ret tt).

(** [void CheckFailed(file, line, cond)]: Report, then Die. *)
Definition CheckFailed {A} (cond : string) : M A :=
  fun w => (add_out w (OutFatal cond), Fatal).

Definition CHECK (b : bool) (cond : string) : M unit :=
  if b then ret tt else CheckFailed cond.

(** [if (TSAN_DEBUG) Printf(...)]. *)
Definition DPrintf `{Config} (m : M unit) : M unit :=
  if TSAN_DEBUG then m else ret tt.

Section Runtime.
Context `{Config}.

(** ** Shadow words

    [union Shadow]: the bit-fields [tid], [epoch], [addr0], [addr1],
    [write], allocated from the least significant bit of [raw]. A shadow
    value is represented by its [raw] word. *)

Definition Shadow_tid (s : Z) : Z := s mod 2 ^ kTidBits.
Definition Shadow_epoch (s : Z) : Z := (s / 2 ^ kTidBits) mod 2 ^ kClkBits.
Definition Shadow_addr0 (s : Z) : Z := (s / 2 ^ (kTidBits + kClkBits)) mod 8.
Definition Shadow_addr1 (s : Z) : Z := (s / 2 ^ (kTidBits + kClkBits + 3)) mod 8.
Definition Shadow_write (s : Z) : bool :=
  negb ((s / 2 ^ (kTidBits + kClkBits + 6)) mod 2 =? 0).

(** [Shadow s = { {tid, epoch, addr0, addr1, write} }]. *)
Definition mkShadow (tid epoch addr0 addr1 : Z) (write : bool) : Z :=
  bitfield kTidBits tid
  + 2 ^ kTidBits * (bitfield kClkBits epoch
  + 2 ^ kClkBits * (bitfield 3 addr0
  + 8 * (bitfield 3 addr1
  + 8 * (if write then 1 else 0)))).

Definition LoadShadow (sh : gmap Z Z) (p : Z) : Z := default 0 (sh !! p).

Definition StoreShadow (sh : gmap Z Z) (p : Z) (raw : Z) : gmap Z Z :=
  <[p := raw]> sh.

(** ** Event trace *)

(** [Event ev = (u64)addr | ((u64)typ << 61)]. *)
Definition mkEvent (typ : EventType) (addr : Z) : Z :=
  Z.lor (u64 addr) (u64 (Z.shiftl (EventType_code typ) 61)).

(** The decoding [RestoreStack] applies to a stored event:
    [(EventType)(ev >> 61)] and [(uptr)(ev & 0xffffffffffffull)]. *)
Definition Event_typ (ev : Z) : Z := Z.shiftr ev 61.
Definition Event_pc (ev : Z) : Z := Z.land ev 0xffffffffffff.

Definition kTracePartSize : Z := kTraceSize / kTraceParts.

Definition TraceSwitch (t : ThreadState) : ThreadState :=
  let part := (fast_epoch t / kTracePartSize) mod kTraceParts in
  set_trace t (mkTrace (<[part := fast_epoch t]> (headers (trace t)))
                       (events (trace t))).

Definition TraceAddEvent (t : ThreadState) (epoch : Z) (typ : EventType)
    (addr : Z) : ThreadState :=
  let t1 := if epoch mod kTracePartSize =? 0 then TraceSwitch t else t in
  set_trace t1 (mkTrace (headers (trace t1))
                        (<[epoch mod kTraceSize := mkEvent typ addr]>
                           (events (trace t1)))).

(** [StatInc(thr, typ)] of tsan_rtl.h. *)
Definition StatInc (t : ThreadState) (typ : StatType) : ThreadState :=
  if kCollectStats
  then set_stat t (<[StatType_code typ :=
                       u64 (default 0 (stat t !! StatType_code typ) + 1)]> (stat t))
  else t.

(** [TraceAddEvent] as tsan_rtl.h defines it inline: the same packing,
    after bumping [StatEvents]. *)
Definition TraceAddEvent_inl (t : ThreadState) (epoch : Z) (typ : EventType)
    (addr : Z) : ThreadState :=
  TraceAddEvent (StatInc t StatEvents) epoch typ addr.

(** [thr->fast.epoch++] on the [kClkBits]-wide bit-field. *)
Definition epoch_inc (e : Z) : Z := bitfield kClkBits (e + 1).

(** ** Thread registry *)

Definition ThreadContext0 : ThreadContext :=
  mkThreadContext None ThreadStatusInvalid 0 false ∅.

Definition Context0 : Context :=
  mkContext ∅ None 0 (replicate (Z.to_nat kMaxTid) ThreadContext0).

(** The object [internal_memset(thr, 0, sizeof( *thr))] leaves behind. *)
Definition ThreadState0 : ThreadState :=
  mkThreadState 0 0 0 (mkTrace ∅ ∅) ∅ ∅.

Definition ThreadFree (thr : Z) (tid : Z) : M unit :=
  let* tctx := thread_at tid in
  let* _ := CHECK (status_eqb (status tctx) ThreadStatusRunning
                   || status_eqb (status tctx) ThreadStatusFinished)
                  "tctx->status == ThreadStatusRunning || tctx->status == ThreadStatusFinished" in
  let* _ := DPrintf (let* t := load_thr thr in
                     Printf "#%d: ThreadFree uid=%lu\n" [fast_tid t; uid tctx]) in
  set_thread tid (set_sync (set_uid (set_status tctx ThreadStatusInvalid) 0)
                           clock_Free).

Definition ThreadCreate (thr : Z) (uid : Z) (detached : bool) : M Z :=
  let* c := get_ctx in
  let tid := thread_seq c in
  let* _ := put_ctx (set_thread_seq c (tid + 1)) in
  let* _ := DPrintf (let* t := load_thr thr in
                     Printf "#%d: ThreadCreate tid=%d uid=%lu\n"
                            [fast_tid t; tid; uid]) in
  let* tctx := thread_at tid in
  let* _ := CHECK (status_eqb (status tctx) ThreadStatusInvalid)
                  "tctx->status == ThreadStatusInvalid" in
  let tctx := mkThreadContext None ThreadStatusCreated uid detached (sync tctx) in
  let* _ := set_thread tid tctx in
  let* _ := if tid =? 0 then ret tt else
              let* t := load_thr thr in
              let t := set_clock t (clock_set (clock t) (fast_tid t) (fast_epoch t)) in
              let t := set_fast_synch_epoch t (fast_epoch t) in
              let* _ := store_thr thr t in
              set_thread tid (set_sync tctx (clock_release (clock t) (sync tctx))) in
  ret tid.

Definition ThreadStart (thr : Z) (tid : Z) : M unit :=
  let t := ThreadState0 in
  let t := mkThreadState (bitfield kTidBits tid) (fast_epoch t)
                         (fast_synch_epoch t) (trace t) (clock t) (stat t) in
  let t := set_clock t (clock_set (clock t) tid 1) in
  let t := set_fast_epoch t (bitfield kClkBits 1) in
  let t := set_fast_synch_epoch t 1 in
  let* _ := store_thr thr t in
  let* tctx := thread_at tid in
  let* _ := CHECK (status_eqb (status tctx) ThreadStatusCreated)
                  "tctx->status == ThreadStatusCreated" in
  let tctx := set_thr (set_status tctx ThreadStatusRunning) (Some thr) in
  let* _ := set_thread tid tctx in
  store_thr thr (set_clock t (clock_acquire (clock t) (sync tctx))).

Definition ThreadFinish (thr : Z) : M unit :=
  let* t := load_thr thr in
  let tid := fast_tid t in
  let* tctx := thread_at tid in
  let* _ := CHECK (status_eqb (status tctx) ThreadStatusRunning)
                  "tctx->status == ThreadStatusRunning" in
  let* _ := if detached tctx then ThreadFree thr tid else
              let t := set_clock t (clock_set (clock t) (fast_tid t) (fast_epoch t)) in
              let t := set_fast_synch_epoch t (fast_epoch t) in
              let* _ := store_thr thr t in
              set_thread tid (set_status
                                (set_sync tctx (clock_release (clock t) (sync tctx)))
                                ThreadStatusFinished) in
  let* tctx := thread_at tid in
  set_thread tid (set_thr tctx None).

(** The search loop of [ThreadJoin]: [n] iterations are left, [tid] is the
    loop variable. *)
Fixpoint ThreadJoin_find (n : nat) (tid : Z) (uid0 : Z) : M (option Z) :=
  match n with
  | O => ret None
  | S n' =>
      let* c := thread_at tid in
      if (uid c =? uid0) && negb (status_eqb (status c) ThreadStatusInvalid)
      then ret (Some tid)
      else ThreadJoin_find n' (tid + 1) uid0
  end.

Definition ThreadJoin (thr : Z) (uid0 : Z) : M unit :=
  let* _ := DPrintf (let* t := load_thr thr in
                     Printf "#%d: ThreadJoin uid=%lu\n" [fast_tid t; uid0]) in
  let* found := ThreadJoin_find (Z.to_nat kMaxTid) 0 uid0 in
  match found with
  | None => Printf "ThreadSanitizer: join of non-existent thread\n" []
  | Some tid =>
      let* tctx := thread_at tid in
      if status_eqb (status tctx) ThreadStatusInvalid
      then Printf "ThreadSanitizer: join of non-existent thread\n" []
      else
        let* _ := CHECK (negb (detached tctx)) "tctx->detached == false" in
        let* _ := CHECK (status_eqb (status tctx) ThreadStatusFinished)
                        "tctx->status == ThreadStatusFinished" in
        let* t := load_thr thr in
        let* _ := store_thr thr (set_clock t (clock_acquire (clock t) (sync tctx))) in
        ThreadFree thr tid
  end.

Fixpoint ThreadDetach_find (n : nat) (tid : Z) (uid0 : Z) : M (option Z) :=
  match n with
  | O => ret None
  | S n' =>
      let* c := thread_at tid in
      if uid c =? uid0 then ret (Some tid)
      else ThreadDetach_find n' (tid + 1) uid0
  end.

Definition ThreadDetach (thr : Z) (uid0 : Z) : M unit :=
  let* found := ThreadDetach_find (Z.to_nat kMaxTid) 0 uid0 in
  match found with
  | None => Printf "ThreadSanitizer: detach of non-existent thread\n" []
  | Some tid =>
      let* tctx := thread_at tid in
      if status_eqb (status tctx) ThreadStatusInvalid
      then Printf "ThreadSanitizer: detach of non-existent thread\n" []
      else if status_eqb (status tctx) ThreadStatusFinished
      then ThreadFree thr tid
      else set_thread tid (set_detached tctx true)
  end.

(** [Initialize]: builds a fresh [Context] and starts thread 0. *)
Definition Initialize (thr : Z) : M unit :=
  let* done := get_initialized in
  if done then ret tt else
  let* _ := put_initialized true in
  let* _ := DPrintf (Printf "tsan::Initialize\n" []) in
  let* _ := put_shadow ∅ in              (* InitializeShadowMemory *)
  let* _ := put_ctx Context0 in
  let* tid := ThreadCreate thr 0 true in
  let* _ := CHECK (tid =? 0) "tid == 0" in
  ThreadStart thr tid.

(** ** Mutexes *)

(** Modelled from the spec: [MutexVar], [SyncVar::Read], [SyncVar::Write]
    and [SyncTab] (tsan_sync.h): the table is a map from the address to the
    sync object; the specification gives [Read] and [Write] no effect on
    clocks, epochs, traces or the registry, so they leave the state as it
    is. *)
Definition MutexVar (addr : Z) (is_rw : bool) : SyncVar :=
  mkSyncVar Mtx addr is_rw ∅.

Definition SyncVar_Read (thr pc : Z) (s : SyncVar) : M unit := ret tt.
Definition SyncVar_Write (thr pc : Z) (s : SyncVar) : M unit := ret tt.

Definition SyncTab_insert (s : SyncVar) : M unit :=
  let* c := get_ctx in
  put_ctx (set_synctab c (<[sv_addr s := s]> (synctab c))).

Definition GetAndLockIfExists (addr : Z) : M (option SyncVar) :=
  let* c := get_ctx in ret (synctab c !! addr).

Definition GetAndRemoveIfExists (addr : Z) : M (option SyncVar) :=
  let* c := get_ctx in
  let* _ := put_ctx (set_synctab c (delete addr (synctab c))) in
  ret (synctab c !! addr).

Definition is_Mtx (s : option SyncVar) : bool :=
  match s with
  | Some v => match sv_type v with Mtx => true | OtherSync => false end
  | None => false
  end.

Definition MutexCreate (thr pc addr : Z) (is_rw : bool) : M unit :=
  let* _ := DPrintf (let* t := load_thr thr in
                     Printf "#%d: MutexCreate %p\n" [fast_tid t; addr]) in
  let s := MutexVar addr is_rw in
  let* _ := SyncTab_insert s in
  SyncVar_Write thr pc s.

Definition MutexDestroy (thr pc addr : Z) : M unit :=
  let* _ := DPrintf (let* t := load_thr thr in
                     Printf "#%d: MutexDestroy %p\n" [fast_tid t; addr]) in
  let* s := GetAndRemoveIfExists addr in
  let* _ := CHECK (is_Mtx s) "s && s->type == SyncVar::Mtx" in
  match s with
  | Some v => SyncVar_Write thr pc v
  | None => undefined
  end.

Definition MutexLock (thr pc addr : Z) : M unit :=
  let* _ := DPrintf (let* t := load_thr thr in
                     Printf "#%d: MutexLock %p\n" [fast_tid t; addr]) in
  let* t := load_thr thr in
  let t := set_fast_epoch t (epoch_inc (fast_epoch t)) in
  let* _ := store_thr thr (TraceAddEvent t (fast_epoch t) EventTypeLock addr) in
  let* found := GetAndLockIfExists addr in
  let* s := match found with
            | Some v => ret v
            | None =>
                (* Locking a mutex before it was created. *)
                let v := MutexVar addr true in
                let* _ := SyncTab_insert v in ret v
            end in
  let* _ := SyncVar_Read thr pc s in
  let* _ := CHECK (is_Mtx (Some s)) "s && s->type == SyncVar::Mtx" in
  let* t := load_thr thr in
  let t := set_clock t (clock_set (clock t) (fast_tid t) (fast_epoch t)) in
  store_thr thr (set_clock t (clock_acquire (clock t) (sv_clock s))).

Definition MutexUnlock (thr pc addr : Z) : M unit :=
  let* _ := DPrintf (let* t := load_thr thr in
                     Printf "#%d: MutexUnlock %p\n" [fast_tid t; addr]) in
  let* t := load_thr thr in
  let t := set_fast_epoch t (epoch_inc (fast_epoch t)) in
  let* _ := store_thr thr (TraceAddEvent t (fast_epoch t) EventTypeUnlock addr) in
  let* found := GetAndLockIfExists addr in
  let* _ := CHECK (is_Mtx found) "s && s->type == SyncVar::Mtx" in
  match found with
  | None => undefined
  | Some s =>
      let* _ := SyncVar_Read thr pc s in
      let* t := load_thr thr in
      let t := set_clock t (clock_set (clock t) (fast_tid t) (fast_epoch t)) in
      let t := set_fast_synch_epoch t (fast_epoch t) in
      let* _ := store_thr thr t in
      let* c := get_ctx in
      put_ctx (set_synctab c (<[addr := set_sv_clock s (clock_release (clock t) (sv_clock s))]>
                                (synctab c)))
  end.

(** ** Function entry and exit *)

Definition FuncEntry (thr pc : Z) : M unit :=
  let* t := load_thr thr in
  let t := StatInc t StatFuncEnter in
  let* _ := DPrintf (Printf "#%d: tsan::FuncEntry %p\n" [fast_tid t; pc]) in
  let t := set_fast_epoch t (epoch_inc (fast_epoch t)) in
  store_thr thr (TraceAddEvent t (fast_epoch t) EventTypeFuncEnter pc).

Definition FuncExit (thr : Z) : M unit :=
  let* t := load_thr thr in
  let t := StatInc t StatFuncExit in
  let* _ := DPrintf (Printf "#%d: tsan::FuncExit\n" [fast_tid t]) in
  let t := set_fast_epoch t (epoch_inc (fast_epoch t)) in
  store_thr thr (TraceAddEvent t (fast_epoch t) EventTypeFuncExit 0).

(** ** Stack reconstruction *)

(** [stack[i] = v] and [stack[i]] on the caller's buffer. *)
Definition stack_write (stack : list (option Z)) (i : Z) (v : option Z)
    : option (list (option Z)) :=
  if (0 <=? i) && (i <? Z.of_nat (length stack))
  then Some (zinsert i v stack) else None.

Definition stack_read (stack : list (option Z)) (i : Z) : option (option Z) :=
  zlookup stack i.

(** The replay loop [for (u64 i = 0; i <= epoch; i++)] of [RestoreStack]:
    [n] iterations are left; [None] is a store outside the buffer. *)
Fixpoint RestoreStack_replay (evs : gmap Z Z) (n : nat) (i pos : Z)
    (stack : list (option Z)) : option (Z * list (option Z)) :=
  match n with
  | O => Some (pos, stack)
  | S n' =>
      let ev := default 0 (evs !! i) in
      let typ := Event_typ ev in
      let pc := Event_pc ev in
      if typ =? EventType_code EventTypeMop then
        match stack_write stack pos (Some pc) with
        | Some st => RestoreStack_replay evs n' (i + 1) pos st
        | None => None
        end
      else if typ =? EventType_code EventTypeFuncEnter then
        match stack_write stack pos (Some pc) with
        | Some st => RestoreStack_replay evs n' (i + 1) (u64 (pos + 1)) st
        | None => None
        end
      else if typ =? EventType_code EventTypeFuncExit then
        RestoreStack_replay evs n' (i + 1) (u64 (pos - 1)) stack
      else RestoreStack_replay evs n' (i + 1) pos stack
  end.

(** The reversal loop [for (u64 i = 0; i <= pos / 2; i++)]. *)
Fixpoint RestoreStack_reverse (n : nat) (i pos : Z) (stack : list (option Z))
    : option (list (option Z)) :=
  match n with
  | O => Some stack
  | S n' =>
      let j := u64 (pos - i - 1) in
      match stack_read stack i, stack_read stack j with
      | Some pc, Some x =>
          match stack_write stack i x with
          | Some st1 =>
              match stack_write st1 j pc with
              | Some st2 => RestoreStack_reverse n' (i + 1) pos st2
              | None => None
              end
          | None => None
          end
      | _, _ => None
      end
  end.

(** [static int RestoreStack(int tid, u64 epoch, uptr *stack, int n)]: the
    result is the returned count and the buffer as the call leaves it. *)
Definition RestoreStack (tid epoch : Z) (stack : list (option Z)) (n : Z)
    : M (Z * list (option Z)) :=
  let* tctx := thread_at tid in
  if negb (status_eqb (status tctx) ThreadStatusRunning) then ret (0, stack)
  else
    match thr tctx with
    | None => undefined
    | Some p =>
        let* t := load_thr p in
        let epoch0 :=
          default 0 (headers (trace t)
                       !! ((epoch / kTracePartSize) mod kTraceParts)) in
        if epoch <? epoch0 then ret (0, stack)
        else
          let epoch := epoch mod kTracePartSize in
          match RestoreStack_replay (events (trace t))
                                    (Z.to_nat (epoch + 1)) 0 0 stack with
          | None => undefined
          | Some (pos, st) =>
              let pos := u64 (pos + 1) in
              match RestoreStack_reverse (Z.to_nat (pos / 2 + 1)) 0 pos st with
              | None => undefined
              | Some st' => ret (to_int pos, st')
              end
          end
    end.

(** ** Race reports *)

(** [alloc<T>(rep, n, pos)] with [sz = sizeof(T)]: the result is the new
    value of [*pos]. *)
Definition alloc (n sz pos : Z) : M Z :=
  let pos' := pos + n * sz in
  let* _ := CHECK (pos' <=? sizeof_alloc) "*pos <= (int)sizeof(rep->alloc)" in
  ret pos'.

(** The loop over the frames of one access in [ReportRace]. *)
Fixpoint ReportRace_entries (n : nat) (i : Z) (stack : list (option Z))
    (pos : Z) : M (list ReportStackEntry * Z) :=
  match n with
  | O => ret ([], pos)
  | S n' =>
      match stack_read stack i with
      | None => undefined
      | Some pc =>
          let* pos := alloc 1024 1 pos in
          let* pos := alloc 1024 1 pos in
          let sym := SymbolizeCode pc in
          let* r := ReportRace_entries n' (i + 1) stack pos in
          ret (mkReportStackEntry pc (fst (fst sym)) (snd (fst sym)) (snd sym)
                 :: fst r, snd r)
      end
  end.

(** One iteration of the loop over the two accesses in [ReportRace]. *)
Definition ReportRace_mop (addr s pos : Z) : M (ReportMop * Z) :=
  let* r := RestoreStack (Shadow_tid s) (Shadow_epoch s) (replicate 64 None) 64 in
  let cnt := fst r in
  let* es := if cnt =? 0 then ret ([], pos) else
               let* pos := alloc cnt sizeof_ReportStackEntry pos in
               ReportRace_entries (Z.to_nat cnt) 0 (snd r) pos in
  ret (mkReportMop (Shadow_tid s) (u64 (addr + Shadow_addr0 s))
                   (Shadow_addr1 s - Shadow_addr0 s + 1) (Shadow_write s) 0
                   (mkReportStack cnt (fst es)),
       snd es).

Definition ReportRace (thr addr s0 s1 : Z) : M unit :=
  let* _ := enter_ReportRace addr s0 s1 in
  let addr := Z.land addr (Z.lnot 7) in
  let* pos := alloc 2 sizeof_ReportMop 0 in
  let* m0 := ReportRace_mop addr s0 pos in
  let* m1 := ReportRace_mop addr s1 (snd m0) in
  let r := mkReportDesc ReportTypeRace 2 [fst m0; fst m1] 0 0 0 in
  let* c := get_ctx in
  let* _ := put_ctx (set_rep c r) in
  let suppressed := IsSuppressed ReportTypeRace (mop_stack (fst m0)) in
  let* _ := emit (OutOnReport r suppressed) in
  if OnReport r suppressed then ret tt
  else emit (OutPrintReport r).

(** ** The shadow-word scan *)

(** [MemoryAccess1]: the by-reference [replaced] and [racy_access] and the
    shadow memory behind [sp] are passed in and out as a triple. *)
Definition MemoryAccess1 (t : ThreadState) (fast_state : Z * Z)
    (synch_epoch s0 sp : Z) (is_write : bool) (st : gmap Z Z * bool * Z)
    : bool * (gmap Z Z * bool * Z) :=
  let '(sh, replaced, racy_access) := st in
  let s := LoadShadow sh sp in
  if s =? 0 then
    if negb replaced then (false, (StoreShadow sh sp s0, true, racy_access))
    else (false, st)
  else if (Shadow_addr0 s0 =? Shadow_addr0 s) && (Shadow_addr1 s0 =? Shadow_addr1 s) then
    (* is the memory access equal to the previous? *)
    if Shadow_tid s =? fst fast_state then
      (* same thread? *)
      if Shadow_epoch s >=? synch_epoch then
        if Shadow_write s || negb is_write then (true, st)
        else (false, (StoreShadow sh sp (if replaced then 0 else s0), true, racy_access))
      else
        if negb (Shadow_write s) || is_write
        then (false, (StoreShadow sh sp (if replaced then 0 else s0), true, racy_access))
        else (false, st)
    else
      (* happens before? *)
      if clock_get (clock t) (Shadow_tid s) >=? Shadow_epoch s
      then (false, (StoreShadow sh sp (if replaced then 0 else s0), true, racy_access))
      else if negb (Shadow_write s) && negb is_write then (false, st)
      else (false, (sh, replaced, s))
  else if Z.min (Shadow_addr1 s0) (Shadow_addr1 s)
          >=? Z.max (Shadow_addr0 s0) (Shadow_addr0 s) then
    (* do the memory access intersect? *)
    if Shadow_tid s =? fst fast_state then (false, st)
    else if clock_get (clock t) (Shadow_tid s) >=? Shadow_epoch s then (false, st)
    else if negb (Shadow_write s) && negb is_write then (false, st)
    else (false, (sh, replaced, s))
  else
    (* the accesses do not intersect *)
    (false, st).

(** The loop [for (int i = 0; i < kShadowCnt; i++)] of [MemoryAccess]:
    [n] iterations are left; the flag tells whether [MemoryAccess1]
    returned true, which makes [MemoryAccess] return at once. *)
Fixpoint MemoryAccess_scan (t : ThreadState) (fast_state : Z * Z)
    (synch_epoch s0 shadow_mem off : Z) (is_write : bool) (n : nat) (i : Z)
    (st : gmap Z Z * bool * Z) : bool * (gmap Z Z * bool * Z) :=
  match n with
  | O => (false, st)
  | S n' =>
      let sp := shadow_mem + (i + off) mod kShadowCnt in
      let r := MemoryAccess1 t fast_state synch_epoch s0 sp is_write st in
      if fst r then (true, snd r)
      else MemoryAccess_scan t fast_state synch_epoch s0 shadow_mem off
                             is_write n' (i + 1) (snd r)
  end.

(** The scan offset [off] chosen from the access size. *)
Definition MemoryAccess_off (addr size : Z) : Z :=
  if size =? 1 then Z.land addr 7
  else if size =? 2 then Z.land addr 6
  else if size =? 4 then Z.land addr 4
  else 0.

Definition MemoryAccess (thr pc addr size : Z) (is_write : bool) : M unit :=
  let* t := load_thr thr in
  let t := StatInc t StatMop in
  let shadow_mem := MemToShadow addr in
  let* _ := DPrintf (Printf
      "#%d: tsan::OnMemoryAccess: @%p %p size=%d is_write=%d shadow_mem=%p\n"
      [fast_tid t; pc; addr; size; Z.b2z is_write; shadow_mem]) in
  let fast_state := (fast_tid t, epoch_inc (fast_epoch t)) in
  let t := set_fast_epoch t (snd fast_state) in
  let t := TraceAddEvent t (snd fast_state) EventTypeMop pc in
  let* _ := store_thr thr t in
  (* descriptor of the memory access *)
  let s0 := mkShadow (fst fast_state) (snd fast_state) (Z.land addr 7)
                     (Z.min (u64 (Z.land addr 7 + size - 1)) 7) is_write in
  let synch_epoch := fast_synch_epoch t in
  let off := MemoryAccess_off addr size in
  let* sh := get_shadow in
  let r := MemoryAccess_scan t fast_state synch_epoch s0 shadow_mem off
                             is_write (Z.to_nat kShadowCnt) 0
                             (sh, false, 0) in
  let replaced := snd (fst (snd r)) in
  let racy_access := snd (snd r) in
  let* _ := put_shadow (fst (fst (snd r))) in
  if fst r then ret tt
  else
    (* find some races? *)
    let* _ := if negb (racy_access =? 0)
              then ReportRace thr addr s0 racy_access else ret tt in
    if replaced then ret tt
    else
      (* choose a random candidate slot and replace it *)
      let* sh := get_shadow in
      put_shadow (StoreShadow sh (shadow_mem + snd fast_state mod kShadowCnt) s0).

End Runtime.

(** ** A concrete configuration

    The widths the specification calls typical (16-bit tids, 40-bit
    epochs, 8 shadow slots), a registry of 8 contexts and a trace of 8
    partitions of 128 events; no debug output, no suppressions. *)
Definition demo : Config := {|
  kTidBits := 16; kClkBits := 40; kShadowCnt := 8; kMaxTid := 8;
  kTraceSize := 1024; kTraceParts := 8;
  TSAN_DEBUG := false; kCollectStats := false;
  sizeof_ReportMop := 64; sizeof_ReportStackEntry := 32;
  sizeof_alloc := 1048576;
  MemToShadow := fun a => Z.shiftr a 3 * 8;
  SymbolizeCode := fun _ => (EmptyString, EmptyString, 0);
  IsSuppressed := fun _ _ => false;
  OnReport := fun _ s => s
|}.

(** The world a call leaves behind. *)
Definition exec {A} (m : M A) (w : World) : World := fst (m w).

(** Running a list of calls in sequence, stopping at the first failure. *)
Fixpoint run_all (ms : list (M unit)) : M unit :=
  match ms with
  | [] => ret tt
  | m :: ms' => let* _ := m in run_all ms'
  end.

(** The process before [Initialize]: nothing registered, thread 0's state
    at address 1000. *)
Definition World0 : World := mkWorld false (mkContext ∅ None 0 []) ∅ ∅ [] [].

(** ** Definitions used in the statements *)

Section Statements.
Context `{Config}.

(** Two worlds that differ in their output only. *)
Definition same_state (w w1 : World) : Prop :=
  initialized w1 = initialized w /\ ctx w1 = ctx w /\ tls w1 = tls w
  /\ shadow w1 = shadow w /\ races w1 = races w.

(** The thread state [MutexLock], [MutexUnlock], [FuncEntry] and
    [FuncExit] store once the event is traced: epoch incremented, event
    appended. *)
Definition after_event (t : ThreadState) (typ : EventType) (addr : Z)
    : ThreadState :=
  TraceAddEvent (set_fast_epoch t (epoch_inc (fast_epoch t)))
                (epoch_inc (fast_epoch t)) typ addr.

(** The thread state a release-side operation stores:
    [thr->clock.set(thr->fast.tid, thr->fast.epoch)], then
    [thr->fast_synch_epoch = thr->fast.epoch]. *)
Definition released (t : ThreadState) : ThreadState :=
  set_fast_synch_epoch
    (set_clock t (clock_set (clock t) (fast_tid t) (fast_epoch t)))
    (fast_epoch t).

(** The thread state an acquire-side operation stores:
    [thr->clock.set(thr->fast.tid, thr->fast.epoch)], then
    [thr->clock.acquire(src)]. *)
Definition acquired (t : ThreadState) (src : gmap Z Z) : ThreadState :=
  set_clock t (clock_acquire (clock_set (clock t) (fast_tid t) (fast_epoch t))
                             src).


(** The entry points of tsan_rtl.cc, as calls. *)
Inductive Op :=
| OpInitialize (thr : Z)
| OpThreadCreate (thr uid : Z) (detached : bool)
| OpThreadStart (thr tid : Z)
| OpThreadFinish (thr : Z)
| OpThreadJoin (thr uid : Z)
| OpThreadDetach (thr uid : Z)
| OpMutexCreate (thr pc addr : Z) (is_rw : bool)
| OpMutexDestroy (thr pc addr : Z)
| OpMutexLock (thr pc addr : Z)
| OpMutexUnlock (thr pc addr : Z)
| OpMemoryAccess (thr pc addr size : Z) (is_write : bool)
| OpFuncEntry (thr pc : Z)
| OpFuncExit (thr : Z).

Definition run (op : Op) : M unit :=
  match op with
  | OpInitialize thr => Initialize thr
  | OpThreadCreate thr uid d => let* _ := ThreadCreate thr uid d in ret tt
  | OpThreadStart thr tid => ThreadStart thr tid
  | OpThreadFinish thr => ThreadFinish thr
  | OpThreadJoin thr uid => ThreadJoin thr uid
  | OpThreadDetach thr uid => ThreadDetach thr uid
  | OpMutexCreate thr pc addr rw => MutexCreate thr pc addr rw
  | OpMutexDestroy thr pc addr => MutexDestroy thr pc addr
  | OpMutexLock thr pc addr => MutexLock thr pc addr
  | OpMutexUnlock thr pc addr => MutexUnlock thr pc addr
  | OpMemoryAccess thr pc addr size wr => MemoryAccess thr pc addr size wr
  | OpFuncEntry thr pc => FuncEntry thr pc
  | OpFuncExit thr => FuncExit thr
  end.

(** [wp m Q E w]: started in [w], the action [m] either returns [a] in a
    world satisfying [Q a], or stops (fatal or undefined) in a world
    satisfying [E]. *)
Definition wp {A} (m : M A) (Q : A -> World -> Prop) (E : World -> Prop)
    (w : World) : Prop :=
  match m w with
  | (w', Ret a) => Q a w'
  | (w', _) => E w'
  end.

(** Every thread state at address [q], if there is one, has
    [fast_synch_epoch] [e]. *)
Definition fse_is (q e : Z) (w : World) : Prop :=
  forall t, tls w !! q = Some t -> fast_synch_epoch t = e.

(** Every thread state at address [q], if there is one, has
    [fast_synch_epoch] [e] or satisfies [P]. *)
Definition fse_or (q e : Z) (P : ThreadState -> Prop) (w : World) : Prop :=
  forall t, tls w !! q = Some t -> fast_synch_epoch t = e \/ P t.


(** An action that leaves the thread states alone. *)
Definition keeps_tls {A} (m : M A) : Prop :=
  forall w, tls (fst (m w)) = tls w.

(** The thread state [MemoryAccess] stores before it scans: the access
    counted, the epoch incremented, the Mop event traced. *)
Definition access_state (t : ThreadState) (pc : Z) : ThreadState :=
  TraceAddEvent
    (set_fast_epoch (StatInc t StatMop)
                    (epoch_inc (fast_epoch (StatInc t StatMop))))
    (epoch_inc (fast_epoch (StatInc t StatMop))) EventTypeMop pc.

(** The descriptor [s0] of the access. *)
Definition access_desc (t : ThreadState) (addr size : Z) (is_write : bool) : Z :=
  mkShadow (fast_tid (StatInc t StatMop))
           (epoch_inc (fast_epoch (StatInc t StatMop)))
           (Z.land addr 7) (Z.min (u64 (Z.land addr 7 + size - 1)) 7) is_write.

(** The scan [MemoryAccess] runs over the shadow memory [sh]. *)
Definition access_scan (t : ThreadState) (pc addr size : Z) (is_write : bool)
    (sh : gmap Z Z) : bool * (gmap Z Z * bool * Z) :=
  MemoryAccess_scan (access_state t pc)
    (fast_tid (StatInc t StatMop), epoch_inc (fast_epoch (StatInc t StatMop)))
    (fast_synch_epoch (access_state t pc))
    (access_desc t addr size is_write)
    (MemToShadow addr) (MemoryAccess_off addr size) is_write
    (Z.to_nat kShadowCnt) 0 (sh, false, 0).

(** The slot the fallback store of [MemoryAccess] goes to. *)
Definition access_fallback (t : ThreadState) (addr : Z) : Z :=
  MemToShadow addr + epoch_inc (fast_epoch (StatInc t StatMop)) mod kShadowCnt.

(** The byte ranges of two shadow values are equal, or intersect. *)
Definition ranges_overlap (s0 s : Z) : bool :=
  ((Shadow_addr0 s0 =? Shadow_addr0 s) && (Shadow_addr1 s0 =? Shadow_addr1 s))
  || (Z.min (Shadow_addr1 s0) (Shadow_addr1 s)
      >=? Z.max (Shadow_addr0 s0) (Shadow_addr0 s)).

(** The slot [s] already summarizes the access [s0] of thread [tid]: same
    range, same thread, within the current synch epoch, and a write or as
    weak as the access. *)
Definition slot_same (tid synch_epoch s0 : Z) (is_write : bool) (s : Z) : bool :=
  negb (s =? 0)
  && ((Shadow_addr0 s0 =? Shadow_addr0 s) && (Shadow_addr1 s0 =? Shadow_addr1 s))
  && (Shadow_tid s =? tid)
  && (Shadow_epoch s >=? synch_epoch)
  && (Shadow_write s || negb is_write).

(** The slot [s] records an access of another thread, on an overlapping
    range, that the clock [c] of the accessing thread has not seen, and
    one of the two accesses is a write. *)
Definition slot_racy (c : gmap Z Z) (tid s0 : Z) (is_write : bool) (s : Z)
    : bool :=
  negb (s =? 0)
  && negb (Shadow_tid s =? tid)
  && ranges_overlap s0 s
  && (clock_get c (Shadow_tid s) <? Shadow_epoch s)
  && (Shadow_write s || is_write).

(** How the scan may change the shadow memory, from [sh] with the flag
    [repl] to [sh'] with [repl']: nothing is stored while the flag stays
    false; a slot that changes lies in the cell at [base] and becomes 0
    or [s0]; and all slots but one (none, once the flag is set) keep
    their value or become 0. *)
Definition store_rel (base s0 : Z) (sh : gmap Z Z) (repl : bool)
    (sh' : gmap Z Z) (repl' : bool) : Prop :=
  (repl' = false -> sh' = sh /\ repl = false)
  /\ (forall p, LoadShadow sh' p <> LoadShadow sh p ->
                base <= p < base + kShadowCnt
                /\ (LoadShadow sh' p = 0 \/ LoadShadow sh' p = s0))
  /\ (if repl
      then forall p, LoadShadow sh' p = LoadShadow sh p \/ LoadShadow sh' p = 0
      else exists p0, forall p, p <> p0 ->
             LoadShadow sh' p = LoadShadow sh p \/ LoadShadow sh' p = 0).

(** An action that leaves the shadow memory alone. *)
Definition keeps_shadow {A} (m : M A) : Prop :=
  forall w, shadow (fst (m w)) = shadow w.

(** Two worlds that agree on everything but the report descriptor, the
    output and the record of [ReportRace] calls. *)
Definition report_frame (w w' : World) : Prop :=
  initialized w' = initialized w /\ tls w' = tls w /\ shadow w' = shadow w
  /\ synctab (ctx w') = synctab (ctx w)
  /\ thread_seq (ctx w') = thread_seq (ctx w)
  /\ threads (ctx w') = threads (ctx w).

(** Stack reconstruction fails for the access recorded in the shadow value
    [s]: its thread is not Running, or the header of the partition of its
    epoch says that the partition has been rotated. *)
Definition restore_fails (w : World) (s : Z) : Prop :=
  exists tctx, zlookup (threads (ctx w)) (Shadow_tid s) = Some tctx
  /\ (status tctx <> ThreadStatusRunning
      \/ exists p t, thr tctx = Some p /\ tls w !! p = Some t
           /\ Shadow_epoch s
              < default 0 (headers (trace t)
                             !! ((Shadow_epoch s / kTracePartSize)
                                 mod kTraceParts))).



(** The thread state [ThreadStart] builds for the thread [tid] whose
    context holds the sync clock [src]. *)
Definition started (tid : Z) (src : gmap Z Z) : ThreadState :=
  mkThreadState (bitfield kTidBits tid) (bitfield kClkBits 1) 1
                (mkTrace ∅ ∅) (clock_acquire (clock_set ∅ tid 1) src) ∅.

(** The test of the search loop of [ThreadJoin]. *)
Definition join_match (uid0 : Z) (c : ThreadContext) : bool :=
  (uid c =? uid0) && negb (status_eqb (status c) ThreadStatusInvalid).

(** [c], at index [tid], is the first context the loop of [ThreadJoin]
    stops at. *)
Definition join_target (ths : list ThreadContext) (uid0 tid : Z)
    (c : ThreadContext) : Prop :=
  zlookup ths tid = Some c /\ join_match uid0 c = true
  /\ forall j c', 0 <= j < tid -> zlookup ths j = Some c' ->
                  join_match uid0 c' = false.

(** [b] knows everything [a] knows: each component [a] holds is held by
    [b] with an epoch at least as large. *)
Definition clock_le (a b : gmap Z Z) : Prop :=
  forall k x, a !! k = Some x -> exists y, b !! k = Some y /\ x <= y.

(** [c], at index [tid], is the first context the loop of [ThreadDetach]
    stops at: the first one with the uid, whatever its status. *)
Definition detach_target (ths : list ThreadContext) (uid0 tid : Z)
    (c : ThreadContext) : Prop :=
  zlookup ths tid = Some c /\ uid c = uid0
  /\ forall j c', 0 <= j < tid -> zlookup ths j = Some c' -> uid c' <> uid0.

(** The thread-state pointer a call is made with. *)
Definition op_thr (op : Op) : Z :=
  match op with
  | OpInitialize thr | OpThreadCreate thr _ _ | OpThreadStart thr _
  | OpThreadFinish thr | OpThreadJoin thr _ | OpThreadDetach thr _
  | OpMutexCreate thr _ _ _ | OpMutexDestroy thr _ _ | OpMutexLock thr _ _
  | OpMutexUnlock thr _ _ | OpMemoryAccess thr _ _ _ _ | OpFuncEntry thr _
  | OpFuncExit thr => thr
  end.


(** The status changes of a registry slot: Invalid to Created, Created to
    Running, Running to Finished or Invalid, Finished to Invalid, or no
    change. *)
Definition status_step (s s' : ThreadStatus) : bool :=
  match s, s' with
  | ThreadStatusInvalid, ThreadStatusCreated
  | ThreadStatusCreated, ThreadStatusRunning
  | ThreadStatusRunning, ThreadStatusFinished
  | ThreadStatusRunning, ThreadStatusInvalid
  | ThreadStatusFinished, ThreadStatusInvalid => true
  | _, _ => status_eqb s s'
  end.


(** Where the reversal loop of [RestoreStack] takes the entry at index
    [k] of a buffer holding [pos] frames from: the mirror index, except
    for the two middle entries of an even count, which the last iteration
    swaps back. *)
Definition reversed_index (pos k : Z) : Z :=
  if (0 <=? k) && (k <? pos)
     && negb (Z.even pos && ((k =? pos / 2 - 1) || (k =? pos / 2)))
  then pos - 1 - k else k.

(** The events at the ring indices [i], ..., [i + n - 1], decoded as
    [RestoreStack] decodes them: type code and pc. *)
Fixpoint ring_events (evs : gmap Z Z) (n : nat) (i : Z) : list (Z * Z) :=
  match n with
  | O => []
  | S n' =>
      let ev := default 0 (evs !! i) in
      (Event_typ ev, Event_pc ev) :: ring_events evs n' (i + 1)
  end.

(** The call stack a sequence of events leaves, as a list of the pcs of
    the open function entries, outermost first, starting from [fr].
    [None] when an exit finds no open entry, or when an access or an
    entry comes at a depth of [cap] frames or more. *)
Fixpoint call_stack (cap : Z) (evs : list (Z * Z)) (fr : list Z)
    : option (list Z) :=
  match evs with
  | [] => Some fr
  | (typ, pc) :: evs' =>
      if typ =? EventType_code EventTypeMop then
        if Z.of_nat (length fr) <? cap then call_stack cap evs' fr else None
      else if typ =? EventType_code EventTypeFuncEnter then
        if Z.of_nat (length fr) <? cap then call_stack cap evs' (fr ++ [pc])
        else None
      else if typ =? EventType_code EventTypeFuncExit then
        match fr with
        | [] => None
        | _ :: _ => call_stack cap evs' (removelast fr)
        end
      else call_stack cap evs' fr
  end.

(** The buffer [st] holds the frames [fr] in its first entries. *)
Definition holds_frames (st : list (option Z)) (fr : list Z) : Prop :=
  forall (k : nat) pc, fr !! k = Some pc -> zlookup st (Z.of_nat k) = Some (Some pc).

(** How a call may move a thread state: epoch and trace untouched, or
    the epoch advanced by one and one event traced at it; the tid stays
    in both cases. *)
Definition state_step (t t' : ThreadState) : Prop :=
  fast_tid t' = fast_tid t
  /\ ((fast_epoch t' = fast_epoch t /\ trace t' = trace t)
      \/ (fast_epoch t' = epoch_inc (fast_epoch t)
          /\ exists typ addr, trace t' = trace (after_event t typ addr))).

End Statements.

(** ** Concrete worlds *)

(** Thread 0, started by [Initialize], its state at address 1000. *)
Definition demo_main : World := exec (Initialize (H := demo) 1000) World0.

(** Thread 0 has created thread 1 (uid 77, joinable), which has started
    with its state at address 2000. *)
Definition demo_two : World :=
  exec (let* tid := ThreadCreate (H := demo) 1000 77 false in
        ThreadStart (H := demo) 2000 tid) demo_main.

(** Thread 1 has finished and waits to be joined. *)
Definition demo_finished : World := exec (ThreadFinish (H := demo) 2000) demo_two.

(** The state of the thread at address [p], [ThreadState0] if there is
    none; the context at index [tid]. *)
Definition state_at (w : World) (p : Z) : ThreadState :=
  default ThreadState0 (tls w !! p).

Definition context_at `{Config} (w : World) (tid : Z) : ThreadContext :=
  default ThreadContext0 (zlookup (threads (ctx w)) tid).

(** Thread 0 has joined thread 1 and then entered a function: slot 1 of
    the registry is Invalid again, [thread_seq] is 2, thread 0 is at
    epoch 2 with [fast_synch_epoch] 1. *)
Definition demo_joined : World :=
  exec (run_all [ThreadJoin (H := demo) 1000 77; FuncEntry (H := demo) 1000 4096])
       demo_finished.

(** Thread 1 has written the 4 bytes at 8192: the cell holds its write in
    slot 0. *)
Definition demo_written : World :=
  exec (MemoryAccess (H := demo) 2000 700 8192 4 true) demo_two.

(** Then thread 0 has written them too, with no synchronization in
    between: the race was reported, and the cell holds thread 1's write in
    slot 0 and thread 0's in slot 1. *)
Definition demo_raced : World :=
  exec (MemoryAccess (H := demo) 1000 800 8192 4 true) demo_written.

(** Thread 0 has written the 4 bytes at 8192, synchronized on the mutex at
    4096, read them, and synchronized again: the cell holds its write in
    slot 0 and its read in slot 1, both from earlier synch epochs. *)
Definition demo_stale : World :=
  exec (run_all [MemoryAccess (H := demo) 1000 800 8192 4 true;
                 MutexLock (H := demo) 1000 810 4096;
                 MutexUnlock (H := demo) 1000 820 4096;
                 MemoryAccess (H := demo) 1000 830 8192 4 false;
                 MutexLock (H := demo) 1000 840 4096;
                 MutexUnlock (H := demo) 1000 850 4096])
       demo_main.


(** Thread 0 is 65 calls deep (pc 4096 each) and has then written to
    8192, at epoch 67. *)
Definition demo_deep : World :=
  exec (run_all (replicate 65 (FuncEntry (H := demo) 1000 4096)
                 ++ [MemoryAccess (H := demo) 1000 800 8192 4 true]))
       demo_main.

(** Thread 0 has entered a function (pc 4096, epoch 2), written to 8192
    from pc 800 at the epochs 3 to 127, entered another function (pc 5000)
    at epoch 128, the first of partition 1, and written to 8192 from pc
    900 at epoch 129. *)
Definition demo_part : World :=
  exec (run_all ([FuncEntry (H := demo) 1000 4096]
                 ++ replicate 125 (MemoryAccess (H := demo) 1000 800 8192 4 true)
                 ++ [FuncEntry (H := demo) 1000 5000;
                     MemoryAccess (H := demo) 1000 900 8192 4 true]))
       demo_main.

(** Thread 0 has created thread 1 (uid 77, joinable), which has not
    started yet. *)
Definition demo_created : World :=
  exec (ThreadCreate (H := demo) 1000 77 false) demo_main.

(** Both threads run, and thread 0 has created the mutex at 4096. *)
Definition demo_mutex : World :=
  exec (MutexCreate (H := demo) 1000 0 4096 true) demo_two.


(** * Properties *)

(** ** Stepping through the monad *)

Lemma bind_Ret {A B} (m : M A) (k : A -> M B) w w' a :
  m w = (w', Ret a) -> bind m k w = k a w'.
Proof. intros E. unfold bind. now rewrite E. Qed.

Lemma bind_Fatal {A B} (m : M A) (k : A -> M B) w w' :
  m w = (w', Fatal) -> bind m k w = (w', Fatal).
Proof. intros E. unfold bind. now rewrite E. Qed.


Lemma load_thr_Some w p t : tls w !! p = Some t -> load_thr p w = (w, Ret t).
Proof. intros E. unfold load_thr. now rewrite E. Qed.

Lemma thread_at_Some w tid c :
  zlookup (threads (ctx w)) tid = Some c -> thread_at tid w = (w, Ret c).
Proof. intros E. unfold thread_at. now rewrite E. Qed.

Lemma CHECK_true cond w : CHECK true cond w = (w, Ret tt).
Proof. reflexivity. Qed.

Lemma CHECK_false cond w : CHECK false cond w = (add_out w (OutFatal cond), Fatal).
Proof. reflexivity. Qed.

Lemma same_state_refl `{Config} w : same_state w w.
Proof. now repeat split. Qed.

Lemma bind_assoc {A B C} (m : M A) (f : A -> M B) (g : B -> M C) w :
  bind (bind m f) g w = bind m (fun x => bind (f x) g) w.
Proof. unfold bind. destruct (m w) as [w' [a| |]]; reflexivity. Qed.

Lemma load_Printf w p t fmt (args : ThreadState -> list Z) :
  tls w !! p = Some t ->
  (let* t := load_thr p in Printf fmt (args t)) w
  = (add_out w (OutPrintf fmt (args t)), Ret tt).
Proof. intros E. now rewrite (bind_Ret _ _ _ _ _ (load_thr_Some _ _ _ E)). Qed.

(** One step of an entry point: run the first action of a [bind] whose
    result is known. *)
Ltac mstep :=
  first
    [ erewrite bind_Ret by reflexivity
    | erewrite bind_Ret by (apply load_thr_Some; cbn;
                            first [eassumption | apply lookup_insert_eq])
    | erewrite bind_Ret by (apply load_Printf; cbn;
                            first [eassumption | apply lookup_insert_eq])
    | erewrite bind_Ret by (apply thread_at_Some; cbn; eassumption)
    | erewrite bind_Ret by (apply CHECK_true)
    | rewrite bind_assoc ];
  cbv beta iota.

Ltac step_with E := erewrite bind_Ret by (exact E); cbv beta iota.

(** Both settings of [TSAN_DEBUG]. *)
Ltac debug_cases := unfold DPrintf; destruct TSAN_DEBUG.

(** From [m w = (w', r)] to a statement about [fst (m w)] and [snd (m w)]. *)
Ltac use_result L :=
  let w' := fresh "w'" in let E := fresh "E" in
  destruct L as (w' & E & ?); cbv zeta; rewrite E; cbn [fst snd].

Section EventProps.
Context `{Config}.

Lemma TraceAddEvent_fields t e typ addr :
  fast_tid (TraceAddEvent t e typ addr) = fast_tid t
  /\ fast_epoch (TraceAddEvent t e typ addr) = fast_epoch t
  /\ fast_synch_epoch (TraceAddEvent t e typ addr) = fast_synch_epoch t
  /\ clock (TraceAddEvent t e typ addr) = clock t
  /\ stat (TraceAddEvent t e typ addr) = stat t.
Proof. unfold TraceAddEvent, TraceSwitch. now destruct (_ =? 0). Qed.

Lemma after_event_fse t typ addr :
  fast_synch_epoch (after_event t typ addr) = fast_synch_epoch t.
Proof. unfold after_event. now rewrite (proj1 (proj2 (proj2 (TraceAddEvent_fields _ _ _ _)))). Qed.

Lemma after_event_epoch t typ addr :
  fast_epoch (after_event t typ addr) = epoch_inc (fast_epoch t).
Proof. unfold after_event. now rewrite (proj1 (proj2 (TraceAddEvent_fields _ _ _ _))). Qed.

Lemma after_event_tid t typ addr :
  fast_tid (after_event t typ addr) = fast_tid t.
Proof. unfold after_event. now rewrite (proj1 (TraceAddEvent_fields _ _ _ _)). Qed.

Lemma after_event_clock t typ addr :
  clock (after_event t typ addr) = clock t.
Proof. unfold after_event. now rewrite (proj1 (proj2 (proj2 (proj2 (TraceAddEvent_fields _ _ _ _))))). Qed.

End EventProps.

Section EventCodec.
Context `{Config}.

Lemma u64_small x : 0 <= x < 2 ^ 64 -> u64 x = x.
Proof. intros Hx. unfold u64. now apply Z.mod_small. Qed.

Lemma EventType_code_range typ : 0 <= EventType_code typ <= 6.
Proof. destruct typ; cbn; lia. Qed.

Lemma shifted_code_u64 typ :
  u64 (Z.shiftl (EventType_code typ) 61) = Z.shiftl (EventType_code typ) 61.
Proof. destruct typ; reflexivity. Qed.

Lemma shifted_code_low typ i :
  0 <= i < 61 -> Z.testbit (Z.shiftl (EventType_code typ) 61) i = false.
Proof. intros Hi. apply Z.shiftl_spec_low. lia. Qed.

(** The pc [RestoreStack] reads back is the low 48 bits of what was packed. *)
Lemma Event_pc_mkEvent typ pc : Event_pc (mkEvent typ pc) = pc mod 2 ^ 48.
Proof.
  unfold Event_pc, mkEvent.
  change 0xffffffffffff with (Z.ones 48).
  rewrite Z.land_ones by lia. rewrite shifted_code_u64.
  apply Z.bits_inj'. intros i Hi.
  rewrite !Z.testbit_mod_pow2 by lia.
  destruct (i <? 48) eqn:E; [|reflexivity]. cbn [andb].
  apply Z.ltb_lt in E.
  rewrite Z.lor_spec, shifted_code_low by lia.
  rewrite orb_false_r. unfold u64.
  rewrite Z.testbit_mod_pow2 by lia.
  replace (i <? 64) with true by (symmetry; apply Z.ltb_lt; lia).
  reflexivity.
Qed.

Lemma Event_typ_mkEvent typ pc :
  0 <= pc < 2 ^ 61 -> Event_typ (mkEvent typ pc) = EventType_code typ.
Proof.
  intros Hpc. unfold Event_typ, mkEvent.
  rewrite shifted_code_u64, u64_small by lia.
  rewrite Z.shiftr_lor, Z.shiftr_shiftl_l by lia.
  rewrite Z.shiftr_div_pow2, Z.div_small by lia.
  cbn. now rewrite Z.shiftl_0_r.
Qed.

Lemma mkEvent_packed typ pc :
  0 <= pc < 2 ^ 61 ->
  mkEvent typ pc
  = Z.lor (Z.shiftl (EventType_code typ) 61) (Z.land pc (Z.ones 61)).
Proof.
  intros Hpc. unfold mkEvent.
  rewrite shifted_code_u64, u64_small by lia.
  rewrite Z.land_ones, Z.mod_small by lia.
  apply Z.lor_comm.
Qed.

Lemma TraceAddEvent_stored t e typ addr :
  events (trace (TraceAddEvent t e typ addr)) !! (e mod kTraceSize)
  = Some (mkEvent typ addr).
Proof.
  unfold TraceAddEvent. cbn. apply lookup_insert_eq.
Qed.

(** C8 (amended). The event appended for a (type, pc) pair, by
    [TraceAddEvent] of tsan_rtl.cc and by the inline one of tsan_rtl.h, is
    [(u64)pc | (type << 61)], stored at ring index [epoch mod kTraceSize];
    the pc is not masked, so the value is
    [(type << 61) | (pc & ((1<<61)-1))], and decodes to the type that was
    packed, when pc is below 2^61. Stack reconstruction masks with
    [0xffffffffffff]: it recovers the low 48 bits of the pc, not the low
    61. *)
Theorem Event_pack_unpack t e typ pc :
  0 <= pc < 2 ^ 61 ->
  events (trace (TraceAddEvent t e typ pc)) !! (e mod kTraceSize)
    = Some (mkEvent typ pc)
  /\ events (trace (TraceAddEvent_inl t e typ pc)) !! (e mod kTraceSize)
    = Some (mkEvent typ pc)
  /\ mkEvent typ pc
     = Z.lor (Z.shiftl (EventType_code typ) 61) (Z.land pc (Z.ones 61))
  /\ Event_typ (mkEvent typ pc) = EventType_code typ
  /\ Event_pc (mkEvent typ pc) = pc mod 2 ^ 48.
Proof.
  intros Hpc. repeat split.
  - apply TraceAddEvent_stored.
  - apply TraceAddEvent_stored.
  - now apply mkEvent_packed.
  - now apply Event_typ_mkEvent.
  - apply Event_pc_mkEvent.
Qed.

End EventCodec.

Section MutexProps.
Context `{Config}.

Lemma MutexUnlock_unknown w p t pc addr :
  tls w !! p = Some t ->
  synctab (ctx w) !! addr = None ->
  exists w', MutexUnlock p pc addr w = (w', Fatal)
  /\ tls w' = <[p := after_event t EventTypeUnlock addr]> (tls w)
  /\ ctx w' = ctx w
  /\ last (out w') = Some (OutFatal "s && s->type == SyncVar::Mtx").
Proof.
  intros Ht Hs. unfold MutexUnlock. debug_cases.
  all: eexists; split;
    [ repeat mstep; cbn [ctx set_tls add_out];
      rewrite Hs; cbn [is_Mtx]; erewrite bind_Fatal by reflexivity; reflexivity
    | cbn; repeat split; apply last_snoc ].
Qed.

(** C7 (amended). [MutexUnlock] on an address for which no sync object is
    known does not warn and return: it fails its CHECK and is fatal, after
    it has incremented the thread's epoch and traced the Unlock event;
    the registry and the sync table are as before. *)
Theorem MutexUnlock_unknown_is_fatal w p t pc addr :
  tls w !! p = Some t ->
  synctab (ctx w) !! addr = None ->
  let r := MutexUnlock p pc addr w in
  snd r = Fatal
  /\ tls (fst r) = <[p := after_event t EventTypeUnlock addr]> (tls w)
  /\ ctx (fst r) = ctx w
  /\ last (out (fst r)) = Some (OutFatal "s && s->type == SyncVar::Mtx").
Proof.
  intros Ht Hs.
  use_result (MutexUnlock_unknown w p t pc addr Ht Hs). now split.
Qed.

End MutexProps.
Section RegistryProps.
Context `{Config}.

Lemma zlookup_lt {A} (l : list A) i :
  0 <= i < Z.of_nat (length l) -> exists x, zlookup l i = Some x.
Proof.
  intros Hi. unfold zlookup.
  destruct (i <? 0) eqn:E; [lia|].
  apply lookup_lt_is_Some. lia.
Qed.

Lemma zlookup_elem {A} (l : list A) i x : zlookup l i = Some x -> x ∈ l.
Proof.
  unfold zlookup. destruct (i <? 0); [discriminate|].
  intros E. eapply list_elem_of_lookup_2; eauto.
Qed.

Lemma zlookup_zinsert_eq {A} (l : list A) i x y :
  zlookup l i = Some y -> zlookup (zinsert i x l) i = Some x.
Proof.
  unfold zlookup, zinsert. destruct (i <? 0); [discriminate|].
  intros E. apply list_lookup_insert_eq. eapply lookup_lt_Some; eauto.
Qed.

Lemma zlookup_zinsert_ne {A} (l : list A) i j x :
  0 <= i -> 0 <= j -> i <> j -> zlookup (zinsert i x l) j = zlookup l j.
Proof.
  intros Hi Hj Hne. unfold zlookup, zinsert.
  destruct (j <? 0); [reflexivity|].
  apply list_lookup_insert_ne. lia.
Qed.

Lemma zlookup_nonneg {A} (l : list A) i x : zlookup l i = Some x -> 0 <= i.
Proof. unfold zlookup. destruct (i <? 0) eqn:E; [discriminate|lia]. Qed.

(** The search loop of [ThreadJoin] finds nothing when no context in its
    range passes the test. *)
Lemma ThreadJoin_find_None uid0 n : forall tid w,
  0 <= tid ->
  tid + Z.of_nat n <= Z.of_nat (length (threads (ctx w))) ->
  (forall c, c ∈ threads (ctx w) -> join_match uid0 c = false) ->
  ThreadJoin_find n tid uid0 w = (w, Ret None).
Proof.
  induction n as [|n IH]; intros tid w H0 Hlen Hno; [reflexivity|].
  cbn [ThreadJoin_find].
  destruct (zlookup_lt (threads (ctx w)) tid) as [c Hc]; [lia|].
  step_with (thread_at_Some _ _ _ Hc).
  pose proof (Hno c (zlookup_elem _ _ _ Hc)) as Hm.
  unfold join_match in Hm. rewrite Hm.
  apply IH; [lia|lia|exact Hno].
Qed.

(** It stops at the first context that passes the test. *)
Lemma ThreadJoin_find_Some uid0 k c n : forall tid w,
  0 <= tid <= k -> k < tid + Z.of_nat n ->
  zlookup (threads (ctx w)) k = Some c ->
  join_match uid0 c = true ->
  (forall j c', tid <= j < k -> zlookup (threads (ctx w)) j = Some c' ->
                join_match uid0 c' = false) ->
  ThreadJoin_find n tid uid0 w = (w, Ret (Some k)).
Proof.
  induction n as [|n IH]; intros tid w Hk Hn Hc Hm Hbefore; [lia|].
  cbn [ThreadJoin_find].
  destruct (Z.eq_dec tid k) as [->|Hne].
  - step_with (thread_at_Some _ _ _ Hc).
    unfold join_match in Hm. now rewrite Hm.
  - assert (Hlt : 0 <= tid < Z.of_nat (length (threads (ctx w)))).
    { unfold zlookup in Hc. destruct (k <? 0); [discriminate|].
      apply lookup_lt_Some in Hc. lia. }
    destruct (zlookup_lt _ _ Hlt) as [c' Hc'].
    step_with (thread_at_Some _ _ _ Hc').
    pose proof (Hbefore tid c' ltac:(lia) Hc') as Hm'.
    unfold join_match in Hm'. rewrite Hm'.
    apply IH; try lia; try assumption.
    intros j c'' Hj. apply Hbefore. lia.
Qed.

Lemma ThreadJoin_find_target w uid0 tid c :
  Z.of_nat (length (threads (ctx w))) = kMaxTid ->
  join_target (threads (ctx w)) uid0 tid c ->
  ThreadJoin_find (Z.to_nat kMaxTid) 0 uid0 w = (w, Ret (Some tid)).
Proof.
  intros Hlen (Hc & Hm & Hfirst).
  pose proof (zlookup_nonneg _ _ _ Hc) as Hnn.
  apply (ThreadJoin_find_Some uid0 tid c); try assumption; try lia.
  unfold zlookup in Hc. destruct (tid <? 0); [discriminate|].
  apply lookup_lt_Some in Hc. lia.
Qed.

Lemma ThreadJoin_no_match w p t uid0 :
  tls w !! p = Some t ->
  Z.of_nat (length (threads (ctx w))) = kMaxTid ->
  (forall c, c ∈ threads (ctx w) -> join_match uid0 c = false) ->
  exists w', ThreadJoin p uid0 w = (w', Ret tt)
  /\ (same_state w w'
      /\ last (out w')
         = Some (OutPrintf "ThreadSanitizer: join of non-existent thread\n" [])).
Proof.
  intros Ht Hlen Hno. unfold ThreadJoin. debug_cases.
  all: eexists; split;
    [ repeat mstep;
      erewrite bind_Ret by (apply ThreadJoin_find_None; cbn; [lia|lia|exact Hno]);
      reflexivity
    | cbn; repeat split; apply last_snoc ].
Qed.

Lemma ThreadJoin_not_joinable w p t uid0 tid c :
  tls w !! p = Some t ->
  Z.of_nat (length (threads (ctx w))) = kMaxTid ->
  join_target (threads (ctx w)) uid0 tid c ->
  detached c = true \/ status c <> ThreadStatusFinished ->
  snd (ThreadJoin p uid0 w) = Fatal.
Proof.
  intros Ht Hlen Htgt Hbad.
  pose proof Htgt as (Hc & Hm & _).
  unfold join_match in Hm. apply andb_true_iff in Hm as [_ Hs].
  apply negb_true_iff in Hs.
  unfold ThreadJoin. debug_cases.
  all: repeat mstep;
    erewrite bind_Ret by (eapply ThreadJoin_find_target; cbn; eassumption);
    cbv beta iota; mstep; rewrite Hs;
    (destruct (detached c) eqn:Ed; [reflexivity|]);
    cbn [negb]; mstep;
    (destruct Hbad as [?|Hst]; [discriminate|]);
    destruct (status c); try reflexivity; now destruct Hst.
Qed.

Lemma ThreadJoin_finished w p t uid0 tid c :
  tls w !! p = Some t ->
  Z.of_nat (length (threads (ctx w))) = kMaxTid ->
  join_target (threads (ctx w)) uid0 tid c ->
  detached c = false -> status c = ThreadStatusFinished ->
  exists w', ThreadJoin p uid0 w = (w', Ret tt)
  /\ (tls w' = <[p := set_clock t (clock_acquire (clock t) (sync c))]> (tls w)
      /\ threads (ctx w')
         = zinsert tid (mkThreadContext (thr c) ThreadStatusInvalid 0 false ∅)
                   (threads (ctx w))
      /\ synctab (ctx w') = synctab (ctx w)
      /\ thread_seq (ctx w') = thread_seq (ctx w)
      /\ shadow w' = shadow w).
Proof.
  intros Ht Hlen Htgt Hd Hst.
  pose proof Htgt as (Hc & _ & _).
  unfold ThreadJoin, ThreadFree. debug_cases.
  all: eexists; split;
    [ repeat mstep;
      erewrite bind_Ret by (eapply ThreadJoin_find_target; cbn; eassumption);
      cbv beta iota;
      repeat (first [ mstep
                    | progress (rewrite ?Hst, ?Hd; cbn [status_eqb negb orb]) ]);
      reflexivity
    | cbn; unfold set_sync, set_uid, set_status, clock_Free; cbn;
      rewrite Hd; repeat split ].
Qed.

(** C5 (amended). [ThreadJoin] with a uid that matches no registered thread
    prints a warning and returns with the registry, the thread states and
    the shadow unchanged; it is not fatal. When the target exists, the
    caller never blocks: a target that is detached or not yet Finished
    (still Running, say) fails a CHECK and is fatal; for a Finished,
    joinable target the caller acquires the target's sync clock and the
    target is freed (status Invalid, uid 0, sync clock emptied). *)
Theorem ThreadJoin_outcomes w p t uid0 :
  tls w !! p = Some t ->
  Z.of_nat (length (threads (ctx w))) = kMaxTid ->
  let r := ThreadJoin p uid0 w in
  ((forall c, c ∈ threads (ctx w) -> join_match uid0 c = false) ->
     snd r = Ret tt /\ same_state w (fst r)
     /\ last (out (fst r))
        = Some (OutPrintf "ThreadSanitizer: join of non-existent thread\n" []))
  /\ (forall tid c, join_target (threads (ctx w)) uid0 tid c ->
        (detached c = true \/ status c <> ThreadStatusFinished ->
           snd r = Fatal)
        /\ (detached c = false -> status c = ThreadStatusFinished ->
              snd r = Ret tt
              /\ tls (fst r)
                 = <[p := set_clock t (clock_acquire (clock t) (sync c))]> (tls w)
              /\ threads (ctx (fst r))
                 = zinsert tid (mkThreadContext (thr c) ThreadStatusInvalid 0 false ∅)
                           (threads (ctx w))
              /\ synctab (ctx (fst r)) = synctab (ctx w)
              /\ thread_seq (ctx (fst r)) = thread_seq (ctx w)
              /\ shadow (fst r) = shadow w)).
Proof.
  intros Ht Hlen r. subst r. split.
  - intros Hno.
    use_result (ThreadJoin_no_match w p t uid0 Ht Hlen Hno). now split.
  - intros tid c Htgt. split.
    + intros Hbad. exact (ThreadJoin_not_joinable w p t uid0 tid c Ht Hlen Htgt Hbad).
    + intros Hd Hst.
      use_result (ThreadJoin_finished w p t uid0 tid c Ht Hlen Htgt Hd Hst).
      now split.
Qed.

End RegistryProps.
Section ClockProps.

Lemma clock_get_set c tid e : clock_get (clock_set c tid e) tid = e.
Proof. unfold clock_get, clock_set. now rewrite lookup_insert_eq. Qed.

Lemma clock_get_set_ne c tid e k :
  tid <> k -> clock_get (clock_set c tid e) k = clock_get c k.
Proof. intros Hne. unfold clock_get, clock_set. now rewrite lookup_insert_ne. Qed.

(** A component present in both clocks joins to the maximum; one present
    on one side only is kept. *)
Lemma clock_get_join a b k :
  clock_get (clock_join a b) k
  = match a !! k, b !! k with
    | Some x, Some y => Z.max x y
    | Some x, None => x
    | None, Some y => y
    | None, None => 0
    end.
Proof.
  unfold clock_get, clock_join. rewrite lookup_union_with.
  destruct (a !! k), (b !! k); reflexivity.
Qed.

(** Releasing a clock leaves the target at least as large in every
    component the releasing clock holds. *)
Lemma clock_release_ge c dst k x :
  c !! k = Some x -> x <= clock_get (clock_release c dst) k.
Proof.
  intros E. unfold clock_release. rewrite clock_get_join, E.
  destruct (dst !! k); lia.
Qed.

Lemma clock_acquire_ge c src k x :
  src !! k = Some x -> x <= clock_get (clock_acquire c src) k.
Proof.
  intros E. unfold clock_acquire. rewrite clock_get_join, E.
  destruct (c !! k); lia.
Qed.

End ClockProps.

Section CreateProps.
Context `{Config}.

(** The thread state a release-side operation stores: own clock component
    set to the current epoch, [fast_synch_epoch] advanced to it. *)
Lemma released_fields t :
  fast_synch_epoch (released t) = fast_epoch t
  /\ fast_epoch (released t) = fast_epoch t
  /\ fast_tid (released t) = fast_tid t
  /\ clock_get (clock (released t)) (fast_tid t) = fast_epoch t.
Proof. unfold released. cbn. repeat split. apply clock_get_set. Qed.

Lemma ThreadCreate_taken w p t uid0 det c :
  tls w !! p = Some t ->
  zlookup (threads (ctx w)) (thread_seq (ctx w)) = Some c ->
  status c <> ThreadStatusInvalid ->
  snd (ThreadCreate p uid0 det w) = Fatal.
Proof.
  intros Ht Hc Hs. unfold ThreadCreate. debug_cases.
  all: repeat mstep.
  all: destruct (status c); try reflexivity; now destruct Hs.
Qed.

Lemma ThreadCreate_first w p uid0 det c :
  thread_seq (ctx w) = 0 ->
  zlookup (threads (ctx w)) 0 = Some c ->
  status c = ThreadStatusInvalid ->
  TSAN_DEBUG = false ->
  exists w', ThreadCreate p uid0 det w = (w', Ret 0)
  /\ (thread_seq (ctx w') = 1
      /\ tls w' = tls w
      /\ threads (ctx w')
         = zinsert 0 (mkThreadContext None ThreadStatusCreated uid0 det (sync c))
                   (threads (ctx w))).
Proof.
  intros Hseq Hc Hs Hd. unfold ThreadCreate, DPrintf. rewrite Hd.
  eexists; split.
  - repeat mstep. rewrite Hseq. cbn [set_thread_seq ctx threads set_ctx].
    repeat mstep. rewrite Hs. cbn [status_eqb]. repeat mstep. reflexivity.
  - cbn. repeat split.
Qed.

Lemma ThreadCreate_next w p t uid0 det c :
  tls w !! p = Some t ->
  thread_seq (ctx w) <> 0 ->
  zlookup (threads (ctx w)) (thread_seq (ctx w)) = Some c ->
  status c = ThreadStatusInvalid ->
  exists w', ThreadCreate p uid0 det w = (w', Ret (thread_seq (ctx w)))
  /\ (thread_seq (ctx w') = thread_seq (ctx w) + 1
      /\ tls w' = <[p := released t]> (tls w)
      /\ threads (ctx w')
         = zinsert (thread_seq (ctx w))
             (mkThreadContext None ThreadStatusCreated uid0 det
                (clock_release (clock (released t)) (sync c)))
             (threads (ctx w))
      /\ synctab (ctx w') = synctab (ctx w)
      /\ shadow w' = shadow w).
Proof.
  intros Ht Hseq Hc Hs. unfold ThreadCreate. debug_cases.
  all: eexists; split;
    [ repeat mstep; rewrite Hs; cbn [status_eqb]; repeat mstep;
      rewrite (proj2 (Z.eqb_neq _ _) Hseq); repeat mstep; reflexivity
    | cbn; unfold zinsert; rewrite list_insert_insert_eq; repeat split ].
Qed.

(** C6 (amended). [ThreadCreate] takes the next tid in sequence,
    [ctx->thread_seq], post-incrementing the counter; it does not look for
    the smallest Invalid slot. It is fatal when the slot of that tid is
    not Invalid. When the new tid is nonzero -- whatever the tid of the
    creating thread, thread 0 included -- the creating thread sets its
    own clock component to its current epoch, sets [fast_synch_epoch] to
    that epoch and releases its clock into the new context's sync clock,
    which is then at least the creating thread's epoch in the creating
    thread's component: the creation happens-before edge. *)
Theorem ThreadCreate_sequential w p t uid0 det c :
  tls w !! p = Some t ->
  zlookup (threads (ctx w)) (thread_seq (ctx w)) = Some c ->
  let r := ThreadCreate p uid0 det w in
  (status c <> ThreadStatusInvalid -> snd r = Fatal)
  /\ (status c = ThreadStatusInvalid -> thread_seq (ctx w) <> 0 ->
      snd r = Ret (thread_seq (ctx w))
      /\ thread_seq (ctx (fst r)) = thread_seq (ctx w) + 1
      /\ tls (fst r) = <[p := released t]> (tls w)
      /\ threads (ctx (fst r))
         = zinsert (thread_seq (ctx w))
             (mkThreadContext None ThreadStatusCreated uid0 det
                (clock_release (clock (released t)) (sync c)))
             (threads (ctx w))
      /\ fast_synch_epoch (released t) = fast_epoch t
      /\ clock_get (clock (released t)) (fast_tid t) = fast_epoch t
      /\ fast_epoch t
         <= clock_get (clock_release (clock (released t)) (sync c)) (fast_tid t)).
Proof.
  intros Ht Hc r. subst r. split.
  - intros Hs. exact (ThreadCreate_taken w p t uid0 det c Ht Hc Hs).
  - intros Hs Hseq.
    use_result (ThreadCreate_next w p t uid0 det c Ht Hseq Hc Hs).
    destruct H0 as (A & B & C & _).
    pose proof (released_fields t) as (F1 & _ & _ & F2).
    repeat split; try assumption.
    apply clock_release_ge. unfold released. cbn. apply lookup_insert_eq.
Qed.

End CreateProps.
Section WP.
Context `{Config}.

Lemma wp_bind {A B} (m : M A) (k : A -> M B) Q E w :
  wp (bind m k) Q E w = wp m (fun a w' => wp (k a) Q E w') E w.
Proof. unfold wp, bind. destruct (m w) as [w' [a| |]]; reflexivity. Qed.

Lemma wp_fst {A} (m : M A) (G : World -> Prop) w :
  wp m (fun _ => G) G w -> G (fst (m w)).
Proof. unfold wp. destruct (m w) as [w' [a| |]]; auto. Qed.

Lemma wp_mono {A} (m : M A) (Q Q' : A -> World -> Prop) (E E' : World -> Prop) w :
  (forall a w', Q a w' -> Q' a w') -> (forall w', E w' -> E' w') ->
  wp m Q E w -> wp m Q' E' w.
Proof. unfold wp. destruct (m w) as [w' [a| |]]; auto. Qed.

(** An action that returns without touching the world. *)
Lemma wp_pure {A} (m : M A) Q E w :
  (forall w0, fst (m w0) = w0) ->
  (forall a, Q a w) -> E w -> wp m Q E w.
Proof.
  intros Hp HQ HE. unfold wp. specialize (Hp w).
  destruct (m w) as [w' [a| |]]; cbn in Hp; subst; auto.
Qed.

Lemma wp_Ret {A} (m : M A) Q E w w' a :
  m w = (w', Ret a) -> Q a w' -> wp m Q E w.
Proof. intros E1 HQ. unfold wp. now rewrite E1. Qed.

Lemma wp_Fatal {A} (m : M A) Q E w w' :
  m w = (w', Fatal) -> E w' -> wp m Q E w.
Proof. intros E1 HQ. unfold wp. now rewrite E1. Qed.

Lemma wp_Undefined {A} (m : M A) Q E w w' :
  m w = (w', Undefined) -> E w' -> wp m Q E w.
Proof. intros E1 HQ. unfold wp. now rewrite E1. Qed.

Lemma wp_load_thr p Q E w :
  match tls w !! p with Some t => Q t w | None => E w end ->
  wp (load_thr p) Q E w.
Proof. unfold wp, load_thr. now destruct (tls w !! p). Qed.

Lemma wp_thread_at tid Q E w :
  match zlookup (threads (ctx w)) tid with Some c => Q c w | None => E w end ->
  wp (thread_at tid) Q E w.
Proof. unfold wp, thread_at. now destruct (zlookup _ _). Qed.

Lemma ThreadJoin_find_pure uid0 n : forall tid w,
  fst (ThreadJoin_find n tid uid0 w) = w.
Proof.
  induction n as [|n IH]; intros tid w; [reflexivity|].
  cbn [ThreadJoin_find]. unfold bind, thread_at.
  destruct (zlookup _ _); [|reflexivity].
  destruct (_ && _); [reflexivity|]. apply IH.
Qed.

Lemma ThreadDetach_find_pure uid0 n : forall tid w,
  fst (ThreadDetach_find n tid uid0 w) = w.
Proof.
  induction n as [|n IH]; intros tid w; [reflexivity|].
  cbn [ThreadDetach_find]. unfold bind, thread_at.
  destruct (zlookup _ _); [|reflexivity].
  destruct (_ =? _); [reflexivity|]. apply IH.
Qed.

Lemma wp_keeps_tls {A} (m : M A) Q E w :
  keeps_tls m ->
  (forall a w', tls w' = tls w -> Q a w') ->
  (forall w', tls w' = tls w -> E w') ->
  wp m Q E w.
Proof.
  intros Hk HQ HE. unfold wp. specialize (Hk w).
  destruct (m w) as [w' [a| |]]; cbn in Hk; auto.
Qed.

Lemma ReportRace_entries_keeps_tls n : forall i stack pos,
  keeps_tls (ReportRace_entries n i stack pos).
Proof.
  induction n as [|n IH]; intros i stack pos w; [reflexivity|].
  cbn [ReportRace_entries]. destruct (stack_read stack i); [|reflexivity].
  unfold alloc, bind, CHECK, CheckFailed, ret.
  destruct (_ <=? _); [|reflexivity].
  destruct (_ <=? _); [|reflexivity].
  specialize (IH (i + 1) stack (pos + 1024 * 1 + 1024 * 1) w).
  destruct (ReportRace_entries _ _ _ _ _) as [w' [a| |]]; exact IH.
Qed.

End WP.

(** Symbolic execution of an entry point, one action at a time, splitting
    on what the code tests. *)
Ltac world_simpl :=
  cbn [fst snd tls ctx shadow out races initialized set_tls set_ctx
       set_shadow add_out add_race set_initialized];
  rewrite ?lookup_insert_eq.

Ltac hyps_simpl :=
  repeat match goal with
         | H : tls _ = tls _ |- _ =>
             progress cbn [fst snd tls ctx shadow out races initialized
                           set_tls set_ctx set_shadow add_out add_race
                           set_initialized] in H
         end.

Ltac split_match :=
  lazymatch goal with
  | |- match ?x with _ => _ end => destruct x eqn:?
  | |- _ => idtac
  end.

Ltac wp_step :=
  lazymatch goal with
  | |- wp (bind _ _) _ _ _ => rewrite wp_bind
  | |- wp (DPrintf _) _ _ _ => unfold DPrintf at 1; destruct TSAN_DEBUG eqn:?
  | |- wp (CHECK ?b _) _ _ _ => unfold CHECK at 1; destruct b eqn:?
  | |- wp (if ?b then _ else _) _ _ _ => destruct b eqn:?
  | |- wp (match ?x with _ => _ end) _ _ _ => destruct x eqn:?
  | |- wp (load_thr _) _ _ _ => apply wp_load_thr; world_simpl; split_match
  | |- wp (thread_at _) _ _ _ => apply wp_thread_at; world_simpl; split_match
  | |- wp (ThreadJoin_find _ _ _) _ _ _ =>
      apply wp_pure; [apply ThreadJoin_find_pure | intros ? | ]
  | |- wp (ThreadDetach_find _ _ _) _ _ _ =>
      apply wp_pure; [apply ThreadDetach_find_pure | intros ? | ]
  | |- wp (ReportRace_entries _ _ _ _) _ _ ?w =>
      apply wp_keeps_tls; [apply ReportRace_entries_keeps_tls | intros ? ? ? | intros ? ?]
  | |- wp _ _ _ _ =>
      first [ eapply wp_Ret; [reflexivity|]
            | eapply wp_Fatal; [reflexivity|]
            | eapply wp_Undefined; [reflexivity|] ]
  end;
  cbv beta iota.


Section FrameProps.
Context `{Config}.

Lemma StatInc_fields t typ :
  fast_tid (StatInc t typ) = fast_tid t
  /\ fast_epoch (StatInc t typ) = fast_epoch t
  /\ fast_synch_epoch (StatInc t typ) = fast_synch_epoch t
  /\ clock (StatInc t typ) = clock t
  /\ trace (StatInc t typ) = trace t.
Proof. unfold StatInc. now destruct kCollectStats. Qed.

Lemma fse_TraceAddEvent t e typ addr :
  fast_synch_epoch (TraceAddEvent t e typ addr) = fast_synch_epoch t.
Proof. apply TraceAddEvent_fields. Qed.

Lemma fse_StatInc t typ :
  fast_synch_epoch (StatInc t typ) = fast_synch_epoch t.
Proof. apply StatInc_fields. Qed.

Lemma epoch_TraceAddEvent t e typ addr :
  fast_epoch (TraceAddEvent t e typ addr) = fast_epoch t.
Proof. apply TraceAddEvent_fields. Qed.

(** [RestoreStack] and [ReportRace] leave the thread states alone. *)
Lemma ReportRace_keeps_tls thr addr s0 s1 : keeps_tls (ReportRace thr addr s0 s1).
Proof.
  intros w.
  apply (wp_fst _ (fun w' => tls w' = tls w)).
  unfold ReportRace, ReportRace_mop, RestoreStack, alloc.
  repeat (wp_step; world_simpl; hyps_simpl; try congruence).
Qed.

End FrameProps.
Opaque TraceAddEvent StatInc.

Ltac state_simpl :=
  repeat (rewrite ?fse_TraceAddEvent, ?fse_StatInc, ?epoch_TraceAddEvent;
          cbn [fast_synch_epoch fast_epoch fast_tid clock set_clock
               set_fast_epoch set_fast_synch_epoch set_stat set_trace]).



Ltac fse_or_done :=
  unfold fse_is, fse_or in *; world_simpl;
  repeat match goal with H : tls ?w' = _ |- context [tls ?w'] => rewrite H end;
  intros ?t; rewrite ?insert_insert_eq;
  first
    [ solve [left; eauto]
    | rewrite lookup_insert; case_decide;
      [ intros [= <-]; subst; state_simpl;
        first [ solve [left; eauto]
              | right; repeat split;
                solve [ eauto | reflexivity | apply Z.eqb_neq; assumption ] ]
      | solve [left; eauto] ] ].

Ltac fse_or_exec :=
  repeat (wp_step; world_simpl; hyps_simpl); try fse_or_done.

Section FseProps.
Context `{Config}.











Lemma ThreadFinish_fse p q e w :
  fse_is q e w ->
  fse_or q e (fun t' => p = q /\ fast_synch_epoch t' = fast_epoch t')
         (fst (ThreadFinish p w)).
Proof.
  intros J. apply (wp_fst _ (fse_or q e _)). unfold ThreadFinish, ThreadFree.
  fse_or_exec.
Qed.



End FseProps.

Transparent TraceAddEvent StatInc.
Opaque TraceAddEvent StatInc.

Section SynchEpoch.
Context `{Config}.



Lemma acquired_after_event t typ addr src :
  let t' := acquired (after_event t typ addr) src in
  fast_epoch t' = epoch_inc (fast_epoch t)
  /\ clock t' = clock_acquire (clock_set (clock t) (fast_tid t)
                                         (epoch_inc (fast_epoch t))) src
  /\ fast_synch_epoch t' = fast_synch_epoch t.
Proof.
  unfold acquired. cbn.
  rewrite after_event_epoch, after_event_clock, after_event_tid, after_event_fse.
  repeat split.
Qed.





End SynchEpoch.

Transparent TraceAddEvent StatInc.
Section ScanProps.
Context `{Config}.

Variables (t : ThreadState) (fs : Z * Z) (se s0 base off : Z) (wr : bool).

(** [MemoryAccess1] stores at most once: the descriptor when nothing was
    stored before, zero otherwise. *)
Lemma MemoryAccess1_store sp sh repl racy :
  let r := MemoryAccess1 t fs se s0 sp wr (sh, repl, racy) in
  (fst (fst (snd r)) = sh /\ snd (fst (snd r)) = repl)
  \/ (fst (fst (snd r)) = StoreShadow sh sp (if repl then 0 else s0)
      /\ snd (fst (snd r)) = true).
Proof.
  unfold MemoryAccess1. cbv zeta. destruct repl; cbn [negb].
  all: repeat match goal with
         | |- context [if ?b then _ else _] => destruct b eqn:?
         end; cbn [fst snd]; auto.
Qed.

(** It returns true exactly on a slot that summarizes the access, and
    replaces the racy access exactly on a racy slot. *)
Lemma MemoryAccess1_classify sp sh repl racy :
  let s := LoadShadow sh sp in
  let r := MemoryAccess1 t fs se s0 sp wr (sh, repl, racy) in
  fst r = slot_same (fst fs) se s0 wr s
  /\ snd (snd r) = if slot_racy (clock t) (fst fs) s0 wr s then s else racy.
Proof.
  unfold MemoryAccess1, slot_same, slot_racy, ranges_overlap. cbv zeta.
  set (s := LoadShadow sh sp).
  destruct (s =? 0) eqn:E0; cbn [negb andb].
  { destruct (negb repl); split; reflexivity. }
  destruct ((Shadow_addr0 s0 =? Shadow_addr0 s) && (Shadow_addr1 s0 =? Shadow_addr1 s)) eqn:Eeq;
    cbn [andb orb].
  - destruct (Shadow_tid s =? fst fs) eqn:Et; cbn [andb negb].
    + destruct (Shadow_epoch s >=? se); cbn [andb].
      * destruct (Shadow_write s || negb wr); split; reflexivity.
      * destruct (negb (Shadow_write s) || wr); split; reflexivity.
    + assert (Hge : forall a b, (a >=? b) = negb (a <? b)).
      { intros a b. rewrite Z.geb_leb, Z.ltb_antisym. now rewrite negb_involutive. }
      rewrite Hge.
      destruct (clock_get (clock t) (Shadow_tid s) <? Shadow_epoch s);
        cbn [negb andb]; [|split; reflexivity].
      destruct (Shadow_write s), wr; split; reflexivity.
  - destruct (Z.min (Shadow_addr1 s0) (Shadow_addr1 s)
              >=? Z.max (Shadow_addr0 s0) (Shadow_addr0 s)); cbn [andb];
      [|rewrite andb_false_r; split; reflexivity].
    destruct (Shadow_tid s =? fst fs) eqn:Et; cbn [andb negb];
      [split; reflexivity|].
    assert (Hge : forall a b, (a >=? b) = negb (a <? b)).
    { intros a b. rewrite Z.geb_leb, Z.ltb_antisym. now rewrite negb_involutive. }
    rewrite Hge.
    destruct (clock_get (clock t) (Shadow_tid s) <? Shadow_epoch s);
      cbn [negb andb]; [|split; reflexivity].
    destruct (Shadow_write s), wr; split; reflexivity.
Qed.

Lemma Load_Store sh sp v p :
  LoadShadow (StoreShadow sh sp v) p = if decide (sp = p) then v else LoadShadow sh p.
Proof.
  unfold LoadShadow, StoreShadow. rewrite lookup_insert.
  now destruct (decide (sp = p)).
Qed.

Lemma store_rel_refl sh repl : store_rel base s0 sh repl sh repl.
Proof.
  split; [auto|]. split; [intros p Hp; now destruct Hp|].
  destruct repl; [auto|]. exists 0. auto.
Qed.

Lemma store_rel_trans sh1 r1 sh2 r2 sh3 r3 :
  store_rel base s0 sh1 r1 sh2 r2 -> store_rel base s0 sh2 r2 sh3 r3 ->
  store_rel base s0 sh1 r1 sh3 r3.
Proof.
  intros (A1 & A2 & A3) (B1 & B2 & B3). split; [|split].
  - intros E. destruct (B1 E) as [-> E2]. exact (A1 E2).
  - intros p Hp.
    destruct (Z.eq_dec (LoadShadow sh3 p) (LoadShadow sh2 p)) as [E|E].
    + rewrite E in *. exact (A2 p Hp).
    + exact (B2 p E).
  - destruct r1.
    + assert (r2 = true) as ->.
      { destruct r2; [reflexivity|]. now destruct (A1 eq_refl). }
      intros p. destruct (B3 p) as [E|E]; [|now right].
      rewrite E. apply A3.
    + destruct r2.
      * destruct A3 as [p0 A3]. exists p0. intros p Hp.
        destruct (B3 p) as [E|E]; [|now right]. rewrite E. now apply A3.
      * destruct (A1 eq_refl) as [-> _]. exact B3.
Qed.

Lemma store_rel_step sp sh repl racy :
  0 < kShadowCnt -> base <= sp < base + kShadowCnt ->
  let r := MemoryAccess1 t fs se s0 sp wr (sh, repl, racy) in
  store_rel base s0 sh repl (fst (fst (snd r))) (snd (fst (snd r))).
Proof.
  intros HK Hsp r.
  destruct (MemoryAccess1_store sp sh repl racy) as [[E1 E2]|[E1 E2]];
    fold r in E1, E2; rewrite E1, E2; [apply store_rel_refl|].
  split; [discriminate|]. split.
  - intros p. rewrite Load_Store. destruct (decide (sp = p)) as [<-|?].
    + intros _. split; [exact Hsp|]. destruct repl; auto.
    + intros Hp. now destruct Hp.
  - destruct repl.
    + intros p. rewrite Load_Store. destruct (decide (sp = p)); auto.
    + exists sp. intros p Hp. rewrite Load_Store.
      destruct (decide (sp = p)); [congruence|auto].
Qed.

(** The scan stores the descriptor at most once and otherwise only clears
    slots of the cell. *)
Lemma MemoryAccess_scan_store_rel n : forall i sh repl racy,
  0 < kShadowCnt ->
  let r := MemoryAccess_scan t fs se s0 base off wr n i (sh, repl, racy) in
  store_rel base s0 sh repl (fst (fst (snd r))) (snd (fst (snd r))).
Proof.
  induction n as [|n IH]; intros i sh repl racy HK; [apply store_rel_refl|].
  cbn [MemoryAccess_scan]. cbv zeta.
  assert (Hsp : base <= base + (i + off) mod kShadowCnt < base + kShadowCnt).
  { pose proof (Z.mod_pos_bound (i + off) kShadowCnt HK). lia. }
  pose proof (store_rel_step (base + (i + off) mod kShadowCnt) sh repl racy HK Hsp) as S.
  cbv zeta in S.
  destruct (MemoryAccess1 t fs se s0 (base + (i + off) mod kShadowCnt) wr (sh, repl, racy))
    as [d [[sh1 repl1] racy1]].
  cbn [fst snd] in *. destruct d; [exact S|].
  eapply store_rel_trans; [exact S|]. apply IH. exact HK.
Qed.

End ScanProps.
Section ReportFrame.
Context `{Config}.

Lemma ReportRace_entries_same n : forall i stack pos w,
  same_state w (fst (ReportRace_entries n i stack pos w)).
Proof.
  induction n as [|n IH]; intros i stack pos w; [apply same_state_refl|].
  cbn [ReportRace_entries]. destruct (stack_read stack i); [|apply same_state_refl].
  unfold alloc, bind, CHECK, CheckFailed, ret.
  destruct (_ <=? _); [|now repeat split].
  destruct (_ <=? _); [|now repeat split].
  specialize (IH (i + 1) stack (pos + 1024 * 1 + 1024 * 1) w).
  destruct (ReportRace_entries _ _ _ _ _) as [w' [a| |]]; exact IH.
Qed.

Lemma wp_same_state {A} (m : M A) Q E w :
  (forall w0, same_state w0 (fst (m w0))) ->
  (forall a w', same_state w w' -> Q a w') ->
  (forall w', same_state w w' -> E w') ->
  wp m Q E w.
Proof.
  intros Hk HQ HE. unfold wp. specialize (Hk w).
  destruct (m w) as [w' [a| |]]; cbn in Hk; auto.
Qed.

(** Apart from the report descriptor and what it prints, [ReportRace]
    changes nothing but the record of its calls, to which it adds its
    own. *)
Lemma ReportRace_frame thr addr s0 s1 w :
  report_frame w (fst (ReportRace thr addr s0 s1 w))
  /\ races (fst (ReportRace thr addr s0 s1 w)) = races w ++ [(addr, s0, s1)].
Proof.
  apply (wp_fst _ (fun w' => report_frame w w'
                             /\ races w' = races w ++ [(addr, s0, s1)])).
  unfold ReportRace, ReportRace_mop, RestoreStack, alloc.
  repeat (lazymatch goal with
          | |- wp (ReportRace_entries _ _ _ _) _ _ _ =>
              apply wp_same_state;
              [ intros ?; apply ReportRace_entries_same
              | intros ? ? (? & ? & ? & ? & ?) | intros ? (? & ? & ? & ? & ?) ]
          | |- wp _ _ _ _ => wp_step
          end; world_simpl).
  all: unfold report_frame;
    cbn [fst snd tls ctx shadow out races initialized set_tls set_ctx
         set_shadow add_out add_race set_initialized set_rep synctab
         thread_seq threads] in *;
    repeat split; congruence.
Qed.

Lemma ReportRace_keeps_shadow thr addr s0 s1 :
  keeps_shadow (ReportRace thr addr s0 s1).
Proof. intros w. apply ReportRace_frame. Qed.

End ReportFrame.
Opaque TraceAddEvent StatInc.

Section AccessProps.
Context `{Config}.

Lemma wp_ReportRace thr addr s0 s1 Q E w :
  (forall w', report_frame w w' ->
              races w' = races w ++ [(addr, s0, s1)] -> Q tt w') ->
  (forall w', report_frame w w' ->
              races w' = races w ++ [(addr, s0, s1)] -> E w') ->
  wp (ReportRace thr addr s0 s1) Q E w.
Proof.
  intros HQ HE. pose proof (ReportRace_frame thr addr s0 s1 w) as [F R].
  unfold wp. destruct (ReportRace thr addr s0 s1 w) as [w' [[]| |]];
    cbn [fst] in F, R; auto.
Qed.

(** What [MemoryAccess] leaves behind, in terms of its scan. The fallback
    store is not reached when [ReportRace] did not return. *)
Lemma MemoryAccess_result w thr t pc addr size wr :
  tls w !! thr = Some t ->
  let r := access_scan t pc addr size wr (shadow w) in
  let s0 := access_desc t addr size wr in
  let w' := fst (MemoryAccess thr pc addr size wr w) in
  tls w' = <[thr := access_state t pc]> (tls w)
  /\ (shadow w' = fst (fst (snd r))
      \/ (fst r = false /\ snd (fst (snd r)) = false
          /\ shadow w' = StoreShadow (fst (fst (snd r))) (access_fallback t addr) s0))
  /\ races w'
     = (if fst r || (snd (snd r) =? 0) then races w
        else races w ++ [(addr, s0, snd (snd r))]).
Proof.
  intros Ht. cbv zeta.
  apply (wp_fst _ (fun w' =>
    tls w' = <[thr := access_state t pc]> (tls w)
    /\ (shadow w' = fst (fst (snd (access_scan t pc addr size wr (shadow w))))
        \/ (fst (access_scan t pc addr size wr (shadow w)) = false
            /\ snd (fst (snd (access_scan t pc addr size wr (shadow w)))) = false
            /\ shadow w'
               = StoreShadow (fst (fst (snd (access_scan t pc addr size wr (shadow w)))))
                             (access_fallback t addr) (access_desc t addr size wr)))
    /\ races w'
       = (if fst (access_scan t pc addr size wr (shadow w))
             || (snd (snd (access_scan t pc addr size wr (shadow w))) =? 0)
          then races w
          else races w ++ [(addr, access_desc t addr size wr,
                            snd (snd (access_scan t pc addr size wr (shadow w))))]))).
  unfold MemoryAccess, access_scan, access_fallback, access_desc, access_state.
  repeat (lazymatch goal with
          | |- wp (ReportRace _ _ _ _) _ _ _ =>
              apply wp_ReportRace; intros ? (? & ? & ? & _) ?
          | |- wp _ _ _ _ => wp_step
          end; world_simpl).
  all: try congruence.
  all: try match goal with Hx : Some _ = Some _ |- _ => injection Hx as <- end.
  all: repeat match goal with
         | Hx : _ = true |- _ => rewrite Hx
         | Hx : negb _ = true |- _ => apply negb_true_iff in Hx
         | Hx : negb _ = false |- _ => apply negb_false_iff in Hx
         end; cbn [orb negb];
       cbn [fst snd tls ctx shadow out races initialized set_tls set_ctx
            set_shadow add_out add_race set_initialized] in *.
  all: repeat match goal with
         | Hx : _ = false |- context [if ?b || _ then _ else _] => rewrite Hx
         | Hx : (_ =? 0) = _ |- context [if _ || ?b then _ else _] => rewrite Hx
         end; cbn [orb].
  all: split; [congruence|]; split; [|congruence].
  all: first [ left; congruence | right; repeat split; congruence ].
Qed.

End AccessProps.

Transparent TraceAddEvent StatInc.
Section ScanDecision.
Context `{Config}.

Variables (t : ThreadState) (fs : Z * Z) (se s0 base off : Z) (wr : bool).
Variable sh0 : gmap Z Z.

(** The slot the scan looks at in iteration [i]. *)
Let slot (i : Z) : Z := base + (i + off) mod kShadowCnt.

Lemma mod_shift_ne a d :
  0 < kShadowCnt -> 0 < d < kShadowCnt ->
  (a + d) mod kShadowCnt <> a mod kShadowCnt.
Proof.
  intros HK Hd E.
  assert (((a + d) - a) mod kShadowCnt = 0) as E0.
  { rewrite Zminus_mod, E, Z.sub_diag. now apply Z.mod_0_l, Z.neq_sym, Z.lt_neq. }
  replace (a + d - a) with d in E0 by lia.
  rewrite Z.mod_small in E0 by lia. lia.
Qed.

Lemma slot_ne i i' :
  0 < kShadowCnt -> i < i' < i + kShadowCnt -> slot i' <> slot i.
Proof.
  intros HK Hi. unfold slot. intros E.
  apply (mod_shift_ne (i + off) (i' - i) HK ltac:(lia)).
  replace (i + off + (i' - i)) with (i' + off) by lia. lia.
Qed.

(** One step of the scan keeps the slots it has yet to visit. *)
Lemma MemoryAccess1_keeps_later i sh repl racy p :
  p <> slot i ->
  LoadShadow (fst (fst (snd (MemoryAccess1 t fs se s0 (slot i) wr (sh, repl, racy))))) p
  = LoadShadow sh p.
Proof.
  intros Hp.
  destruct (MemoryAccess1_store t fs se s0 wr (slot i) sh repl racy) as [[E _]|[E _]];
    cbv zeta in E; rewrite E; [reflexivity|].
  rewrite Load_Store. destruct (decide (slot i = p)); congruence.
Qed.

(** With no summarizing slot ahead, the scan runs to its end, and the racy
    access it leaves is the last racy slot it met, if any. *)
Lemma MemoryAccess_scan_no_same n : forall i sh repl racy,
  0 < kShadowCnt -> 0 <= i -> i + Z.of_nat n <= kShadowCnt ->
  (forall i', i <= i' < i + Z.of_nat n ->
     LoadShadow sh (slot i') = LoadShadow sh0 (slot i')) ->
  (forall i', i <= i' < i + Z.of_nat n ->
     slot_same (fst fs) se s0 wr (LoadShadow sh0 (slot i')) = false) ->
  let r := MemoryAccess_scan t fs se s0 base off wr n i (sh, repl, racy) in
  fst r = false
  /\ ((snd (snd r) = racy
       /\ forall i', i <= i' < i + Z.of_nat n ->
            slot_racy (clock t) (fst fs) s0 wr (LoadShadow sh0 (slot i')) = false)
      \/ exists i', i <= i' < i + Z.of_nat n
            /\ slot_racy (clock t) (fst fs) s0 wr (LoadShadow sh0 (slot i')) = true
            /\ snd (snd r) = LoadShadow sh0 (slot i')).
Proof.
  induction n as [|n IH]; intros i sh repl racy HK Hi Hn Hsh Hsame.
  { cbn. split; [reflexivity|]. left. split; [reflexivity|]. intros; lia. }
  cbn [MemoryAccess_scan]. cbv zeta. fold (slot i).
  pose proof (MemoryAccess1_classify t fs se s0 wr (slot i) sh repl racy) as [C1 C2].
  cbv zeta in C1, C2.
  rewrite (Hsh i ltac:(lia)) in C1, C2. rewrite (Hsame i ltac:(lia)) in C1.
  assert (Hlater : forall i', i + 1 <= i' < i + 1 + Z.of_nat n ->
            LoadShadow (fst (fst (snd (MemoryAccess1 t fs se s0 (slot i) wr (sh, repl, racy)))))
                       (slot i')
            = LoadShadow sh0 (slot i')).
  { intros i' Hi'. rewrite MemoryAccess1_keeps_later; [apply Hsh; lia|].
    apply slot_ne; [exact HK|lia]. }
  destruct (MemoryAccess1 t fs se s0 (slot i) wr (sh, repl, racy))
    as [d [[sh1 repl1] racy1]].
  cbn [fst snd] in *. subst d.
  destruct (IH (i + 1) sh1 repl1 racy1 HK ltac:(lia) ltac:(lia) Hlater
               ltac:(intros; apply Hsame; lia)) as [F D].
  split; [exact F|].
  destruct D as [[E Hno]|(i' & Hi' & Hr & E)].
  - destruct (slot_racy (clock t) (fst fs) s0 wr (LoadShadow sh0 (slot i))) eqn:Er.
    + right. exists i. split; [lia|]. split; [exact Er|]. congruence.
    + left. split; [congruence|]. intros i' Hi'.
      destruct (Z.eq_dec i' i) as [->|?]; [exact Er|apply Hno; lia].
  - right. exists i'. split; [lia|]. now split.
Qed.

(** A summarizing slot ahead makes the scan return at once. *)
Lemma MemoryAccess_scan_same n : forall i sh repl racy,
  0 < kShadowCnt -> 0 <= i -> i + Z.of_nat n <= kShadowCnt ->
  (forall i', i <= i' < i + Z.of_nat n ->
     LoadShadow sh (slot i') = LoadShadow sh0 (slot i')) ->
  (exists i', i <= i' < i + Z.of_nat n
     /\ slot_same (fst fs) se s0 wr (LoadShadow sh0 (slot i')) = true) ->
  fst (MemoryAccess_scan t fs se s0 base off wr n i (sh, repl, racy)) = true.
Proof.
  induction n as [|n IH]; intros i sh repl racy HK Hi Hn Hsh (i' & Hi' & Hs).
  { lia. }
  cbn [MemoryAccess_scan]. cbv zeta. fold (slot i).
  pose proof (MemoryAccess1_classify t fs se s0 wr (slot i) sh repl racy) as [C1 _].
  cbv zeta in C1. rewrite (Hsh i ltac:(lia)) in C1.
  assert (Hlater : forall i', i + 1 <= i' < i + 1 + Z.of_nat n ->
            LoadShadow (fst (fst (snd (MemoryAccess1 t fs se s0 (slot i) wr (sh, repl, racy)))))
                       (slot i')
            = LoadShadow sh0 (slot i')).
  { intros i'' Hi''. rewrite MemoryAccess1_keeps_later; [apply Hsh; lia|].
    apply slot_ne; [exact HK|lia]. }
  destruct (MemoryAccess1 t fs se s0 (slot i) wr (sh, repl, racy))
    as [d [[sh1 repl1] racy1]].
  cbn [fst snd] in *. destruct d; [reflexivity|].
  apply IH; try lia; [exact Hlater|].
  exists i'. split; [|exact Hs].
  destruct (Z.eq_dec i' i) as [->|?]; [congruence|lia].
Qed.

(** The scan visits every slot of the cell. *)
Lemma slot_cover j :
  0 < kShadowCnt -> 0 <= j < kShadowCnt ->
  exists i, 0 <= i < kShadowCnt /\ slot i = base + j.
Proof.
  intros HK Hj. exists ((j - off) mod kShadowCnt).
  split; [now apply Z.mod_pos_bound|].
  unfold slot. f_equal.
  rewrite Zplus_mod_idemp_l. replace (j - off + off) with j by lia.
  now apply Z.mod_small.
Qed.

Lemma slot_in_cell i :
  0 < kShadowCnt -> exists j, 0 <= j < kShadowCnt /\ slot i = base + j.
Proof.
  intros HK. exists ((i + off) mod kShadowCnt).
  split; [now apply Z.mod_pos_bound|reflexivity].
Qed.

End ScanDecision.
Section AccessClaims.
Context `{Config}.

Lemma access_state_fields t pc :
  fast_tid (access_state t pc) = fast_tid t
  /\ fast_synch_epoch (access_state t pc) = fast_synch_epoch t
  /\ clock (access_state t pc) = clock t
  /\ fast_epoch (access_state t pc) = epoch_inc (fast_epoch t).
Proof.
  unfold access_state.
  pose proof (TraceAddEvent_fields
                (set_fast_epoch (StatInc t StatMop)
                                (epoch_inc (fast_epoch (StatInc t StatMop))))
                (epoch_inc (fast_epoch (StatInc t StatMop))) EventTypeMop pc)
    as (A & B & C & D & _).
  pose proof (StatInc_fields t StatMop) as (A' & B' & C' & D' & _).
  rewrite A, B, C, D. cbn. rewrite A', B', C', D'. repeat split.
Qed.

(** C2 (amended). A call of [MemoryAccess] stores its descriptor into at
    most one slot, and every other slot it changes it clears to zero (a
    slot it would have replaced after the descriptor was stored
    elsewhere): all slots but one keep their value or become 0. What
    changes lies in the cell of the accessed word and becomes 0 or the
    descriptor. The fallback store to [cell[epoch mod kShadowCnt]] is
    performed only when the scan ran to its end and stored nothing. *)
Theorem MemoryAccess_stores w thr t pc addr size wr :
  tls w !! thr = Some t -> 0 < kShadowCnt ->
  let w' := fst (MemoryAccess thr pc addr size wr w) in
  let s0 := access_desc t addr size wr in
  let r := access_scan t pc addr size wr (shadow w) in
  (exists p0, forall p, p <> p0 ->
     LoadShadow (shadow w') p = LoadShadow (shadow w) p
     \/ LoadShadow (shadow w') p = 0)
  /\ (forall p, LoadShadow (shadow w') p <> LoadShadow (shadow w) p ->
        MemToShadow addr <= p < MemToShadow addr + kShadowCnt
        /\ (LoadShadow (shadow w') p = 0 \/ LoadShadow (shadow w') p = s0))
  /\ (shadow w' = fst (fst (snd r))
      \/ (fst r = false /\ snd (fst (snd r)) = false
          /\ fst (fst (snd r)) = shadow w
          /\ shadow w' = StoreShadow (shadow w) (access_fallback t addr) s0)).
Proof.
  intros Ht HK. cbv zeta.
  pose proof (MemoryAccess_result w thr t pc addr size wr Ht) as (_ & S & _).
  cbv zeta in S.
  pose proof (MemoryAccess_scan_store_rel (access_state t pc)
                (fast_tid (StatInc t StatMop),
                 epoch_inc (fast_epoch (StatInc t StatMop)))
                (fast_synch_epoch (access_state t pc))
                (access_desc t addr size wr)
                (MemToShadow addr) (MemoryAccess_off addr size) wr
                (Z.to_nat kShadowCnt) 0 (shadow w) false 0 HK) as R.
  cbv zeta in R. unfold access_scan in *.
  destruct R as (R1 & R2 & R3).
  destruct S as [S|(Sd & Sr & S)].
  - rewrite S. split; [exact R3|]. split; [exact R2|]. now left.
  - destruct (R1 Sr) as [E _]. rewrite E in S. rewrite S.
    assert (Hfb : MemToShadow addr <= access_fallback t addr
                  < MemToShadow addr + kShadowCnt).
    { unfold access_fallback.
      pose proof (Z.mod_pos_bound (epoch_inc (fast_epoch (StatInc t StatMop)))
                    kShadowCnt HK). lia. }
    split; [|split].
    + exists (access_fallback t addr). intros p Hp. left.
      rewrite Load_Store. destruct (decide (access_fallback t addr = p)); congruence.
    + intros p. rewrite Load_Store.
      destruct (decide (access_fallback t addr = p)) as [<-|?].
      * intros _. split; [exact Hfb|now right].
      * intros Hp. now destruct Hp.
    + right. repeat split; assumption.
Qed.

(** C1 (amended). Whether [MemoryAccess] calls the race reporter is
    decided by the whole cell, not by one slot: it calls it if and only
    if no slot of the cell summarizes the access (same range, same
    thread, current synch epoch, a write or as weak as the access -- such
    a slot ends the scan, and the call, at once) and some slot is racy,
    that is, records an access of another thread on an overlapping range
    with an epoch above the accessing thread's clock component for that
    thread, one of the two being a write. The pair reported is the
    descriptor of the access and one of the racy slots. *)
Theorem MemoryAccess_reports w thr t pc addr size wr :
  tls w !! thr = Some t -> 0 < kShadowCnt ->
  let w' := fst (MemoryAccess thr pc addr size wr w) in
  let s0 := access_desc t addr size wr in
  let cell j := LoadShadow (shadow w) (MemToShadow addr + j) in
  let same j := slot_same (fast_tid t) (fast_synch_epoch t) s0 wr (cell j) in
  let racy j := slot_racy (clock t) (fast_tid t) s0 wr (cell j) in
  (races w' <> races w <->
     (forall j, 0 <= j < kShadowCnt -> same j = false)
     /\ exists j, 0 <= j < kShadowCnt /\ racy j = true)
  /\ (races w' <> races w ->
      exists j, 0 <= j < kShadowCnt /\ racy j = true
                /\ races w' = races w ++ [(addr, s0, cell j)]).
Proof.
  intros Ht HK w' s0 cell same racy.
  pose proof (MemoryAccess_result w thr t pc addr size wr Ht) as (_ & _ & R).
  cbv zeta in R. change (fst (MemoryAccess thr pc addr size wr w)) with w' in R.
  unfold access_scan in R.
  change (access_desc t addr size wr) with s0 in R.
  pose proof (access_state_fields t pc) as (Ftid & Fse & Fclk & _).
  pose proof (StatInc_fields t StatMop) as (Stid & _).
  set (fs := (fast_tid (StatInc t StatMop),
              epoch_inc (fast_epoch (StatInc t StatMop)))) in *.
  set (base := MemToShadow addr) in *.
  set (off := MemoryAccess_off addr size) in *.
  assert (Hsh : forall i', 0 <= i' < 0 + Z.of_nat (Z.to_nat kShadowCnt) ->
            LoadShadow (shadow w) (base + (i' + off) mod kShadowCnt)
            = LoadShadow (shadow w) (base + (i' + off) mod kShadowCnt))
    by reflexivity.
  assert (Hn : 0 + Z.of_nat (Z.to_nat kShadowCnt) <= kShadowCnt) by lia.
  (* is there a summarizing slot? *)
  assert (Hdec : (exists j, 0 <= j < kShadowCnt /\ same j = true)
                 \/ forall j, 0 <= j < kShadowCnt -> same j = false).
  { clear -HK. 
    assert (forall n, (exists j, 0 <= j < Z.of_nat n /\ same j = true)
                      \/ forall j, 0 <= j < Z.of_nat n -> same j = false) as D.
    { induction n as [|n [(j & Hj & E)|IH]].
      - right. intros; lia.
      - left. exists j. split; [lia|exact E].
      - destruct (same (Z.of_nat n)) eqn:E.
        + left. exists (Z.of_nat n). split; [lia|exact E].
        + right. intros j Hj. destruct (Z.eq_dec j (Z.of_nat n)) as [->|?];
            [exact E|apply IH; lia]. }
    specialize (D (Z.to_nat kShadowCnt)). rewrite Z2Nat.id in D by lia. exact D. }
  destruct Hdec as [(j & Hj & Es)|Hnone].
  - (* the scan returns at that slot *)
    destruct (slot_cover base off j HK Hj) as (i & Hi & Ei).
    assert (Hd : fst (MemoryAccess_scan (access_state t pc) fs
                        (fast_synch_epoch (access_state t pc)) s0 base off wr
                        (Z.to_nat kShadowCnt) 0 (shadow w, false, 0)) = true).
    { apply (MemoryAccess_scan_same _ _ _ _ _ _ _ (shadow w) _ 0 (shadow w) false 0
               HK ltac:(lia) Hn Hsh).
      exists i. split; [lia|]. rewrite Ei.
      unfold fs. cbn [fst]. rewrite Stid, Fse. exact Es. }
    rewrite Hd in R. cbn [orb] in R.
    split; [|intros Hne; now destruct Hne].
    split; [intros Hne; now destruct Hne|].
    intros [Hall _]. rewrite (Hall j Hj) in Es. discriminate.
  - (* the scan runs to its end *)
    assert (Hsame : forall i', 0 <= i' < 0 + Z.of_nat (Z.to_nat kShadowCnt) ->
              slot_same (fst fs) (fast_synch_epoch (access_state t pc)) s0 wr
                (LoadShadow (shadow w) (base + (i' + off) mod kShadowCnt)) = false).
    { intros i' Hi'. destruct (slot_in_cell base off i' HK) as (j & Hj & Ej).
      rewrite Ej. unfold fs. cbn [fst]. rewrite Stid, Fse. now apply Hnone. }
    pose proof (MemoryAccess_scan_no_same (access_state t pc) fs
                  (fast_synch_epoch (access_state t pc)) s0 base off wr (shadow w)
                  (Z.to_nat kShadowCnt) 0 (shadow w) false 0
                  HK ltac:(lia) Hn Hsh Hsame) as [Hd D].
    cbv zeta in Hd, D.
    rewrite Hd in R. cbn [orb] in R.
    destruct D as [[E Hno]|(i' & Hi' & Hr & E)].
    + rewrite E in R. cbn in R.
      split; [|intros Hne; now destruct Hne].
      split; [intros Hne; now destruct Hne|].
      intros [_ (j & Hj & Er)].
      destruct (slot_cover base off j HK Hj) as (i & Hi & Ei).
      specialize (Hno i ltac:(lia)). rewrite Ei in Hno.
      unfold fs in Hno. cbn [fst] in Hno. rewrite Fclk, Stid in Hno.
      unfold racy, cell in Er. fold base in Er. congruence.
    + destruct (slot_in_cell base off i' HK) as (j & Hj & Ej).
      rewrite Ej in Hr, E. unfold fs in Hr. cbn [fst] in Hr.
      rewrite Fclk, Stid in Hr.
      assert (Hnz : (snd (snd (MemoryAccess_scan (access_state t pc) fs
                        (fast_synch_epoch (access_state t pc)) s0 base off wr
                        (Z.to_nat kShadowCnt) 0 (shadow w, false, 0))) =? 0) = false).
      { rewrite E. unfold slot_racy in Hr.
        destruct (LoadShadow (shadow w) (base + j) =? 0); [discriminate|reflexivity]. }
      rewrite Hnz, E in R.
      assert (Hne : races w' <> races w).
      { rewrite R. intros Eq. apply (f_equal length) in Eq.
        rewrite length_app in Eq. cbn in Eq. lia. }
      split.
      * split; [intros _|intros _; exact Hne].
        split; [exact Hnone|]. exists j. now split.
      * intros _. exists j. split; [exact Hj|]. split; [exact Hr|exact R].
Qed.

End AccessClaims.
Section RestoreProps.
Context `{Config}.



Lemma restore_fails_add_race w x s :
  restore_fails w s -> restore_fails (add_race w x) s.
Proof. exact (fun Hf => Hf). Qed.



End RestoreProps.

Section ClockOrder.

Lemma clock_le_refl a : clock_le a a.
Proof. intros k x E. exists x. split; [exact E|lia]. Qed.

Lemma clock_le_trans a b c : clock_le a b -> clock_le b c -> clock_le a c.
Proof.
  intros A B k x E. destruct (A k x E) as (y & Ey & Hy).
  destruct (B k y Ey) as (z & Ez & Hz). exists z. split; [exact Ez|lia].
Qed.

Lemma clock_le_join_l a b : clock_le a (clock_join a b).
Proof.
  intros k x E. unfold clock_join. rewrite lookup_union_with, E.
  destruct (b !! k) as [y|]; cbn; eexists; (split; [reflexivity|lia]).
Qed.

Lemma clock_le_join_r a b : clock_le b (clock_join a b).
Proof.
  intros k x E. unfold clock_join. rewrite lookup_union_with, E.
  destruct (a !! k) as [y|]; cbn; eexists; (split; [reflexivity|lia]).
Qed.

Lemma clock_le_get a b k x : clock_le a b -> a !! k = Some x -> x <= clock_get b k.
Proof.
  intros A E. destruct (A k x E) as (y & Ey & Hy). unfold clock_get.
  now rewrite Ey.
Qed.

End ClockOrder.

Section StartProps.
Context `{Config}.

Lemma ThreadStart_created w p tid c :
  zlookup (threads (ctx w)) tid = Some c ->
  status c = ThreadStatusCreated ->
  exists w', ThreadStart p tid w = (w', Ret tt)
  /\ (tls w' = <[p := started tid (sync c)]> (tls w)
      /\ threads (ctx w')
         = zinsert tid (mkThreadContext (Some p) ThreadStatusRunning (uid c)
                                        (detached c) (sync c))
                   (threads (ctx w))
      /\ synctab (ctx w') = synctab (ctx w)
      /\ thread_seq (ctx w') = thread_seq (ctx w)
      /\ shadow w' = shadow w).
Proof.
  intros Hc Hs. unfold ThreadStart.
  eexists; split.
  - repeat mstep. rewrite Hs. cbn [status_eqb]. repeat mstep. reflexivity.
  - cbn. rewrite insert_insert_eq. repeat split.
Qed.

Lemma ThreadStart_not_created w p tid c :
  zlookup (threads (ctx w)) tid = Some c ->
  status c <> ThreadStatusCreated ->
  snd (ThreadStart p tid w) = Fatal.
Proof.
  intros Hc Hs. unfold ThreadStart. repeat mstep.
  destruct (status c); try reflexivity. now destruct Hs.
Qed.

(** X1. [ThreadStart] on a context that is not Created is fatal. On a
    Created context it returns: the context is Running and points to the
    thread's state, which is fresh (epoch 1, [fast_synch_epoch] 1, empty
    trace) and whose clock has acquired the context's sync clock: every
    component the sync clock holds is reached by the new thread's
    clock. *)
Theorem ThreadStart_outcomes w p tid c :
  zlookup (threads (ctx w)) tid = Some c ->
  let r := ThreadStart p tid w in
  (status c <> ThreadStatusCreated -> snd r = Fatal)
  /\ (status c = ThreadStatusCreated ->
      snd r = Ret tt
      /\ tls (fst r) !! p = Some (started tid (sync c))
      /\ zlookup (threads (ctx (fst r))) tid
         = Some (mkThreadContext (Some p) ThreadStatusRunning (uid c)
                                 (detached c) (sync c))
      /\ clock_get (clock (started tid (sync c))) tid >= 1
      /\ forall k x, sync c !! k = Some x ->
                     x <= clock_get (clock (started tid (sync c))) k).
Proof.
  intros Hc r. subst r. split.
  - intros Hs. exact (ThreadStart_not_created w p tid c Hc Hs).
  - intros Hs. use_result (ThreadStart_created w p tid c Hc Hs).
    destruct H0 as (A & B & _).
    split; [reflexivity|]. split; [rewrite A; apply lookup_insert_eq|].
    split; [rewrite B; eapply zlookup_zinsert_eq; exact Hc|].
    split.
    + unfold started. cbn [clock]. unfold clock_acquire.
      rewrite clock_get_join. unfold clock_set. rewrite lookup_insert_eq.
      destruct (sync c !! tid); lia.
    + intros k x Hk. unfold started. cbn [clock]. now apply clock_acquire_ge.
Qed.

End StartProps.

Section FinishProps.
Context `{Config}.

Lemma ThreadFinish_not_running w p t c :
  tls w !! p = Some t ->
  zlookup (threads (ctx w)) (fast_tid t) = Some c ->
  status c <> ThreadStatusRunning ->
  snd (ThreadFinish p w) = Fatal.
Proof.
  intros Ht Hc Hs. unfold ThreadFinish. repeat mstep.
  destruct (status c); try reflexivity. now destruct Hs.
Qed.

Lemma ThreadFinish_joinable w p t c :
  tls w !! p = Some t ->
  zlookup (threads (ctx w)) (fast_tid t) = Some c ->
  status c = ThreadStatusRunning -> detached c = false ->
  exists w', ThreadFinish p w = (w', Ret tt)
  /\ (tls w' = <[p := released t]> (tls w)
      /\ threads (ctx w')
         = zinsert (fast_tid t)
             (mkThreadContext None ThreadStatusFinished (uid c) false
                (clock_release (clock (released t)) (sync c)))
             (threads (ctx w))
      /\ synctab (ctx w') = synctab (ctx w)
      /\ thread_seq (ctx w') = thread_seq (ctx w)
      /\ shadow w' = shadow w).
Proof.
  intros Ht Hc Hs Hd. unfold ThreadFinish.
  eexists; split.
  - repeat mstep. rewrite Hs. cbn [status_eqb]. repeat mstep. rewrite Hd.
    repeat mstep.
    erewrite bind_Ret by (apply thread_at_Some; cbn; eapply zlookup_zinsert_eq; exact Hc).
    reflexivity.
  - cbn. unfold zinsert. rewrite list_insert_insert_eq.
    unfold set_thr, set_status, set_sync. cbn. rewrite Hd. repeat split.
Qed.

Lemma ThreadFinish_detached w p t c :
  tls w !! p = Some t ->
  zlookup (threads (ctx w)) (fast_tid t) = Some c ->
  status c = ThreadStatusRunning -> detached c = true ->
  exists w', ThreadFinish p w = (w', Ret tt)
  /\ (tls w' = tls w
      /\ threads (ctx w')
         = zinsert (fast_tid t)
             (mkThreadContext None ThreadStatusInvalid 0 true ∅)
             (threads (ctx w))
      /\ synctab (ctx w') = synctab (ctx w)
      /\ thread_seq (ctx w') = thread_seq (ctx w)
      /\ shadow w' = shadow w).
Proof.
  intros Ht Hc Hs Hd. unfold ThreadFinish, ThreadFree. debug_cases.
  all: eexists; split;
    [ repeat mstep; rewrite Hs; cbn [status_eqb orb]; repeat mstep; rewrite Hd;
      repeat mstep; rewrite Hs; cbn [status_eqb orb]; repeat mstep;
      erewrite bind_Ret
        by (apply thread_at_Some; cbn; eapply zlookup_zinsert_eq; exact Hc);
      reflexivity
    | cbn; unfold zinsert; rewrite list_insert_insert_eq;
      unfold set_thr, set_status, set_sync, set_uid, clock_Free; cbn;
      rewrite Hd; repeat split ].
Qed.

End FinishProps.

Section LifecycleEdges.
Context `{Config}.

Lemma released_own t : clock (released t) !! fast_tid t = Some (fast_epoch t).
Proof. unfold released, clock_set. cbn. apply lookup_insert_eq. Qed.

(** X2. [ThreadFinish] is fatal unless the caller's context is Running.
    A detached thread frees its own slot: status Invalid, uid 0, sync
    clock emptied, the caller's state as it was. A joinable thread
    becomes Finished and releases: its own clock component is set to its
    epoch, [fast_synch_epoch] follows, and the context's sync clock knows
    everything the thread's clock knows. In both cases the context's
    state pointer is cleared. *)
Theorem ThreadFinish_outcomes w p t c :
  tls w !! p = Some t ->
  zlookup (threads (ctx w)) (fast_tid t) = Some c ->
  let r := ThreadFinish p w in
  (status c <> ThreadStatusRunning -> snd r = Fatal)
  /\ (status c = ThreadStatusRunning -> detached c = true ->
      snd r = Ret tt /\ tls (fst r) = tls w
      /\ zlookup (threads (ctx (fst r))) (fast_tid t)
         = Some (mkThreadContext None ThreadStatusInvalid 0 true ∅))
  /\ (status c = ThreadStatusRunning -> detached c = false ->
      snd r = Ret tt /\ tls (fst r) = <[p := released t]> (tls w)
      /\ exists c', zlookup (threads (ctx (fst r))) (fast_tid t) = Some c'
         /\ thr c' = None /\ status c' = ThreadStatusFinished
         /\ uid c' = uid c /\ detached c' = false
         /\ clock_le (clock (released t)) (sync c')
         /\ clock_le (sync c) (sync c')
         /\ fast_epoch t <= clock_get (sync c') (fast_tid t)).
Proof.
  intros Ht Hc r. subst r. split; [|split].
  - intros Hs. exact (ThreadFinish_not_running w p t c Ht Hc Hs).
  - intros Hs Hd. use_result (ThreadFinish_detached w p t c Ht Hc Hs Hd).
    destruct H0 as (A & B & _). split; [reflexivity|]. split; [exact A|].
    rewrite B. eapply zlookup_zinsert_eq. exact Hc.
  - intros Hs Hd. use_result (ThreadFinish_joinable w p t c Ht Hc Hs Hd).
    destruct H0 as (A & B & _). split; [reflexivity|]. split; [exact A|].
    eexists. split; [rewrite B; eapply zlookup_zinsert_eq; exact Hc|].
    cbn. repeat split.
    + apply clock_le_join_r.
    + apply clock_le_join_l.
    + eapply clock_le_get; [apply clock_le_join_r|]. apply released_own.
Qed.

(** X3. Thread creation is a happens-before edge. When a thread creates
    a thread with a nonzero tid and the new thread then starts, the new
    thread's clock knows everything the creator's clock knew at the call,
    the creator's own epoch included. *)
Theorem create_start_edge w p q tp c uid0 det :
  tls w !! p = Some tp ->
  thread_seq (ctx w) <> 0 ->
  zlookup (threads (ctx w)) (thread_seq (ctx w)) = Some c ->
  status c = ThreadStatusInvalid ->
  let w1 := fst (ThreadCreate p uid0 det w) in
  let r := ThreadStart q (thread_seq (ctx w)) w1 in
  snd (ThreadCreate p uid0 det w) = Ret (thread_seq (ctx w))
  /\ snd r = Ret tt
  /\ exists tq, tls (fst r) !! q = Some tq
     /\ fast_tid tq = bitfield kTidBits (thread_seq (ctx w))
     /\ fast_epoch tq = bitfield kClkBits 1
     /\ clock_le (clock (released tp)) (clock tq)
     /\ fast_epoch tp <= clock_get (clock tq) (fast_tid tp).
Proof.
  intros Ht Hseq Hc Hs.
  destruct (ThreadCreate_next w p tp uid0 det c Ht Hseq Hc Hs)
    as (w1 & E1 & _ & _ & B1 & _).
  cbv zeta. rewrite E1. cbn [fst snd].
  assert (Hc1 : zlookup (threads (ctx w1)) (thread_seq (ctx w))
                = Some (mkThreadContext None ThreadStatusCreated uid0 det
                          (clock_release (clock (released tp)) (sync c)))).
  { rewrite B1. eapply zlookup_zinsert_eq. exact Hc. }
  destruct (ThreadStart_created w1 q _ _ Hc1 eq_refl) as (w2 & E2 & A2 & _).
  rewrite E2. cbn [fst snd]. split; [reflexivity|]. split; [reflexivity|].
  eexists. split; [rewrite A2; apply lookup_insert_eq|].
  cbn [fast_tid fast_epoch clock started sync].
  assert (L : clock_le (clock (released tp))
                (clock_acquire (clock_set ∅ (thread_seq (ctx w)) 1)
                   (clock_release (clock (released tp)) (sync c)))).
  { eapply clock_le_trans; [|apply clock_le_join_r]. apply clock_le_join_r. }
  repeat split; [exact L|].
  eapply clock_le_get; [exact L|]. apply released_own.
Qed.

(** X4. Joining is a happens-before edge. When a joinable Running thread
    finishes and another thread then joins it by its uid, the join
    returns, the joiner's clock knows everything the finished thread's
    clock knew, its last epoch included, and the finished thread's slot
    is Invalid again. *)
Theorem finish_join_edge w p q tp tq c uid0 :
  p <> q ->
  tls w !! p = Some tp -> tls w !! q = Some tq ->
  Z.of_nat (length (threads (ctx w))) = kMaxTid ->
  zlookup (threads (ctx w)) (fast_tid tq) = Some c ->
  status c = ThreadStatusRunning -> detached c = false -> uid c = uid0 ->
  (forall j c', 0 <= j < fast_tid tq -> zlookup (threads (ctx w)) j = Some c' ->
                join_match uid0 c' = false) ->
  let w1 := fst (ThreadFinish q w) in
  let r := ThreadJoin p uid0 w1 in
  snd (ThreadFinish q w) = Ret tt /\ snd r = Ret tt
  /\ (exists tp', tls (fst r) !! p = Some tp'
      /\ clock_le (clock tp) (clock tp')
      /\ clock_le (clock (released tq)) (clock tp')
      /\ fast_epoch tq <= clock_get (clock tp') (fast_tid tq))
  /\ exists c', zlookup (threads (ctx (fst r))) (fast_tid tq) = Some c'
     /\ status c' = ThreadStatusInvalid /\ uid c' = 0.
Proof.
  intros Hpq Htp Htq Hlen Hc Hs Hd Hu Hfirst.
  destruct (ThreadFinish_joinable w q tq c Htq Hc Hs Hd)
    as (w1 & E1 & A1 & B1 & _).
  cbv zeta. rewrite E1. cbn [fst snd].
  pose proof (zlookup_nonneg _ _ _ Hc) as Hnn.
  set (c1 := mkThreadContext None ThreadStatusFinished (uid c) false
               (clock_release (clock (released tq)) (sync c))).
  assert (Htgt : join_target (threads (ctx w1)) uid0 (fast_tid tq) c1).
  { split; [rewrite B1; eapply zlookup_zinsert_eq; exact Hc|]. split.
    - unfold join_match, c1. cbn. rewrite Hu, Z.eqb_refl. reflexivity.
    - intros j c' Hj Hc'. rewrite B1 in Hc'.
      rewrite zlookup_zinsert_ne in Hc' by lia. now apply (Hfirst j). }
  assert (Htp1 : tls w1 !! p = Some tp).
  { rewrite A1. rewrite lookup_insert_ne by congruence. exact Htp. }
  assert (Hlen1 : Z.of_nat (length (threads (ctx w1))) = kMaxTid).
  { rewrite B1. unfold zinsert. now rewrite length_insert. }
  destruct (ThreadJoin_finished w1 p tp uid0 _ c1 Htp1 Hlen1 Htgt eq_refl eq_refl)
    as (w2 & E2 & A2 & B2 & _).
  rewrite E2. cbn [fst snd]. split; [reflexivity|]. split; [reflexivity|]. split.
  - eexists. split; [rewrite A2; apply lookup_insert_eq|].
    cbn [clock set_clock c1 sync].
    assert (L : clock_le (clock (released tq))
                  (clock_acquire (clock tp)
                     (clock_release (clock (released tq)) (sync c)))).
    { eapply clock_le_trans; [|apply clock_le_join_r]. apply clock_le_join_r. }
    split; [apply clock_le_join_l|]. split; [exact L|].
    eapply clock_le_get; [exact L|]. apply released_own.
  - eexists. split.
    + rewrite B2. eapply zlookup_zinsert_eq.
      rewrite B1. eapply zlookup_zinsert_eq. exact Hc.
    + split; reflexivity.
Qed.

End LifecycleEdges.

Section DetachProps.
Context `{Config}.

Lemma ThreadDetach_find_None uid0 n : forall tid w,
  0 <= tid ->
  tid + Z.of_nat n <= Z.of_nat (length (threads (ctx w))) ->
  (forall c, c ∈ threads (ctx w) -> uid c <> uid0) ->
  ThreadDetach_find n tid uid0 w = (w, Ret None).
Proof.
  induction n as [|n IH]; intros tid w H0 Hlen Hno; [reflexivity|].
  cbn [ThreadDetach_find].
  destruct (zlookup_lt (threads (ctx w)) tid) as [c Hc]; [lia|].
  step_with (thread_at_Some _ _ _ Hc).
  pose proof (Hno c (zlookup_elem _ _ _ Hc)) as Hm.
  rewrite (proj2 (Z.eqb_neq _ _) Hm).
  apply IH; [lia|lia|exact Hno].
Qed.

Lemma ThreadDetach_find_Some uid0 k c n : forall tid w,
  0 <= tid <= k -> k < tid + Z.of_nat n ->
  zlookup (threads (ctx w)) k = Some c ->
  uid c = uid0 ->
  (forall j c', tid <= j < k -> zlookup (threads (ctx w)) j = Some c' ->
                uid c' <> uid0) ->
  ThreadDetach_find n tid uid0 w = (w, Ret (Some k)).
Proof.
  induction n as [|n IH]; intros tid w Hk Hn Hc Hm Hbefore; [lia|].
  cbn [ThreadDetach_find].
  destruct (Z.eq_dec tid k) as [->|Hne].
  - step_with (thread_at_Some _ _ _ Hc).
    now rewrite (proj2 (Z.eqb_eq _ _) Hm).
  - assert (Hlt : 0 <= tid < Z.of_nat (length (threads (ctx w)))).
    { unfold zlookup in Hc. destruct (k <? 0); [discriminate|].
      apply lookup_lt_Some in Hc. lia. }
    destruct (zlookup_lt _ _ Hlt) as [c' Hc'].
    step_with (thread_at_Some _ _ _ Hc').
    pose proof (Hbefore tid c' ltac:(lia) Hc') as Hm'.
    rewrite (proj2 (Z.eqb_neq _ _) Hm').
    apply IH; try lia; try assumption.
    intros j c'' Hj. apply Hbefore. lia.
Qed.

Lemma ThreadDetach_find_target w uid0 tid c :
  Z.of_nat (length (threads (ctx w))) = kMaxTid ->
  detach_target (threads (ctx w)) uid0 tid c ->
  ThreadDetach_find (Z.to_nat kMaxTid) 0 uid0 w = (w, Ret (Some tid)).
Proof.
  intros Hlen (Hc & Hm & Hfirst).
  pose proof (zlookup_nonneg _ _ _ Hc) as Hnn.
  apply (ThreadDetach_find_Some uid0 tid c); try assumption; try lia.
  unfold zlookup in Hc. destruct (tid <? 0); [discriminate|].
  apply lookup_lt_Some in Hc. lia.
Qed.

Lemma ThreadDetach_no_match w p uid0 :
  Z.of_nat (length (threads (ctx w))) = kMaxTid ->
  (forall c, c ∈ threads (ctx w) -> uid c <> uid0) ->
  exists w', ThreadDetach p uid0 w = (w', Ret tt)
  /\ (same_state w w'
      /\ last (out w')
         = Some (OutPrintf "ThreadSanitizer: detach of non-existent thread\n" [])).
Proof.
  intros Hlen Hno. unfold ThreadDetach.
  eexists; split.
  - erewrite bind_Ret by (apply ThreadDetach_find_None; cbn; [lia|lia|exact Hno]).
    reflexivity.
  - cbn. repeat split. apply last_snoc.
Qed.

Lemma ThreadDetach_invalid w p uid0 tid c :
  Z.of_nat (length (threads (ctx w))) = kMaxTid ->
  detach_target (threads (ctx w)) uid0 tid c ->
  status c = ThreadStatusInvalid ->
  exists w', ThreadDetach p uid0 w = (w', Ret tt)
  /\ (same_state w w'
      /\ last (out w')
         = Some (OutPrintf "ThreadSanitizer: detach of non-existent thread\n" [])).
Proof.
  intros Hlen Htgt Hs. pose proof Htgt as (Hc & _ & _). unfold ThreadDetach.
  eexists; split.
  - erewrite bind_Ret by (eapply ThreadDetach_find_target; eassumption).
    cbv beta iota. mstep. rewrite Hs. cbn [status_eqb]. reflexivity.
  - cbn. repeat split. apply last_snoc.
Qed.

Lemma ThreadDetach_finished w p t uid0 tid c :
  tls w !! p = Some t ->
  Z.of_nat (length (threads (ctx w))) = kMaxTid ->
  detach_target (threads (ctx w)) uid0 tid c ->
  status c = ThreadStatusFinished ->
  exists w', ThreadDetach p uid0 w = (w', Ret tt)
  /\ (tls w' = tls w
      /\ threads (ctx w')
         = zinsert tid (mkThreadContext (thr c) ThreadStatusInvalid 0
                                        (detached c) ∅)
                   (threads (ctx w))
      /\ synctab (ctx w') = synctab (ctx w)
      /\ thread_seq (ctx w') = thread_seq (ctx w)
      /\ shadow w' = shadow w).
Proof.
  intros Ht Hlen Htgt Hs. pose proof Htgt as (Hc & _ & _).
  unfold ThreadDetach, ThreadFree. debug_cases.
  all: eexists; split;
    [ erewrite bind_Ret by (eapply ThreadDetach_find_target; eassumption);
      cbv beta iota;
      repeat (first [ mstep
                    | progress (rewrite ?Hs; cbn [status_eqb negb orb]) ]);
      reflexivity
    | cbn; repeat split ].
Qed.

Lemma ThreadDetach_live w p uid0 tid c :
  Z.of_nat (length (threads (ctx w))) = kMaxTid ->
  detach_target (threads (ctx w)) uid0 tid c ->
  status c = ThreadStatusCreated \/ status c = ThreadStatusRunning ->
  exists w', ThreadDetach p uid0 w = (w', Ret tt)
  /\ (tls w' = tls w
      /\ threads (ctx w')
         = zinsert tid (mkThreadContext (thr c) (status c) (uid c) true (sync c))
                   (threads (ctx w))
      /\ synctab (ctx w') = synctab (ctx w)
      /\ thread_seq (ctx w') = thread_seq (ctx w)
      /\ shadow w' = shadow w /\ out w' = out w).
Proof.
  intros Hlen Htgt Hs. pose proof Htgt as (Hc & _ & _).
  unfold ThreadDetach.
  eexists; split.
  - erewrite bind_Ret by (eapply ThreadDetach_find_target; eassumption).
    cbv beta iota. mstep.
    destruct Hs as [Hs|Hs]; rewrite Hs; cbn [status_eqb]; reflexivity.
  - cbn. repeat split.
Qed.

(** X5. [ThreadDetach] stops at the first context with the uid, whatever
    its status. With no such context, or when that first one is Invalid,
    it prints a warning and changes nothing. A Finished target is freed
    (status Invalid, uid 0, sync clock emptied); a Created or Running one
    is marked detached and nothing else changes. It is never fatal. *)
Theorem ThreadDetach_outcomes w p t uid0 :
  tls w !! p = Some t ->
  Z.of_nat (length (threads (ctx w))) = kMaxTid ->
  let r := ThreadDetach p uid0 w in
  ((forall c, c ∈ threads (ctx w) -> uid c <> uid0) ->
     snd r = Ret tt /\ same_state w (fst r)
     /\ last (out (fst r))
        = Some (OutPrintf "ThreadSanitizer: detach of non-existent thread\n" []))
  /\ (forall tid c, detach_target (threads (ctx w)) uid0 tid c ->
        (status c = ThreadStatusInvalid ->
           snd r = Ret tt /\ same_state w (fst r)
           /\ last (out (fst r))
              = Some (OutPrintf "ThreadSanitizer: detach of non-existent thread\n" []))
        /\ (status c = ThreadStatusFinished ->
              snd r = Ret tt /\ tls (fst r) = tls w
              /\ threads (ctx (fst r))
                 = zinsert tid (mkThreadContext (thr c) ThreadStatusInvalid 0
                                                (detached c) ∅)
                           (threads (ctx w)))
        /\ (status c = ThreadStatusCreated \/ status c = ThreadStatusRunning ->
              snd r = Ret tt /\ tls (fst r) = tls w
              /\ out (fst r) = out w
              /\ threads (ctx (fst r))
                 = zinsert tid (mkThreadContext (thr c) (status c) (uid c) true
                                                (sync c))
                           (threads (ctx w)))).
Proof.
  intros Ht Hlen r. subst r. split.
  - intros Hno. use_result (ThreadDetach_no_match w p uid0 Hlen Hno). now split.
  - intros tid c Htgt. split; [|split].
    + intros Hs. use_result (ThreadDetach_invalid w p uid0 tid c Hlen Htgt Hs).
      now split.
    + intros Hs.
      use_result (ThreadDetach_finished w p t uid0 tid c Ht Hlen Htgt Hs).
      destruct H0 as (A & B & _). now repeat split.
    + intros Hs. use_result (ThreadDetach_live w p uid0 tid c Hlen Htgt Hs).
      destruct H0 as (A & B & _ & _ & _ & O). now repeat split.
Qed.

End DetachProps.

Section InitProps.
Context `{Config}.

Lemma Context0_slot : 0 < kMaxTid -> zlookup (threads Context0) 0 = Some ThreadContext0.
Proof.
  intros Hk. unfold zlookup, Context0. cbn.
  apply lookup_replicate_2. lia.
Qed.

Lemma Initialize_again w p : initialized w = true -> Initialize p w = (w, Ret tt).
Proof. intros Hi. unfold Initialize, get_initialized, bind. now rewrite Hi. Qed.

Lemma Initialize_first w p :
  initialized w = false -> 0 < kMaxTid ->
  TSAN_DEBUG = false \/ is_Some (tls w !! p) ->
  exists w', Initialize p w = (w', Ret tt)
  /\ (initialized w' = true
      /\ tls w' = <[p := started 0 ∅]> (tls w)
      /\ ctx w' = mkContext ∅ None 1
                    (zinsert 0 (mkThreadContext (Some p) ThreadStatusRunning 0 true ∅)
                             (threads Context0))
      /\ shadow w' = ∅ /\ races w' = races w).
Proof.
  intros Hi Hk Hd. pose proof (Context0_slot Hk) as Hc.
  unfold Initialize, get_initialized, bind at 1. rewrite Hi.
  unfold ThreadCreate, ThreadStart, DPrintf.
  assert (Hc1 : forall x, zlookup (zinsert 0 x (threads Context0)) 0 = Some x).
  { intros x. eapply zlookup_zinsert_eq. exact Hc. }
  destruct TSAN_DEBUG.
  - destruct Hd as [?|[t Ht]]; [discriminate|].
    eexists; split.
    + repeat mstep. cbn [thread_seq Context0 set_thread_seq ctx set_ctx].
      repeat mstep.
      erewrite bind_Ret by (apply thread_at_Some; cbn; apply Hc1).
      cbn [status status_eqb]. repeat mstep. reflexivity.
    + cbn. rewrite insert_insert_eq. unfold zinsert.
      rewrite list_insert_insert_eq. repeat split.
  - eexists; split.
    + repeat mstep. cbn [thread_seq Context0 set_thread_seq ctx set_ctx].
      repeat mstep.
      erewrite bind_Ret by (apply thread_at_Some; cbn; apply Hc1).
      cbn [status status_eqb]. repeat mstep. reflexivity.
    + cbn. rewrite insert_insert_eq. unfold zinsert.
      rewrite list_insert_insert_eq. repeat split.
Qed.

(** X6. The first [Initialize] (with at least one registry slot) builds a
    fresh context and shadow, registers the caller as thread 0 -- Running,
    detached, uid 0 -- with a fresh state (epoch 1, clock component 0 at
    1), and leaves the next tid at 1. Every later call returns at once
    and changes nothing. *)
Theorem Initialize_once w p p' :
  initialized w = false -> 0 < kMaxTid ->
  TSAN_DEBUG = false \/ is_Some (tls w !! p) ->
  let r := Initialize p w in
  snd r = Ret tt
  /\ tls (fst r) !! p = Some (started 0 ∅)
  /\ clock_get (clock (started 0 ∅)) 0 = 1
  /\ thread_seq (ctx (fst r)) = 1
  /\ zlookup (threads (ctx (fst r))) 0
     = Some (mkThreadContext (Some p) ThreadStatusRunning 0 true ∅)
  /\ (forall j c, j <> 0 -> zlookup (threads (ctx (fst r))) j = Some c ->
                  c = ThreadContext0)
  /\ Z.of_nat (length (threads (ctx (fst r)))) = kMaxTid
  /\ synctab (ctx (fst r)) = ∅ /\ shadow (fst r) = ∅
  /\ Initialize p' (fst r) = (fst r, Ret tt).
Proof.
  intros Hi Hk Hd r. subst r.
  use_result (Initialize_first w p Hi Hk Hd).
  destruct H0 as (A & B & C & D & _). rewrite C. cbn [thread_seq threads synctab].
  split; [reflexivity|]. split; [rewrite B; apply lookup_insert_eq|].
  split; [reflexivity|]. split; [reflexivity|].
  split; [eapply zlookup_zinsert_eq; exact (Context0_slot Hk)|].
  split.
  { intros j c Hj Hc. pose proof (zlookup_nonneg _ _ _ Hc).
    rewrite zlookup_zinsert_ne in Hc by lia.
    apply zlookup_elem in Hc. unfold Context0 in Hc. cbn in Hc.
    now apply elem_of_replicate in Hc. }
  split.
  { unfold zinsert, Context0. cbn. rewrite length_insert, length_replicate. lia. }
  split; [reflexivity|]. split; [exact D|].
  now apply Initialize_again.
Qed.

End InitProps.

Section MutexEffects.
Context `{Config}.

Lemma MutexUnlock_known w p t pc addr s :
  tls w !! p = Some t ->
  synctab (ctx w) !! addr = Some s -> sv_type s = Mtx ->
  exists w', MutexUnlock p pc addr w = (w', Ret tt)
  /\ (tls w' = <[p := released (after_event t EventTypeUnlock addr)]> (tls w)
      /\ synctab (ctx w')
         = <[addr := set_sv_clock s
               (clock_release (clock (released (after_event t EventTypeUnlock addr)))
                              (sv_clock s))]> (synctab (ctx w))
      /\ threads (ctx w') = threads (ctx w)
      /\ thread_seq (ctx w') = thread_seq (ctx w)
      /\ shadow w' = shadow w /\ races w' = races w).
Proof.
  intros Ht Hs Hm. unfold MutexUnlock. debug_cases.
  all: eexists; split;
    [ repeat mstep; cbn [ctx set_tls add_out set_ctx]; rewrite Hs;
      unfold is_Mtx; rewrite Hm; repeat mstep; reflexivity
    | cbn; rewrite insert_insert_eq; repeat split ].
Qed.

Lemma MutexLock_known w p t pc addr s :
  tls w !! p = Some t ->
  synctab (ctx w) !! addr = Some s -> sv_type s = Mtx ->
  exists w', MutexLock p pc addr w = (w', Ret tt)
  /\ (tls w' = <[p := acquired (after_event t EventTypeLock addr) (sv_clock s)]> (tls w)
      /\ ctx w' = ctx w /\ shadow w' = shadow w /\ races w' = races w).
Proof.
  intros Ht Hs Hm. unfold MutexLock. debug_cases.
  all: eexists; split;
    [ repeat mstep; cbn [ctx set_tls add_out set_ctx]; rewrite Hs;
      repeat mstep; unfold is_Mtx; rewrite Hm; repeat mstep; reflexivity
    | cbn; rewrite insert_insert_eq; repeat split ].
Qed.

Lemma MutexLock_unknown w p t pc addr :
  tls w !! p = Some t ->
  synctab (ctx w) !! addr = None ->
  exists w', MutexLock p pc addr w = (w', Ret tt)
  /\ (tls w' = <[p := acquired (after_event t EventTypeLock addr) ∅]> (tls w)
      /\ synctab (ctx w') = <[addr := MutexVar addr true]> (synctab (ctx w))
      /\ threads (ctx w') = threads (ctx w)
      /\ thread_seq (ctx w') = thread_seq (ctx w)
      /\ shadow w' = shadow w /\ races w' = races w).
Proof.
  intros Ht Hs. unfold MutexLock. debug_cases.
  all: eexists; split;
    [ repeat mstep; cbn [ctx set_tls add_out set_ctx]; rewrite Hs;
      repeat mstep; reflexivity
    | cbn; rewrite insert_insert_eq; repeat split ].
Qed.

Lemma MutexLock_not_mutex w p t pc addr s :
  tls w !! p = Some t ->
  synctab (ctx w) !! addr = Some s -> sv_type s = OtherSync ->
  snd (MutexLock p pc addr w) = Fatal.
Proof.
  intros Ht Hs Hm. unfold MutexLock. debug_cases.
  all: repeat mstep; cbn [ctx set_tls add_out set_ctx]; rewrite Hs;
    repeat mstep; unfold is_Mtx; rewrite Hm; reflexivity.
Qed.




End MutexEffects.

Section MutexEdges.
Context `{Config}.

(** X7. A mutex is a happens-before edge. When a thread unlocks a known
    mutex and a thread then locks it, both calls return and the locker's
    clock knows everything the unlocker's clock held at the unlock -- its
    own epoch, just incremented, included -- and everything the mutex
    clock held before. *)
Theorem unlock_lock_edge w p q tp tq pc pc' addr s :
  tls w !! p = Some tp ->
  synctab (ctx w) !! addr = Some s -> sv_type s = Mtx ->
  let w1 := fst (MutexUnlock p pc addr w) in
  tls w1 !! q = Some tq ->
  let r := MutexLock q pc' addr w1 in
  snd (MutexUnlock p pc addr w) = Ret tt /\ snd r = Ret tt
  /\ exists tq', tls (fst r) !! q = Some tq'
     /\ fast_epoch tq' = epoch_inc (fast_epoch tq)
     /\ clock_le (clock (released (after_event tp EventTypeUnlock addr)))
                 (clock tq')
     /\ clock_le (sv_clock s) (clock tq')
     /\ epoch_inc (fast_epoch tp) <= clock_get (clock tq') (fast_tid tp).
Proof.
  intros Htp Hs Hm.
  destruct (MutexUnlock_known w p tp pc addr s Htp Hs Hm)
    as (w1 & E1 & A1 & B1 & _).
  cbv zeta. rewrite E1. cbn [fst snd]. intros Htq.
  set (s1 := set_sv_clock s
               (clock_release (clock (released (after_event tp EventTypeUnlock addr)))
                              (sv_clock s))).
  assert (Hs1 : synctab (ctx w1) !! addr = Some s1).
  { rewrite B1. apply lookup_insert_eq. }
  destruct (MutexLock_known w1 q tq pc' addr s1 Htq Hs1 Hm) as (w2 & E2 & A2 & _).
  rewrite E2. cbn [fst snd]. split; [reflexivity|]. split; [reflexivity|].
  eexists. split; [rewrite A2; apply lookup_insert_eq|].
  destruct (acquired_after_event tq EventTypeLock addr (sv_clock s1)) as (Ee & Ec & _).
  cbv zeta in Ee, Ec. rewrite Ee, Ec. split; [reflexivity|].
  assert (L : clock_le (clock (released (after_event tp EventTypeUnlock addr)))
                (clock_acquire
                   (clock_set (clock tq) (fast_tid tq) (epoch_inc (fast_epoch tq)))
                   (sv_clock s1))).
  { eapply clock_le_trans; [|apply clock_le_join_r]. apply clock_le_join_r. }
  split; [exact L|]. split.
  - eapply clock_le_trans; [|apply clock_le_join_r]. apply clock_le_join_l.
  - eapply clock_le_get; [exact L|].
    pose proof (released_own (after_event tp EventTypeUnlock addr)) as R.
    now rewrite after_event_tid, after_event_epoch in R.
Qed.

(** X8. [MutexLock] on an address with no sync object does not fail: it
    inserts a fresh read-write mutex for the address and acquires its
    empty clock, so that a [MutexUnlock] that follows returns as well and
    leaves the mutex clock knowing the unlocker's clock. On an address
    that holds a sync object that is not a mutex, [MutexLock] is
    fatal. *)
Theorem MutexLock_creates w p t pc addr :
  tls w !! p = Some t ->
  let r := MutexLock p pc addr w in
  (synctab (ctx w) !! addr = None ->
     snd r = Ret tt
     /\ synctab (ctx (fst r)) = <[addr := MutexVar addr true]> (synctab (ctx w))
     /\ (exists t', tls (fst r) !! p = Some t'
         /\ fast_epoch t' = epoch_inc (fast_epoch t)
         /\ clock t' = clock_set (clock t) (fast_tid t) (epoch_inc (fast_epoch t)))
     /\ forall pc' q tq, tls (fst r) !! q = Some tq ->
          snd (MutexUnlock q pc' addr (fst r)) = Ret tt
          /\ exists s', synctab (ctx (fst (MutexUnlock q pc' addr (fst r)))) !! addr
                        = Some s'
             /\ sv_type s' = Mtx
             /\ epoch_inc (fast_epoch tq) <= clock_get (sv_clock s') (fast_tid tq))
  /\ (forall s, synctab (ctx w) !! addr = Some s -> sv_type s = OtherSync ->
        snd r = Fatal).
Proof.
  intros Ht r. subst r. split.
  - intros Hs.
    use_result (MutexLock_unknown w p t pc addr Ht Hs).
    destruct H0 as (A & B & _). split; [reflexivity|]. split; [exact B|]. split.
    + eexists. split; [rewrite A; apply lookup_insert_eq|].
      destruct (acquired_after_event t EventTypeLock addr ∅) as (Ee & Ec & _).
      cbv zeta in Ee, Ec. rewrite Ee, Ec. split; [reflexivity|].
      unfold clock_acquire, clock_join.
      apply map_eq. intros k. rewrite lookup_union_with, lookup_empty.
      destruct (clock_set (clock t) (fast_tid t) (epoch_inc (fast_epoch t)) !! k);
        reflexivity.
    + intros pc' q tq Hq.
      assert (Hs1 : synctab (ctx w') !! addr = Some (MutexVar addr true)).
      { rewrite B. apply lookup_insert_eq. }
      use_result (MutexUnlock_known w' q tq pc' addr _ Hq Hs1 eq_refl).
      destruct H0 as (_ & B2 & _). split; [reflexivity|].
      eexists. split; [rewrite B2; apply lookup_insert_eq|]. split; [reflexivity|].
      cbn [sv_clock set_sv_clock].
      eapply clock_le_get; [apply clock_le_join_r|].
      pose proof (released_own (after_event tq EventTypeUnlock addr)) as R.
      now rewrite after_event_tid, after_event_epoch in R.
  - intros s Hs Hm. exact (MutexLock_not_mutex w p t pc addr s Ht Hs Hm).
Qed.


End MutexEdges.

Ltac tls_rewrite :=
  world_simpl;
  repeat match goal with H : tls ?w' = _ |- context [tls ?w'] => rewrite H end;
  rewrite ?insert_insert_eq.

Ltac run_exec :=
  repeat (lazymatch goal with
          | |- wp (ReportRace _ _ _ _) _ _ _ =>
              apply wp_keeps_tls;
              [apply ReportRace_keeps_tls | intros ? ? ? | intros ? ?]
          | |- _ => wp_step
          end; world_simpl; hyps_simpl).

Ltac unfold_run :=
  cbn [run];
  unfold Initialize, ThreadCreate, ThreadStart, ThreadFinish, ThreadJoin,
    ThreadDetach, ThreadFree, MutexCreate, MutexDestroy, MutexLock,
    MutexUnlock, MemoryAccess, FuncEntry, FuncExit, SyncTab_insert,
    GetAndLockIfExists, GetAndRemoveIfExists, SyncVar_Read, SyncVar_Write.

Section ThreadLocal.
Context `{Config}.

(** X10. An entry point works on the thread state it is called with: the
    thread states at all other addresses are the same after the call,
    whether it returns or fails. *)
Theorem other_threads_untouched op w q :
  q <> op_thr op ->
  tls (fst (run op w)) !! q = tls w !! q.
Proof.
  intros Hq.
  apply (wp_fst _ (fun w' => tls w' !! q = tls w !! q)).
  destruct op as [p|p u d|p tid|p|p u|p u|p pc a rw|p pc a|p pc a|p pc a
                 |p pc a sz wr|p pc|p]; cbn [op_thr] in Hq; unfold_run.
  all: run_exec.
  all: tls_rewrite; rewrite ?lookup_insert_ne by congruence; reflexivity.
Qed.

End ThreadLocal.

Section TraceInvariant.
Context `{Config}.









End TraceInvariant.

Ltac ctx_simpl :=
  cbn [fst snd tls ctx shadow out races initialized set_tls set_ctx
       set_shadow add_out add_race set_initialized threads thread_seq synctab
       rep set_threads set_thread_seq set_synctab set_rep] in *.

Ltac run_exec_ctx :=
  repeat (lazymatch goal with
          | |- wp (ReportRace _ _ _ _) _ _ _ =>
              apply wp_ReportRace; intros ? (? & ? & ? & ? & ? & ?) ?
          | |- _ => wp_step
          end; world_simpl).

Section RegistryShape.
Context `{Config}.

Lemma length_zinsert {A} i (x : A) l : length (zinsert i x l) = length l.
Proof. unfold zinsert. apply length_insert. Qed.

(** X12. No entry point resizes the thread registry, and only
    [ThreadCreate] moves [thread_seq]: it takes one tid on every call,
    also when it then fails. The first [Initialize] installs a registry
    of [kMaxTid] contexts with the next tid at 1; later calls change
    nothing. *)
Theorem registry_shape op w :
  let w' := fst (run op w) in
  match op with
  | OpInitialize _ =>
      if initialized w then w' = w
      else initialized w' = true
           /\ length (threads (ctx w')) = Z.to_nat kMaxTid
           /\ thread_seq (ctx w') = 1
  | OpThreadCreate _ _ _ =>
      length (threads (ctx w')) = length (threads (ctx w))
      /\ thread_seq (ctx w') = thread_seq (ctx w) + 1
  | _ =>
      length (threads (ctx w')) = length (threads (ctx w))
      /\ thread_seq (ctx w') = thread_seq (ctx w)
  end.
Proof.
  cbv zeta.
  destruct op as [p|p u d|p tid|p|p u|p u|p pc a rw|p pc a|p pc a|p pc a
                 |p pc a sz wr|p pc|p].
  1: destruct (initialized w) eqn:Ei;
     [ cbn [run]; now rewrite Initialize_again |].
  1: apply (wp_fst _ (fun w' => initialized w' = true
              /\ length (threads (ctx w')) = Z.to_nat kMaxTid
              /\ thread_seq (ctx w') = 1)).
  2: apply (wp_fst _ (fun w' =>
              length (threads (ctx w')) = length (threads (ctx w))
              /\ thread_seq (ctx w') = thread_seq (ctx w) + 1)).
  3-13: apply (wp_fst _ (fun w' =>
              length (threads (ctx w')) = length (threads (ctx w))
              /\ thread_seq (ctx w') = thread_seq (ctx w))).
  all: unfold_run; run_exec_ctx.
  all: ctx_simpl; rewrite ?length_zinsert;
    try match goal with Hi : initialized _ = true |- _ => congruence end;
    repeat split; try congruence;
    unfold Context0; cbn [threads]; rewrite ?length_replicate; reflexivity.
Qed.

End RegistryShape.

Section RegistrySteps.
Context `{Config}.

Lemma zlookup_zinsert_same {A} (l : list A) i x c :
  zlookup (zinsert i x l) i = Some c -> c = x.
Proof.
  unfold zlookup, zinsert. destruct (i <? 0); [discriminate|].
  intros E. pose proof (lookup_lt_Some _ _ _ E) as L.
  rewrite length_insert in L.
  rewrite list_lookup_insert_eq in E by exact L. congruence.
Qed.

Lemma zlookup_zinsert_inv {A} (l : list A) i j x c :
  0 <= i ->
  zlookup (zinsert i x l) j = Some c ->
  (j = i /\ c = x) \/ (j <> i /\ zlookup l j = Some c).
Proof.
  intros Hi E. destruct (Z.eq_dec j i) as [->|Hne].
  - left. split; [reflexivity|]. eapply zlookup_zinsert_same; eauto.
  - right. split; [exact Hne|].
    pose proof (zlookup_nonneg _ _ _ E).
    rewrite zlookup_zinsert_ne in E by lia. exact E.
Qed.

Lemma zinsert_zinsert {A} (l : list A) i x y :
  zinsert i x (zinsert i y l) = zinsert i x l.
Proof. unfold zinsert. apply list_insert_insert_eq. Qed.

Lemma status_step_refl s : status_step s s = true.
Proof. now destruct s. Qed.

End RegistrySteps.

(** The registry after a call, slot by slot. *)
Ltac slot_facts :=
  repeat match goal with
         | Hx : zlookup (zinsert ?i ?x ?l) ?i = Some ?c |- _ =>
             apply zlookup_zinsert_same in Hx; subst c
         end;
  rewrite ?zinsert_zinsert in *.

Ltac slot_cases Hc' :=
  lazymatch type of Hc' with
  | zlookup (zinsert ?i ?x ?l) ?j = Some ?c =>
      let Hi := fresh "Hi" in
      assert (Hi : 0 <= i)
        by (eapply zlookup_nonneg; eassumption);
      apply (zlookup_zinsert_inv _ _ _ _ _ Hi) in Hc';
      destruct Hc' as [[-> ->]|[? Hc']]
  | _ => idtac
  end.

Ltac merge_slot Hc :=
  lazymatch type of Hc with
  | zlookup ?l ?i = Some ?c =>
      repeat match goal with
             | Hx : zlookup l i = Some ?c0 |- _ =>
                 lazymatch c0 with
                 | c => fail
                 | _ => rewrite Hc in Hx; injection Hx as <-
                 end
             end
  end.

Ltac status_facts :=
  repeat match goal with
         | Hx : status_eqb (status ?c) _ = _ |- _ =>
             destruct (status c) eqn:?; cbn in Hx; try discriminate Hx; clear Hx
         | Hx : (status_eqb (status ?c) _ || _) = _ |- _ =>
             destruct (status c) eqn:?; cbn in Hx; try discriminate Hx; clear Hx
         | Hx : negb (status_eqb (status ?c) _) = _ |- _ =>
             destruct (status c) eqn:?; cbn in Hx; try discriminate Hx; clear Hx
         | Hx : (_ && negb (status_eqb (status ?c) _)) = _ |- _ => clear Hx
         end.

Section RegistryInvariants.
Context `{Config}.

(** X13. The status of a registry slot moves along the thread life cycle
    only. Across any entry point other than the first [Initialize], and
    whether the call returns or fails, a slot keeps its status or goes
    from Invalid to Created, from Created to Running, from Running to
    Finished or Invalid, or from Finished to Invalid. *)
Theorem status_transitions op w i c c' :
  (forall p, op = OpInitialize p -> initialized w = true) ->
  zlookup (threads (ctx w)) i = Some c ->
  zlookup (threads (ctx (fst (run op w)))) i = Some c' ->
  status_step (status c) (status c') = true.
Proof.
  intros Hinit Hc. revert c'.
  apply (wp_fst _ (fun w' => forall c',
           zlookup (threads (ctx w')) i = Some c' ->
           status_step (status c) (status c') = true)).
  destruct op as [p|p u d|p tid|p|p u|p u|p pc a rw|p pc a|p pc a|p pc a
                 |p pc a sz wr|p pc|p].
  1: { cbn [run]. unfold Initialize. rewrite wp_bind. unfold get_initialized at 1.
       eapply wp_Ret; [reflexivity|]. rewrite (Hinit p eq_refl).
       eapply wp_Ret; [reflexivity|].
       intros c' Hc'. rewrite Hc in Hc'. injection Hc' as <-.
       apply status_step_refl. }
  all: unfold_run; run_exec_ctx.
  all: intros c' Hc'; ctx_simpl; slot_facts;
    repeat match goal with
           | Hx : threads (ctx ?w') = _ |- _ => rewrite Hx in *
           end.
  all: slot_cases Hc'.
  all: try (rewrite Hc in Hc'; injection Hc' as <-; apply status_step_refl).
  all: merge_slot Hc.
  all: status_facts; cbn [status set_status set_thr set_uid set_sync
                          set_detached]; rewrite ?Heqt; try reflexivity.
  all: try match goal with
           | Hx : status ?cc = _ |- context [status ?cc] => rewrite Hx; reflexivity
           end.
Qed.




End RegistryInvariants.

Section ShadowCodec.
Context `{Config}.

Lemma field_split m a x :
  0 < m -> 0 <= a < m -> (a + m * x) mod m = a /\ (a + m * x) / m = x.
Proof.
  intros Hm Ha. split.
  - rewrite Z.mul_comm, Z.mod_add by lia. now apply Z.mod_small.
  - rewrite Z.mul_comm, Z.div_add by lia. rewrite Z.div_small by lia. lia.
Qed.

Lemma mkShadow_unpack tid e a0 a1 wbit :
  0 <= kTidBits -> 0 <= kClkBits ->
  let s := mkShadow tid e a0 a1 wbit in
  Shadow_tid s = tid mod 2 ^ kTidBits
  /\ Shadow_epoch s = e mod 2 ^ kClkBits
  /\ Shadow_addr0 s = a0 mod 8
  /\ Shadow_addr1 s = a1 mod 8
  /\ Shadow_write s = wbit
  /\ 0 <= s < 2 ^ (kTidBits + kClkBits + 7).
Proof.
  intros HT HC s. subst s.
  unfold Shadow_tid, Shadow_epoch, Shadow_addr0, Shadow_addr1, Shadow_write,
    mkShadow, bitfield.
  assert (PT : 0 < 2 ^ kTidBits) by (apply Z.pow_pos_nonneg; lia).
  assert (PC : 0 < 2 ^ kClkBits) by (apply Z.pow_pos_nonneg; lia).
  pose proof (Z.mod_pos_bound tid _ PT) as Bt.
  pose proof (Z.mod_pos_bound e _ PC) as Be.
  assert (B0 : 0 <= a0 mod 2 ^ 3 < 8) by (apply Z.mod_pos_bound; lia).
  assert (B1 : 0 <= a1 mod 2 ^ 3 < 8) by (apply Z.mod_pos_bound; lia).
  set (wb := if wbit then 1 else 0).
  assert (Bw : 0 <= wb < 2) by (subst wb; destruct wbit; lia).
  set (y1 := a1 mod 2 ^ 3 + 8 * wb).
  set (y0 := a0 mod 2 ^ 3 + 8 * y1).
  set (x := e mod 2 ^ kClkBits + 2 ^ kClkBits * y0).
  destruct (field_split (2 ^ kTidBits) (tid mod 2 ^ kTidBits) x PT Bt) as [M1 D1].
  destruct (field_split (2 ^ kClkBits) (e mod 2 ^ kClkBits) y0 PC Be) as [M2 D2].
  destruct (field_split 8 (a0 mod 2 ^ 3) y1 ltac:(lia) B0) as [M3 D3].
  destruct (field_split 8 (a1 mod 2 ^ 3) wb ltac:(lia) B1) as [M4 D4].
  fold x in M2, D2. fold y0 in M3, D3. fold y1 in M4, D4.
  assert (E2 : (tid mod 2 ^ kTidBits + 2 ^ kTidBits * x) / 2 ^ (kTidBits + kClkBits)
               = y0).
  { rewrite Z.pow_add_r by lia. rewrite <- Z.div_div by lia. now rewrite D1, D2. }
  assert (E3 : (tid mod 2 ^ kTidBits + 2 ^ kTidBits * x)
                 / 2 ^ (kTidBits + kClkBits + 3) = y1).
  { rewrite (Z.pow_add_r _ _ 3) by lia. rewrite <- Z.div_div by lia.
    rewrite E2. exact D3. }
  assert (E4 : (tid mod 2 ^ kTidBits + 2 ^ kTidBits * x)
                 / 2 ^ (kTidBits + kClkBits + 6) = wb).
  { replace (kTidBits + kClkBits + 6) with (kTidBits + kClkBits + 3 + 3) by lia.
    rewrite (Z.pow_add_r _ _ 3) by lia. rewrite <- Z.div_div by lia.
    rewrite E3. exact D4. }
  rewrite M1, D1, M2, E2, M3, E3, M4, E4.
  repeat split; try reflexivity.
  - subst wb. now destruct wbit.
  - assert (0 <= y0) by (subst y0 y1; lia).
    assert (0 <= x) by (subst x; nia).
    nia.
  - replace (kTidBits + kClkBits + 7) with (kTidBits + (kClkBits + 7)) by lia.
    rewrite Z.pow_add_r by lia. rewrite (Z.pow_add_r _ kClkBits 7) by lia.
    assert (y0 < 2 ^ 7) by (subst y0 y1; lia).
    assert (0 <= y0) by (subst y0 y1; lia).
    assert (x < 2 ^ kClkBits * 2 ^ 7) by (subst x; nia).
    nia.
Qed.

(** X15. The fields of a shadow value read back as stored: packing a
    tid, an epoch, two byte offsets and the write flag and reading the
    fields gives the tid and the epoch truncated to their bit-fields, the
    offsets truncated to 3 bits, and the flag; the value fits
    [kTidBits + kClkBits + 7] bits. *)
Theorem Shadow_fields tid e a0 a1 wbit :
  0 <= kTidBits -> 0 <= kClkBits ->
  let s := mkShadow tid e a0 a1 wbit in
  Shadow_tid s = tid mod 2 ^ kTidBits
  /\ Shadow_epoch s = e mod 2 ^ kClkBits
  /\ Shadow_addr0 s = a0 mod 8
  /\ Shadow_addr1 s = a1 mod 8
  /\ Shadow_write s = wbit
  /\ 0 <= s < 2 ^ (kTidBits + kClkBits + 7).
Proof. intros HT HC. exact (mkShadow_unpack tid e a0 a1 wbit HT HC). Qed.

End ShadowCodec.

Section AccessPaths.
Context `{Config}.

(** [MemoryAccess] when its scan leaves no racy access: it returns, and
    only the caller's state and the shadow memory change. *)
Lemma MemoryAccess_quiet w thr t pc addr size wr :
  tls w !! thr = Some t ->
  let r := access_scan t pc addr size wr (shadow w) in
  fst r = true \/ snd (snd r) = 0 ->
  exists w', MemoryAccess thr pc addr size wr w = (w', Ret tt)
  /\ (tls w' = <[thr := access_state t pc]> (tls w)
      /\ shadow w'
         = (if fst r || snd (fst (snd r)) then fst (fst (snd r))
            else StoreShadow (fst (fst (snd r))) (access_fallback t addr)
                             (access_desc t addr size wr))
      /\ races w' = races w /\ ctx w' = ctx w).
Proof.
  intros Ht r Hr. subst r.
  unfold MemoryAccess, access_scan, access_fallback, access_desc, access_state in *.
  cbv zeta. cbn [fst snd].
  set (r := MemoryAccess_scan _ _ _ _ _ _ _ _ _ _) in *.
  destruct (fst r) eqn:Ed; destruct (snd (fst (snd r))) eqn:Erp;
    (destruct Hr as [Hr|Hr]; [try discriminate Hr|]).
  all: debug_cases.
  all: eexists; split;
    [ repeat mstep; unfold get_shadow, put_shadow;
      repeat mstep; cbn [shadow set_tls add_out fst snd]; fold r;
      rewrite ?Ed, ?Erp, ?Hr; cbn [negb Z.eqb]; repeat mstep; reflexivity
    | cbn [tls ctx shadow races set_tls set_shadow add_out orb]; repeat split ].
Qed.

End AccessPaths.

Section ScanPaths.
Context `{Config}.

Lemma MemoryAccess1_true t fs se s0 sp wr st :
  fst (MemoryAccess1 t fs se s0 sp wr st) = true ->
  snd (MemoryAccess1 t fs se s0 sp wr st) = st.
Proof.
  destruct st as [[sh repl] racy]. unfold MemoryAccess1.
  repeat match goal with
         | |- context [if ?b then _ else _] => destruct b
         end; cbn [fst snd]; intros E; try discriminate E; reflexivity.
Qed.

Lemma access_scan_first_same t pc addr size wr sh :
  0 < kShadowCnt ->
  slot_same (fast_tid t) (fast_synch_epoch t) (access_desc t addr size wr) wr
    (LoadShadow sh (MemToShadow addr + MemoryAccess_off addr size mod kShadowCnt))
  = true ->
  access_scan t pc addr size wr sh = (true, (sh, false, 0)).
Proof.
  intros HK Hs. unfold access_scan.
  destruct (Z.to_nat kShadowCnt) as [|n] eqn:En; [lia|].
  cbn [MemoryAccess_scan]. cbv zeta. rewrite Z.add_0_l.
  pose proof (MemoryAccess1_classify (access_state t pc)
                (fast_tid (StatInc t StatMop),
                 epoch_inc (fast_epoch (StatInc t StatMop)))
                (fast_synch_epoch (access_state t pc))
                (access_desc t addr size wr) wr
                (MemToShadow addr + MemoryAccess_off addr size mod kShadowCnt)
                sh false 0) as [C _].
  cbv zeta in C.
  pose proof (access_state_fields t pc) as (_ & Fse & _).
  pose proof (StatInc_fields t StatMop) as (Stid & _).
  match type of C with
  | ?l = _ => assert (C' : l = true)
                by (rewrite C; cbn [fst]; rewrite Stid, Fse; exact Hs)
  end.
  rewrite C'. f_equal. now apply MemoryAccess1_true.
Qed.

(** X16. The fast path of [MemoryAccess]. When the first slot the scan
    looks at -- the one at offset [off] of the cell -- already summarizes
    the access (same byte range, same thread, an epoch within the current
    synch epoch, a write or no weaker than the access), [MemoryAccess]
    returns with the shadow memory unchanged and without a report; the
    thread's epoch has advanced and the event is traced all the same. *)
Theorem MemoryAccess_fast_path w thr t pc addr size wr :
  tls w !! thr = Some t -> 0 < kShadowCnt ->
  slot_same (fast_tid t) (fast_synch_epoch t) (access_desc t addr size wr) wr
    (LoadShadow (shadow w)
                (MemToShadow addr + MemoryAccess_off addr size mod kShadowCnt))
  = true ->
  let r := MemoryAccess thr pc addr size wr w in
  snd r = Ret tt
  /\ shadow (fst r) = shadow w
  /\ races (fst r) = races w
  /\ ctx (fst r) = ctx w
  /\ tls (fst r) = <[thr := access_state t pc]> (tls w)
  /\ fast_epoch (access_state t pc) = epoch_inc (fast_epoch t).
Proof.
  intros Ht HK Hs r. subst r.
  pose proof (access_scan_first_same t pc addr size wr (shadow w) HK Hs) as Es.
  destruct (MemoryAccess_quiet w thr t pc addr size wr Ht) as (w' & E & A & B & C & D).
  { left. now rewrite Es. }
  rewrite E. cbn [fst snd]. rewrite Es in B. cbn in B.
  repeat split; try assumption. apply access_state_fields.
Qed.

Variables (t : ThreadState) (fs : Z * Z) (se s0 base off : Z) (wr : bool).

Lemma scan_zero_replaced n : forall i sh racy,
  (forall i', i <= i' < i + Z.of_nat n ->
     LoadShadow sh (base + (i' + off) mod kShadowCnt) = 0) ->
  MemoryAccess_scan t fs se s0 base off wr n i (sh, true, racy)
  = (false, (sh, true, racy)).
Proof.
  induction n as [|n IH]; intros i sh racy Hz; [reflexivity|].
  cbn [MemoryAccess_scan]. cbv zeta. unfold MemoryAccess1.
  rewrite (Hz i ltac:(lia)). cbn [Z.eqb negb fst snd].
  apply IH. intros i' Hi'. apply Hz. lia.
Qed.

Lemma scan_zero n : forall sh racy,
  0 < kShadowCnt -> Z.of_nat (S n) <= kShadowCnt ->
  (forall i', 0 <= i' < Z.of_nat (S n) ->
     LoadShadow sh (base + (i' + off) mod kShadowCnt) = 0) ->
  MemoryAccess_scan t fs se s0 base off wr (S n) 0 (sh, false, racy)
  = (false, (StoreShadow sh (base + off mod kShadowCnt) s0, true, racy)).
Proof.
  intros sh racy HK Hn Hz.
  cbn [MemoryAccess_scan]. cbv zeta. unfold MemoryAccess1.
  rewrite (Hz 0 ltac:(lia)). cbn [Z.eqb negb fst snd]. rewrite Z.add_0_l.
  apply scan_zero_replaced. intros i' Hi'.
  rewrite Load_Store. destruct (decide _) as [E|_]; [|apply Hz; lia].
  exfalso.
  apply (mod_shift_ne off i' HK ltac:(lia)).
  replace (off + i') with (i' + off) by lia. lia.
Qed.

End ScanPaths.

Section AccessTheorems.
Context `{Config}.

Lemma access_scan_empty t pc addr size wr sh :
  0 < kShadowCnt ->
  (forall j, 0 <= j < kShadowCnt -> LoadShadow sh (MemToShadow addr + j) = 0) ->
  access_scan t pc addr size wr sh
  = (false, (StoreShadow sh (MemToShadow addr
                             + MemoryAccess_off addr size mod kShadowCnt)
                         (access_desc t addr size wr), true, 0)).
Proof.
  intros HK Hz. unfold access_scan.
  destruct (Z.to_nat kShadowCnt) as [|n] eqn:En; [lia|].
  apply scan_zero; [exact HK|lia|].
  intros i' Hi'. apply Hz. now apply Z.mod_pos_bound.
Qed.

(** X17. The first access to a word. When every slot of the cell is
    empty, [MemoryAccess] returns, reports nothing, and stores the
    descriptor of the access in the slot at offset [off] of the cell --
    the first one the scan looks at -- leaving every other shadow slot as
    it was. *)
Theorem MemoryAccess_empty_cell w thr t pc addr size wr :
  tls w !! thr = Some t -> 0 < kShadowCnt ->
  (forall j, 0 <= j < kShadowCnt ->
     LoadShadow (shadow w) (MemToShadow addr + j) = 0) ->
  let r := MemoryAccess thr pc addr size wr w in
  let slot := MemToShadow addr + MemoryAccess_off addr size mod kShadowCnt in
  snd r = Ret tt
  /\ races (fst r) = races w
  /\ shadow (fst r) = StoreShadow (shadow w) slot (access_desc t addr size wr)
  /\ LoadShadow (shadow (fst r)) slot = access_desc t addr size wr
  /\ (forall p, p <> slot -> LoadShadow (shadow (fst r)) p = LoadShadow (shadow w) p)
  /\ tls (fst r) = <[thr := access_state t pc]> (tls w)
  /\ ctx (fst r) = ctx w.
Proof.
  intros Ht HK Hz r slot. subst r slot.
  pose proof (access_scan_empty t pc addr size wr (shadow w) HK Hz) as Es.
  destruct (MemoryAccess_quiet w thr t pc addr size wr Ht) as (w' & E & A & B & C & D).
  { right. now rewrite Es. }
  rewrite E. cbn [fst snd]. rewrite Es in B. cbn [fst snd orb] in B.
  split; [reflexivity|]. split; [exact C|]. split; [exact B|].
  split; [rewrite B, Load_Store; now destruct (decide _)|].
  split; [|now split].
  intros p Hp. rewrite B, Load_Store. destruct (decide _); congruence.
Qed.

Lemma land_7 a : Z.land a 7 = a mod 8.
Proof. change 7 with (Z.ones 3). now rewrite Z.land_ones by lia. Qed.

Lemma access_desc_range t addr size wr :
  0 <= kTidBits -> 0 <= kClkBits -> 1 <= size <= 8 ->
  let s0 := access_desc t addr size wr in
  Shadow_tid s0 = fast_tid t mod 2 ^ kTidBits
  /\ Shadow_epoch s0 = epoch_inc (fast_epoch t)
  /\ Shadow_write s0 = wr
  /\ Shadow_addr0 s0 = addr mod 8
  /\ Shadow_addr1 s0 = Z.min (addr mod 8 + size - 1) 7
  /\ Shadow_addr0 s0 <= Shadow_addr1 s0 <= 7.
Proof.
  intros HT HC Hsz s0. subst s0. unfold access_desc.
  pose proof (StatInc_fields t StatMop) as (Stid & Sep & _).
  rewrite Stid, Sep.
  destruct (mkShadow_unpack (fast_tid t) (epoch_inc (fast_epoch t)) (Z.land addr 7)
              (Z.min (u64 (Z.land addr 7 + size - 1)) 7) wr HT HC)
    as (A & B & C & D & E & _).
  cbv zeta in A, B, C, D, E. rewrite A, B, C, D, E.
  rewrite land_7.
  assert (Hm : 0 <= addr mod 8 < 8) by (apply Z.mod_pos_bound; lia).
  assert (Hu : u64 (addr mod 8 + size - 1) = addr mod 8 + size - 1).
  { unfold u64. apply Z.mod_small. lia. }
  rewrite Hu.
  assert (P2 : 0 < 2 ^ kClkBits) by (apply Z.pow_pos_nonneg; lia).
  split; [reflexivity|]. split.
  { unfold epoch_inc, bitfield. now rewrite Z.mod_mod by lia. }
  split; [reflexivity|].
  rewrite (Z.mod_small (addr mod 8) 8) by lia.
  rewrite (Z.mod_small (Z.min _ 7) 8) by lia.
  repeat split; lia.
Qed.

(** X18. The descriptor [MemoryAccess] builds for an access of 1 to 8
    bytes: the thread's tid and its new epoch, the write flag, and the
    byte range of the access within the 8-byte word of its address, from
    [addr mod 8] to the last byte of the access or to byte 7, whichever
    comes first. Bytes of the access beyond the word are not recorded. *)
Theorem access_desc_fields t addr size wr :
  0 <= kTidBits -> 0 <= kClkBits -> 1 <= size <= 8 ->
  let s0 := access_desc t addr size wr in
  Shadow_tid s0 = fast_tid t mod 2 ^ kTidBits
  /\ Shadow_epoch s0 = epoch_inc (fast_epoch t)
  /\ Shadow_write s0 = wr
  /\ Shadow_addr0 s0 = addr mod 8
  /\ Shadow_addr1 s0 = Z.min (addr mod 8 + size - 1) 7
  /\ Shadow_addr0 s0 <= Shadow_addr1 s0 <= 7.
Proof.
  intros HT HC Hsz. exact (access_desc_range t addr size wr HT HC Hsz).
Qed.

(** X19. Repeating an access. After the first access to a word (all
    slots of the cell empty), the same access again -- same address,
    size and kind, by the same thread, with no release in between -- is
    summarized by the slot the first one wrote: the second call returns
    with the shadow memory unchanged and without a report. *)
Theorem MemoryAccess_repeat w thr t pc pc' addr size wr :
  tls w !! thr = Some t -> 0 < kShadowCnt ->
  0 <= kTidBits -> 0 <= kClkBits -> 1 <= size <= 8 ->
  0 <= fast_tid t < 2 ^ kTidBits ->
  fast_synch_epoch t <= epoch_inc (fast_epoch t) ->
  epoch_inc (fast_epoch t) <> 0 ->
  (forall j, 0 <= j < kShadowCnt ->
     LoadShadow (shadow w) (MemToShadow addr + j) = 0) ->
  let w1 := fst (MemoryAccess thr pc addr size wr w) in
  let r := MemoryAccess thr pc' addr size wr w1 in
  snd r = Ret tt
  /\ shadow (fst r) = shadow w1
  /\ races (fst r) = races w
  /\ LoadShadow (shadow (fst r))
       (MemToShadow addr + MemoryAccess_off addr size mod kShadowCnt)
     = access_desc t addr size wr.
Proof.
  intros Ht HK HT HC Hsz Htid Hfse Hne Hz. cbv zeta.
  pose proof (access_scan_empty t pc addr size wr (shadow w) HK Hz) as Es.
  destruct (MemoryAccess_quiet w thr t pc addr size wr Ht)
    as (w1' & E1 & T1 & B1 & R1 & _).
  { right. now rewrite Es. }
  rewrite Es in B1. cbn [fst snd orb] in B1.
  assert (L1 : LoadShadow (shadow w1')
                 (MemToShadow addr + MemoryAccess_off addr size mod kShadowCnt)
               = access_desc t addr size wr).
  { rewrite B1, Load_Store. now destruct (decide _). }
  rewrite E1. cbn [fst].
  set (w1 := w1') in *.
  assert (Ht1 : tls w1 !! thr = Some (access_state t pc)).
  { rewrite T1. apply lookup_insert_eq. }
  pose proof (access_state_fields t pc) as (Ftid & Ffse & _ & Fep).
  destruct (access_desc_range t addr size wr HT HC Hsz)
    as (A & B & C & D & E & _).
  destruct (access_desc_range (access_state t pc) addr size wr HT HC Hsz)
    as (_ & _ & _ & D' & E' & _).
  cbv zeta in A, B, C, D, E, D', E'.
  assert (Hs : slot_same (fast_tid (access_state t pc))
                 (fast_synch_epoch (access_state t pc))
                 (access_desc (access_state t pc) addr size wr) wr
                 (LoadShadow (shadow w1)
                    (MemToShadow addr + MemoryAccess_off addr size mod kShadowCnt))
               = true).
  { rewrite L1. unfold slot_same. rewrite A, B, C, D, E, D', E', Ftid, Ffse.
    rewrite (Z.mod_small _ _ Htid), !Z.eqb_refl.
    assert (Hnz : (access_desc t addr size wr =? 0) = false).
    { apply Z.eqb_neq. intros E0. apply Hne. rewrite <- B, E0.
      unfold Shadow_epoch. rewrite Z.div_0_l, Z.mod_0_l; try reflexivity.
      - apply Z.pow_nonzero; lia.
      - apply Z.pow_nonzero; lia. }
    rewrite Hnz. cbn [negb andb].
    rewrite (proj2 (Z.geb_le _ _) Hfse). cbn [andb].
    now destruct wr. }
  pose proof (access_scan_first_same (access_state t pc) pc' addr size wr
                (shadow w1) HK Hs) as Es2.
  destruct (MemoryAccess_quiet w1 thr (access_state t pc) pc' addr size wr Ht1)
    as (w2 & E2 & _ & B2 & R2 & _).
  { left. now rewrite Es2. }
  rewrite E2. cbn [fst snd]. rewrite Es2 in B2. cbn [fst snd orb] in B2.
  split; [reflexivity|]. split; [exact B2|]. split; [congruence|].
  rewrite B2. exact L1.
Qed.

End AccessTheorems.

Section RestoreLocality.
Context `{Config}.

Lemma RestoreStack_replay_ext evs evs' n : forall i pos st,
  (forall j, i <= j < i + Z.of_nat n -> evs !! j = evs' !! j) ->
  RestoreStack_replay evs n i pos st = RestoreStack_replay evs' n i pos st.
Proof.
  induction n as [|n IH]; intros i pos st Hev; [reflexivity|].
  cbn [RestoreStack_replay]. rewrite (Hev i ltac:(lia)). cbv zeta.
  assert (Hn : forall j, i + 1 <= j < i + 1 + Z.of_nat n -> evs !! j = evs' !! j)
    by (intros j Hj; apply Hev; lia).
  repeat match goal with
         | |- context [if ?b then _ else _] => destruct b
         | |- context [match ?x with Some _ => _ | None => _ end] => destruct x
         end; try reflexivity; now apply IH.
Qed.

Lemma RestoreStack_pure tid epoch stack n w :
  fst (RestoreStack tid epoch stack n w) = w.
Proof.
  apply (wp_fst _ (fun w' => w' = w)). unfold RestoreStack.
  repeat (wp_step; world_simpl); reflexivity.
Qed.

(** X20. [RestoreStack] only reads. It leaves the whole state as it is,
    and of the trace of the thread it looks at the headers and the ring
    entries of the first partition only: whatever the epoch asked for,
    changing the events at ring indices [kTracePartSize] and above changes
    no result. *)
Theorem RestoreStack_reads_first_partition w p t evs' tid epoch stack n :
  0 < kTracePartSize ->
  tls w !! p = Some t ->
  (forall j, 0 <= j < kTracePartSize -> events (trace t) !! j = evs' !! j) ->
  let t' := set_trace t (mkTrace (headers (trace t)) evs') in
  let w' := set_tls w (<[p := t']> (tls w)) in
  fst (RestoreStack tid epoch stack n w) = w
  /\ snd (RestoreStack tid epoch stack n w')
     = snd (RestoreStack tid epoch stack n w).
Proof.
  intros HP Ht Hev t' w'. split; [apply RestoreStack_pure|].
  unfold RestoreStack, bind, thread_at, load_thr. subst w'. cbn [ctx tls set_tls].
  destruct (zlookup (threads (ctx w)) tid) as [c|]; [|reflexivity].
  destruct (negb _); [reflexivity|].
  destruct (thr c) as [q|]; [|reflexivity].
  cbn [tls set_tls]. rewrite lookup_insert. case_decide as Hq.
  - subst q. rewrite Ht. subst t'. cbn [trace set_trace headers events].
    destruct (epoch <? _); [reflexivity|].
    rewrite (RestoreStack_replay_ext evs' (events (trace t))).
    + destruct (RestoreStack_replay _ _ _ _ _) as [[pos st]|]; [|reflexivity].
      destruct (RestoreStack_reverse _ _ _ _); reflexivity.
    + intros j Hj. symmetry. apply Hev.
      pose proof (Z.mod_pos_bound epoch kTracePartSize HP). lia.
  - destruct (tls w !! q) as [t0|]; [|reflexivity].
    destruct (epoch <? _); [reflexivity|].
    destruct (RestoreStack_replay _ _ _ _ _) as [[pos st]|]; [|reflexivity].
    destruct (RestoreStack_reverse _ _ _ _); reflexivity.
Qed.

End RestoreLocality.

Section ReportOutcomes.
Context `{Config}.






End ReportOutcomes.

Section ReverseLoop.

Lemma zlookup_zinsert_any {A} (l : list A) i j x :
  0 <= i < Z.of_nat (length l) ->
  zlookup (zinsert i x l) j = if decide (j = i) then Some x else zlookup l j.
Proof.
  intros Hi. destruct (decide (j = i)) as [->|Hne].
  - destruct (zlookup_lt l i Hi) as [y Hy]. eapply zlookup_zinsert_eq; eauto.
  - unfold zlookup, zinsert. destruct (j <? 0) eqn:Ej; [reflexivity|].
    apply list_lookup_insert_ne. lia.
Qed.

Lemma zinsert_length {A} i (x : A) l : length (zinsert i x l) = length l.
Proof. unfold zinsert. apply length_insert. Qed.

Lemma zlookup_out {A} (l : list A) k :
  k < 0 \/ Z.of_nat (length l) <= k -> zlookup l k = None.
Proof.
  intros Hk. unfold zlookup. destruct (k <? 0) eqn:E; [reflexivity|].
  apply lookup_ge_None. lia.
Qed.

Variables (s0 : list (option Z)) (pos : Z).

(** The buffer after the iterations below [i]: mirrored outside the
    middle part that is still to do. *)
Let inv (st : list (option Z)) (i : Z) : Prop :=
  length st = length s0
  /\ forall k, zlookup st k
     = zlookup s0 (if (0 <=? k) && (k <? pos) && ((k <? i) || (pos - 1 - i <? k))
                   then pos - 1 - k else k).

Lemma reverse_step st i :
  0 <= i -> i <= pos - 1 - i -> pos <= Z.of_nat (length s0) -> pos < 2 ^ 64 ->
  inv st i ->
  exists st', RestoreStack_reverse 1 i pos st = Some st' /\ inv st' (i + 1).
Proof.
  intros Hi Hj Hlen H64 [Il Iv].
  cbn [RestoreStack_reverse]. cbv zeta.
  assert (Hu : u64 (pos - i - 1) = pos - i - 1).
  { unfold u64. apply Z.mod_small. lia. }
  rewrite Hu. unfold stack_read, stack_write.
  destruct (zlookup_lt st i ltac:(lia)) as [pc Hpc].
  destruct (zlookup_lt st (pos - i - 1) ltac:(lia)) as [x Hx].
  rewrite Hpc, Hx.
  rewrite (proj2 (Z.leb_le 0 i)) by lia.
  rewrite (proj2 (Z.ltb_lt i _)) by lia. cbn [andb].
  rewrite zinsert_length.
  rewrite (proj2 (Z.leb_le 0 (pos - i - 1))) by lia.
  rewrite (proj2 (Z.ltb_lt (pos - i - 1) _)) by lia. cbn [andb].
  eexists. split; [reflexivity|]. split.
  { now rewrite !zinsert_length. }
  intros k.
  rewrite zlookup_zinsert_any by (rewrite zinsert_length; lia).
  rewrite zlookup_zinsert_any by lia.
  pose proof (Iv i) as Ii. pose proof (Iv (pos - i - 1)) as Ij. pose proof (Iv k) as Ik.
  rewrite Hpc in Ii. rewrite Hx in Ij.
  destruct (decide (k = pos - i - 1)) as [->|Hkj].
  - rewrite Ii. f_equal.
    repeat match goal with
           | |- context [?a <=? ?b] => destruct (Z.leb_spec a b)
           | |- context [?a <? ?b] => destruct (Z.ltb_spec a b)
           end; cbn [andb orb]; lia.
  - destruct (decide (k = i)) as [->|Hki].
    + rewrite Ij. f_equal.
      repeat match goal with
             | |- context [?a <=? ?b] => destruct (Z.leb_spec a b)
             | |- context [?a <? ?b] => destruct (Z.ltb_spec a b)
             end; cbn [andb orb]; lia.
    + rewrite Ik. f_equal.
      repeat match goal with
             | |- context [?a <=? ?b] => destruct (Z.leb_spec a b)
             | |- context [?a <? ?b] => destruct (Z.ltb_spec a b)
             end; cbn [andb orb]; lia.
Qed.

Lemma reverse_split n1 : forall n2 i st,
  RestoreStack_reverse (n1 + n2) i pos st
  = match RestoreStack_reverse n1 i pos st with
    | Some st1 => RestoreStack_reverse n2 (i + Z.of_nat n1) pos st1
    | None => None
    end.
Proof.
  induction n1 as [|n1 IH]; intros n2 i st.
  { cbn. now rewrite Z.add_0_r. }
  cbn [Nat.add RestoreStack_reverse]. cbv zeta.
  destruct (stack_read st i); [|reflexivity].
  destruct (stack_read st _); [|reflexivity].
  destruct (stack_write st i _); [|reflexivity].
  destruct (stack_write _ _ _); [|reflexivity].
  rewrite IH. replace (i + 1 + Z.of_nat n1) with (i + Z.of_nat (S n1)) by lia.
  reflexivity.
Qed.

Lemma reverse_good n : forall i st,
  0 <= i -> 2 * (i + Z.of_nat n) <= pos + 1 ->
  pos <= Z.of_nat (length s0) -> pos < 2 ^ 64 ->
  inv st i ->
  exists st', RestoreStack_reverse n i pos st = Some st'
              /\ inv st' (i + Z.of_nat n).
Proof.
  induction n as [|n IH]; intros i st Hi Hn Hlen H64 I.
  { exists st. split; [reflexivity|]. now rewrite Z.add_0_r. }
  destruct (reverse_step st i Hi ltac:(lia) Hlen H64 I) as (st1 & E1 & I1).
  destruct (IH (i + 1) st1 ltac:(lia) ltac:(lia) Hlen H64 I1) as (st2 & E2 & I2).
  exists st2. split.
  - change (S n) with (1 + n)%nat. rewrite reverse_split, E1.
    replace (i + Z.of_nat 1) with (i + 1) by lia. exact E2.
  - replace (i + Z.of_nat (S n)) with (i + 1 + Z.of_nat n) by lia. exact I2.
Qed.

Lemma inv_start : inv s0 0.
Proof.
  split; [reflexivity|]. intros k. f_equal.
  repeat match goal with
         | |- context [?a <=? ?b] => destruct (Z.leb_spec a b)
         | |- context [?a <? ?b] => destruct (Z.ltb_spec a b)
         end; cbn [andb orb]; lia.
Qed.

Lemma reverse_last st h :
  1 <= h -> pos = 2 * h -> pos <= Z.of_nat (length s0) -> pos < 2 ^ 64 ->
  inv st h ->
  exists st', RestoreStack_reverse 1 h pos st = Some st'
    /\ length st' = length s0
    /\ forall k, zlookup st' k = zlookup s0 (reversed_index pos k).
Proof.
  intros Hh Hp Hlen H64 [Il Iv].
  cbn [RestoreStack_reverse]. cbv zeta.
  assert (Hu : u64 (pos - h - 1) = h - 1).
  { unfold u64. rewrite Z.mod_small by lia. lia. }
  rewrite Hu. unfold stack_read, stack_write.
  destruct (zlookup_lt st h ltac:(lia)) as [pc Hpc].
  destruct (zlookup_lt st (h - 1) ltac:(lia)) as [x Hx].
  rewrite Hpc, Hx.
  rewrite (proj2 (Z.leb_le 0 h)) by lia.
  rewrite (proj2 (Z.ltb_lt h _)) by lia. cbn [andb].
  rewrite zinsert_length.
  rewrite (proj2 (Z.leb_le 0 (h - 1))) by lia.
  rewrite (proj2 (Z.ltb_lt (h - 1) _)) by lia. cbn [andb].
  eexists. split; [reflexivity|]. split.
  { now rewrite !zinsert_length. }
  intros k.
  rewrite zlookup_zinsert_any by (rewrite zinsert_length; lia).
  rewrite zlookup_zinsert_any by lia.
  pose proof (Iv h) as Ii. pose proof (Iv (h - 1)) as Ij. pose proof (Iv k) as Ik.
  rewrite Hpc in Ii. rewrite Hx in Ij.
  unfold reversed_index.
  assert (Ev : Z.even pos = true) by (subst pos; now rewrite Z.even_mul).
  assert (Hd : pos / 2 = h) by (subst pos; now rewrite Z.mul_comm, Z.div_mul).
  rewrite Ev, Hd.
  destruct (decide (k = h - 1)) as [->|Hkj].
  - rewrite Ii. f_equal.
    repeat match goal with
           | |- context [?a <=? ?b] => destruct (Z.leb_spec a b)
           | |- context [?a <? ?b] => destruct (Z.ltb_spec a b)
           | |- context [?a =? ?b] => destruct (Z.eqb_spec a b)
           end; cbn [andb orb negb]; lia.
  - destruct (decide (k = h)) as [->|Hki].
    + rewrite Ij. f_equal.
      repeat match goal with
             | |- context [?a <=? ?b] => destruct (Z.leb_spec a b)
             | |- context [?a <? ?b] => destruct (Z.ltb_spec a b)
             | |- context [?a =? ?b] => destruct (Z.eqb_spec a b)
             end; cbn [andb orb negb]; lia.
    + rewrite Ik. f_equal.
      repeat match goal with
             | |- context [?a <=? ?b] => destruct (Z.leb_spec a b)
             | |- context [?a <? ?b] => destruct (Z.ltb_spec a b)
             | |- context [?a =? ?b] => destruct (Z.eqb_spec a b)
             end; cbn [andb orb negb]; lia.
Qed.

Lemma RestoreStack_reverse_mirror :
  pos <= Z.of_nat (length s0) -> pos < 2 ^ 64 ->
  (1 <= pos ->
   exists st', RestoreStack_reverse (Z.to_nat (pos / 2 + 1)) 0 pos s0 = Some st'
     /\ length st' = length s0
     /\ forall k, zlookup st' k = zlookup s0 (reversed_index pos k))
  /\ (pos = 0 -> Z.of_nat (length s0) < 2 ^ 64 ->
      RestoreStack_reverse (Z.to_nat (pos / 2 + 1)) 0 pos s0 = None).
Proof.
  intros Hlen H64. split.
  - intros Hp.
    pose proof (Z.div_mod pos 2 ltac:(lia)) as D.
    pose proof (Z.mod_pos_bound pos 2 ltac:(lia)) as B.
    destruct (Z.even pos) eqn:Ev.
    + (* even *)
      assert (Hm : pos mod 2 = 0).
      { rewrite Zmod_even, Ev. reflexivity. }
      set (h := pos / 2) in *.
      replace (Z.to_nat (h + 1)) with (Z.to_nat h + 1)%nat by lia.
      rewrite reverse_split.
      destruct (reverse_good (Z.to_nat h) 0 s0 ltac:(lia) ltac:(lia) Hlen H64
                  inv_start) as (st1 & E1 & I1).
      rewrite E1. rewrite Z.add_0_l, Z2Nat.id in * by lia.
      apply (reverse_last st1 h); try lia. exact I1.
    + (* odd *)
      assert (Hm : pos mod 2 = 1).
      { rewrite Zmod_even, Ev. reflexivity. }
      set (h := pos / 2) in *.
      destruct (reverse_good (Z.to_nat (h + 1)) 0 s0 ltac:(lia) ltac:(lia) Hlen H64
                  inv_start) as (st1 & E1 & Il & Iv).
      exists st1. split; [exact E1|]. split; [exact Il|].
      intros k. rewrite Iv. f_equal. unfold reversed_index. rewrite Ev.
      cbn [andb negb]. rewrite andb_true_r.
      rewrite Z.add_0_l, Z2Nat.id by lia.
      repeat match goal with
             | |- context [?a <=? ?b] => destruct (Z.leb_spec a b)
             | |- context [?a <? ?b] => destruct (Z.ltb_spec a b)
             end; cbn [andb orb]; lia.
  - intros -> Hl.
    change (Z.to_nat (0 / 2 + 1)) with 1%nat.
    cbn [RestoreStack_reverse]. cbv zeta. unfold stack_read.
    rewrite (zlookup_out s0 (u64 (0 - 0 - 1))).
    + now destruct (zlookup s0 0).
    + right. change (u64 (0 - 0 - 1)) with (2 ^ 64 - 1). lia.
Qed.

(** X22. The reversal loop of [RestoreStack], run on a buffer that holds
    [pos] frames. For an odd count it reverses the first [pos] entries.
    For an even count its last iteration, [i = pos / 2], swaps the two
    middle entries a second time, so that they end up where they were:
    all other entries are mirrored, those two are not. Entries from
    [pos] on are left alone. With no frame at all ([pos = 0]) the only
    iteration reads [stack[2^64 - 1]], outside the buffer. *)
Theorem RestoreStack_reverse_spec :
  pos <= Z.of_nat (length s0) -> pos < 2 ^ 64 ->
  (1 <= pos ->
   exists st', RestoreStack_reverse (Z.to_nat (pos / 2 + 1)) 0 pos s0 = Some st'
     /\ length st' = length s0
     /\ forall k, zlookup st' k = zlookup s0 (reversed_index pos k))
  /\ (pos = 0 -> Z.of_nat (length s0) < 2 ^ 64 ->
      RestoreStack_reverse (Z.to_nat (pos / 2 + 1)) 0 pos s0 = None).
Proof. exact RestoreStack_reverse_mirror. Qed.

End ReverseLoop.

Section ReplayLoop.

Lemma holds_frames_write st fr v :
  Z.of_nat (length fr) < Z.of_nat (length st) ->
  holds_frames st fr ->
  holds_frames (zinsert (Z.of_nat (length fr)) v st) fr.
Proof.
  intros Hl Hf k pc E. rewrite zlookup_zinsert_any by lia.
  pose proof (lookup_lt_Some _ _ _ E).
  destruct (decide _); [lia|]. now apply Hf.
Qed.

Lemma holds_frames_push st fr pc :
  Z.of_nat (length fr) < Z.of_nat (length st) ->
  holds_frames st fr ->
  holds_frames (zinsert (Z.of_nat (length fr)) (Some pc) st) (fr ++ [pc]).
Proof.
  intros Hl Hf k pc' E. rewrite zlookup_zinsert_any by lia.
  destruct (decide _) as [Ek|Ek].
  - apply Nat2Z.inj in Ek. subst k.
    rewrite lookup_app_r in E by lia. rewrite Nat.sub_diag in E. cbn in E.
    congruence.
  - apply Hf. rewrite lookup_app_l in E; [exact E|].
    pose proof (lookup_lt_Some _ _ _ E) as L. rewrite length_app in L. cbn in L.
    lia.
Qed.

Lemma holds_frames_pop st fr :
  holds_frames st fr -> holds_frames st (removelast fr).
Proof.
  intros Hf k pc E. apply Hf.
  destruct (exists_last (l := fr)) as (fr' & x & ->).
  { intros ->. cbn in E. discriminate E. }
  rewrite removelast_last in E. now apply lookup_app_l_Some.
Qed.

Lemma length_removelast_Z (fr : list Z) :
  fr <> [] -> Z.of_nat (length (removelast fr)) = Z.of_nat (length fr) - 1.
Proof.
  intros Hne. destruct (exists_last Hne) as (fr' & x & ->).
  rewrite removelast_last, length_app. cbn. lia.
Qed.

(** The replay loop keeps the open frames in the first entries of the
    buffer, with [pos] their number. *)
Lemma RestoreStack_replay_frames evs n : forall i st fr fr',
  Z.of_nat (length st) < 2 ^ 64 ->
  holds_frames st fr ->
  call_stack (Z.of_nat (length st)) (ring_events evs n i) fr = Some fr' ->
  exists st', RestoreStack_replay evs n i (Z.of_nat (length fr)) st
              = Some (Z.of_nat (length fr'), st')
    /\ length st' = length st /\ holds_frames st' fr'.
Proof.
  induction n as [|n IH]; intros i st fr fr' H64 Hf Hc.
  { cbn in Hc. injection Hc as <-. exists st. now split. }
  cbn [ring_events call_stack RestoreStack_replay] in *. cbv zeta in *.
  unfold stack_write.
  destruct (Event_typ _ =? EventType_code EventTypeMop).
  { destruct (Z.ltb_spec (Z.of_nat (length fr)) (Z.of_nat (length st))) as [Hl|];
      [|discriminate Hc].
    rewrite (proj2 (Z.leb_le 0 _)) by lia. cbn [andb].
    destruct (IH (i + 1) (zinsert (Z.of_nat (length fr))
                            (Some (Event_pc (default 0 (evs !! i)))) st) fr fr')
      as (st' & E & L & F).
    - now rewrite zinsert_length.
    - now apply holds_frames_write.
    - now rewrite zinsert_length.
    - exists st'. split; [exact E|]. split; [|exact F].
      now rewrite L, zinsert_length. }
  destruct (Event_typ _ =? EventType_code EventTypeFuncEnter).
  { destruct (Z.ltb_spec (Z.of_nat (length fr)) (Z.of_nat (length st))) as [Hl|];
      [|discriminate Hc].
    rewrite (proj2 (Z.leb_le 0 _)) by lia. cbn [andb].
    destruct (IH (i + 1) (zinsert (Z.of_nat (length fr))
                            (Some (Event_pc (default 0 (evs !! i)))) st)
                 (fr ++ [Event_pc (default 0 (evs !! i))]) fr')
      as (st' & E & L & F).
    - now rewrite zinsert_length.
    - now apply holds_frames_push.
    - now rewrite zinsert_length.
    - exists st'. split; [|split; [now rewrite L, zinsert_length|exact F]].
      rewrite length_app in E. cbn [length] in E.
      replace (u64 (Z.of_nat (length fr) + 1))
        with (Z.of_nat (length fr + 1)); [exact E|].
      unfold u64. rewrite Z.mod_small; lia. }
  destruct (Event_typ _ =? EventType_code EventTypeFuncExit).
  { destruct fr as [|x fr0] eqn:Efr; [discriminate Hc|]. rewrite <- Efr in *.
    assert (Hne : fr <> []) by (rewrite Efr; discriminate).
    destruct (IH (i + 1) st (removelast fr) fr' H64 (holds_frames_pop _ _ Hf) Hc)
      as (st' & E & L & F).
    exists st'. split; [|now split].
    rewrite length_removelast_Z in E by exact Hne.
    replace (u64 (Z.of_nat (length fr) - 1)) with (Z.of_nat (length fr) - 1);
      [exact E|].
    assert (0 < Z.of_nat (length fr)).
    { rewrite Efr. cbn [length]. lia. }
    assert (Z.of_nat (length fr) < 2 ^ 64).
    { clear -Hf H64 Efr Hne. 
      destruct (exists_last Hne) as (fr' & y & E').
      pose proof (Hf (length fr') y) as Hy.
      rewrite E' in Hy. rewrite lookup_app_r in Hy by lia.
      rewrite Nat.sub_diag in Hy. specialize (Hy eq_refl).
      unfold zlookup in Hy. destruct (_ <? 0); [discriminate|].
      apply lookup_lt_Some in Hy. rewrite E', length_app. cbn. lia. }
    unfold u64. rewrite Z.mod_small; lia. }
  now apply IH.
Qed.

End ReplayLoop.

Section RestoreCallStack.
Context `{Config}.

Lemma RestoreStack_replay_split evs n1 : forall n2 i pos st,
  RestoreStack_replay evs (n1 + n2) i pos st
  = match RestoreStack_replay evs n1 i pos st with
    | Some (pos', st') => RestoreStack_replay evs n2 (i + Z.of_nat n1) pos' st'
    | None => None
    end.
Proof.
  induction n1 as [|n1 IH]; intros n2 i pos st.
  { cbn. now rewrite Z.add_0_r. }
  cbn [Nat.add RestoreStack_replay]. cbv zeta.
  replace (i + Z.of_nat (S n1)) with (i + 1 + Z.of_nat n1) by lia.
  repeat match goal with
         | |- context [if ?b then _ else _] => destruct b
         | |- context [match stack_write ?a ?b ?c with _ => _ end] =>
             destruct (stack_write a b c)
         end; try reflexivity; apply IH.
Qed.

Lemma RestoreStack_replay_top evs n st fr :
  Z.of_nat (length st) < 2 ^ 64 ->
  call_stack (Z.of_nat (length st)) (ring_events evs n 0) [] = Some fr ->
  Event_typ (default 0 (evs !! Z.of_nat n)) = EventType_code EventTypeMop ->
  Z.of_nat (length fr) < Z.of_nat (length st) ->
  exists st', RestoreStack_replay evs (S n) 0 0 st
              = Some (Z.of_nat (length fr), st')
    /\ length st' = length st
    /\ holds_frames st' (fr ++ [Event_pc (default 0 (evs !! Z.of_nat n))]).
Proof.
  intros H64 Hc Hm Hd.
  destruct (RestoreStack_replay_frames evs n 0 st [] fr H64) as (st1 & E1 & L1 & F1).
  { intros k pc E. discriminate E. }
  { exact Hc. }
  replace (S n) with (n + 1)%nat by lia.
  rewrite RestoreStack_replay_split. cbn [length] in E1.
  change (Z.of_nat 0) with 0 in E1. rewrite E1.
  cbn [RestoreStack_replay]. cbv zeta. rewrite Z.add_0_l, Hm, Z.eqb_refl.
  unfold stack_write.
  rewrite (proj2 (Z.leb_le 0 _)) by lia.
  rewrite (proj2 (Z.ltb_lt _ _)) by lia. cbn [andb].
  eexists. split; [reflexivity|]. split; [now rewrite zinsert_length|].
  apply holds_frames_push; [lia|exact F1].
Qed.

(** X23. The replay loop of [RestoreStack] rebuilds the call stack. When
    the events at the ring indices 0 to [n - 1] are well nested and never
    deeper than the buffer, and the event at index [n] is a memory access
    at a depth the buffer still holds, the loop over the indices 0 to [n]
    ends with [pos] the number of open function entries and the buffer
    holding their pcs, outermost first, followed by the pc of the
    access. *)
Theorem RestoreStack_replay_call_stack evs n st fr :
  Z.of_nat (length st) < 2 ^ 64 ->
  call_stack (Z.of_nat (length st)) (ring_events evs n 0) [] = Some fr ->
  Event_typ (default 0 (evs !! Z.of_nat n)) = EventType_code EventTypeMop ->
  Z.of_nat (length fr) < Z.of_nat (length st) ->
  exists st', RestoreStack_replay evs (S n) 0 0 st
              = Some (Z.of_nat (length fr), st')
    /\ length st' = length st
    /\ holds_frames st' (fr ++ [Event_pc (default 0 (evs !! Z.of_nat n))]).
Proof. exact (RestoreStack_replay_top evs n st fr). Qed.

Lemma reversed_index_range pos k :
  0 <= k < pos -> 0 <= reversed_index pos k < pos.
Proof.
  intros Hk. unfold reversed_index.
  destruct (_ && _); lia.
Qed.

(** X24. [RestoreStack] in the regime it is written for. For a Running
    thread whose trace still holds the partition of the epoch, when the
    events at the ring indices 0 to [epoch mod kTracePartSize - 1] are
    well nested and shallower than the buffer and the event of the epoch
    itself is a memory access, [RestoreStack] returns the number of open
    function entries plus one and leaves the world alone; the buffer
    then holds the pc of the access and the pcs of the open entries,
    innermost first -- with the two middle entries exchanged when their
    number is even, as the reversal loop leaves them. *)
Theorem RestoreStack_call_stack w tid c p t epoch stack n fr :
  zlookup (threads (ctx w)) tid = Some c ->
  status c = ThreadStatusRunning -> thr c = Some p -> tls w !! p = Some t ->
  0 < kTracePartSize ->
  default 0 (headers (trace t) !! ((epoch / kTracePartSize) mod kTraceParts))
    <= epoch ->
  Z.of_nat (length stack) < 2 ^ 31 ->
  let m := Z.to_nat (epoch mod kTracePartSize) in
  let ev := default 0 (events (trace t) !! Z.of_nat m) in
  call_stack (Z.of_nat (length stack)) (ring_events (events (trace t)) m 0) []
    = Some fr ->
  Event_typ ev = EventType_code EventTypeMop ->
  Z.of_nat (length fr) < Z.of_nat (length stack) ->
  exists st',
    RestoreStack tid epoch stack n w = (w, Ret (Z.of_nat (length fr) + 1, st'))
    /\ length st' = length stack
    /\ forall k : nat, (k <= length fr)%nat ->
         zlookup st' (Z.of_nat k)
         = Some ((fr ++ [Event_pc ev])
                   !! Z.to_nat (reversed_index (Z.of_nat (length fr) + 1)
                                               (Z.of_nat k))).
Proof.
  intros Hc Hs Hp Ht HP Hh H31 m ev Hcs Hm Hd.
  pose proof (Z.mod_pos_bound epoch kTracePartSize HP) as Bm.
  destruct (RestoreStack_replay_top (events (trace t)) m stack fr
              ltac:(lia) Hcs Hm Hd) as (st1 & E1 & L1 & F1).
  fold ev in F1.
  set (pos := Z.of_nat (length fr) + 1).
  destruct (RestoreStack_reverse_mirror st1 pos ltac:(lia) ltac:(lia))
    as [R _].
  destruct (R ltac:(lia)) as (st2 & E2 & L2 & V2).
  exists st2. split; [|split; [congruence|]].
  - unfold RestoreStack. repeat mstep. rewrite Hs. cbn [status_eqb negb].
    rewrite Hp. repeat mstep.
    rewrite (proj2 (Z.ltb_ge _ _) Hh).
    replace (Z.to_nat (epoch mod kTracePartSize + 1)) with (S m) by lia.
    rewrite E1.
    assert (Hu : u64 (Z.of_nat (length fr) + 1) = pos).
    { unfold u64. apply Z.mod_small. lia. }
    rewrite Hu, E2. unfold ret. repeat f_equal.
    unfold to_int. rewrite Z.mod_small; lia.
  - intros k Hk. rewrite V2.
    pose proof (reversed_index_range pos (Z.of_nat k) ltac:(lia)) as Br.
    set (j := reversed_index pos (Z.of_nat k)) in *.
    destruct (lookup_lt_is_Some_2 (fr ++ [Event_pc ev]) (Z.to_nat j)) as [v Hv].
    { rewrite length_app. cbn. lia. }
    rewrite Hv. rewrite <- (Z2Nat.id j) by lia. now apply F1.
Qed.

End RestoreCallStack.

Section EpochTrace.
Context `{Config}.

Lemma state_step_refl t : state_step t t.
Proof. split; [reflexivity|]. left. now split. Qed.

Lemma state_step_set_clock t t' c : state_step t t' -> state_step t (set_clock t' c).
Proof. exact (fun H => H). Qed.

Lemma state_step_set_fse t t' e :
  state_step t t' -> state_step t (set_fast_synch_epoch t' e).
Proof. exact (fun H => H). Qed.

Lemma state_step_event t e typ addr :
  e = epoch_inc (fast_epoch t) ->
  state_step t (TraceAddEvent (set_fast_epoch t e) e typ addr).
Proof.
  intros ->. split; [|right; split; [|exists typ, addr; reflexivity]].
  all: unfold TraceAddEvent; destruct (_ =? 0); reflexivity.
Qed.

Lemma state_step_stat_event t st e typ addr :
  e = epoch_inc (fast_epoch t) ->
  state_step t (TraceAddEvent (set_fast_epoch (StatInc t st) e) e typ addr).
Proof.
  intros ->. unfold StatInc. destruct kCollectStats; [|now apply state_step_event].
  split; [|right; split; [|exists typ, addr]].
  all: unfold after_event, TraceAddEvent, TraceSwitch; destruct (_ =? 0); reflexivity.
Qed.

Ltac state_step_done :=
  let Hb := fresh "Hbefore" in
  let Ha := fresh "Hafter" in
  intros ? Hb ?; tls_rewrite;
  first
    [ rewrite lookup_insert; case_decide;
      [ intros [= <-]; subst;
        repeat match goal with
               | Hx : ?m !! ?k = Some ?a, Hy : ?m !! ?k = Some ?b |- _ =>
                   rewrite Hx in Hy; injection Hy as <-
               end;
        first
          [ left;
            repeat first [ apply state_step_set_clock | apply state_step_set_fse ];
            first [ apply state_step_refl
                  | apply state_step_event; reflexivity
                  | apply state_step_stat_event;
                    rewrite ?(proj1 (proj2 (StatInc_fields _ _))); reflexivity ]
          | right; repeat split; reflexivity ]
      | intros Ha; rewrite Hb in Ha; injection Ha as <-;
        left; apply state_step_refl ]
    | intros Ha; rewrite Hb in Ha; injection Ha as <-;
      left; apply state_step_refl ].

(** X25. Epoch and trace move together. Across any entry point, whether
    it returns or fails, a thread state either keeps its tid, and then
    its epoch and trace are untouched or the epoch has advanced by
    exactly one (modulo the width of its bit-field) with exactly one
    event traced at the new epoch; or it is the state [ThreadStart] has
    just initialised, at epoch 1 with an empty trace. *)
Theorem epoch_trace_step op w q t t' :
  tls w !! q = Some t ->
  tls (fst (run op w)) !! q = Some t' ->
  state_step t t'
  \/ (q = op_thr op /\ fast_epoch t' = bitfield kClkBits 1
      /\ trace t' = mkTrace ∅ ∅ /\ fast_synch_epoch t' = 1).
Proof.
  intros Ht. revert t'.
  apply (wp_fst _ (fun w' => forall t', tls w' !! q = Some t' ->
           state_step t t'
           \/ (q = op_thr op /\ fast_epoch t' = bitfield kClkBits 1
               /\ trace t' = mkTrace ∅ ∅ /\ fast_synch_epoch t' = 1))).
  destruct op as [p|p u d|p tid|p|p u|p u|p pc a rw|p pc a|p pc a|p pc a
                 |p pc a sz wr|p pc|p]; cbn [op_thr]; unfold_run.
  all: run_exec.
  all: revert Ht; revert t; state_step_done.
Qed.

End EpochTrace.

Section Synchronized.
Context `{Config}.

(** With no racy slot in the cell, [MemoryAccess] returns and reports
    nothing. *)
Lemma MemoryAccess_no_racy w thr t pc addr size wr :
  tls w !! thr = Some t -> 0 < kShadowCnt ->
  (forall j, 0 <= j < kShadowCnt ->
     slot_racy (clock t) (fast_tid t) (access_desc t addr size wr) wr
               (LoadShadow (shadow w) (MemToShadow addr + j)) = false) ->
  exists w', MemoryAccess thr pc addr size wr w = (w', Ret tt)
    /\ races w' = races w
    /\ tls w' = <[thr := access_state t pc]> (tls w)
    /\ ctx w' = ctx w.
Proof.
  intros Ht HK Hno.
  assert (Hq : fst (access_scan t pc addr size wr (shadow w)) = true
               \/ snd (snd (access_scan t pc addr size wr (shadow w))) = 0).
  { unfold access_scan.
    pose proof (access_state_fields t pc) as (Ftid & Fse & Fclk & _).
    pose proof (StatInc_fields t StatMop) as (Stid & _).
    set (fs := (fast_tid (StatInc t StatMop),
                epoch_inc (fast_epoch (StatInc t StatMop)))).
    set (base := MemToShadow addr) in *.
    set (off := MemoryAccess_off addr size).
    set (s0 := access_desc t addr size wr) in *.
    set (se := fast_synch_epoch (access_state t pc)).
    assert (Hn : 0 + Z.of_nat (Z.to_nat kShadowCnt) <= kShadowCnt) by lia.
    assert (H0 : 0 <= 0) by lia.
    destruct (fst (MemoryAccess_scan (access_state t pc) fs se s0 base off wr
                     (Z.to_nat kShadowCnt) 0 (shadow w, false, 0))) eqn:Ed;
      [now left|right].
    assert (Hsame : forall i', 0 <= i' < 0 + Z.of_nat (Z.to_nat kShadowCnt) ->
              slot_same (fst fs) se s0 wr
                (LoadShadow (shadow w) (base + (i' + off) mod kShadowCnt)) = false).
    { intros i' Hi'.
      destruct (slot_same (fst fs) se s0 wr
                  (LoadShadow (shadow w) (base + (i' + off) mod kShadowCnt))) eqn:Es;
        [|reflexivity].
      exfalso.
      assert (Hd : fst (MemoryAccess_scan (access_state t pc) fs se s0 base off wr
                          (Z.to_nat kShadowCnt) 0 (shadow w, false, 0)) = true).
      { apply (MemoryAccess_scan_same _ _ _ _ _ _ _ (shadow w) _ 0 (shadow w) false 0
                 HK H0 Hn); [reflexivity|].
        exists i'. split; [lia|exact Es]. }
      congruence. }
    pose proof (MemoryAccess_scan_no_same (access_state t pc) fs se s0 base off wr
                  (shadow w) (Z.to_nat kShadowCnt) 0 (shadow w) false 0
                  HK H0 Hn ltac:(reflexivity) Hsame) as [_ D].
    cbv zeta in D. destruct D as [[E _]|(i' & Hi' & Hr & _)]; [exact E|].
    exfalso.
    destruct (slot_in_cell base off i' HK) as (j & Hj & Ej).
    rewrite Ej in Hr. unfold fs in Hr. cbn [fst] in Hr. rewrite Fclk, Stid in Hr.
    rewrite (Hno j Hj) in Hr. discriminate Hr. }
  destruct (MemoryAccess_quiet w thr t pc addr size wr Ht Hq)
    as (w' & E & A & _ & C & D).
  exists w'. repeat split; assumption.
Qed.

Lemma slot_racy_zero c tid s0 wr : slot_racy c tid s0 wr 0 = false.
Proof. reflexivity. Qed.

Lemma slot_racy_seen c tid s0 wr s :
  Shadow_epoch s <= clock_get c (Shadow_tid s) -> slot_racy c tid s0 wr s = false.
Proof.
  intros Hle. unfold slot_racy.
  rewrite (proj2 (Z.ltb_ge _ _) Hle). now rewrite andb_false_r.
Qed.

(** X26. Accesses ordered by a mutex do not race. A thread accesses a
    word that nobody has touched and unlocks a mutex; another thread
    locks that mutex and accesses the same word, with any range and
    kind. All four calls return and no race is reported: the first
    access is recorded at the epoch the thread had then, and the second
    thread's clock has reached that epoch through the mutex. (The epoch
    counter is assumed not to wrap between the access and the
    unlock.) *)
Theorem synchronized_accesses_do_not_race
    w p q tp tq m s pc1 pc2 pc3 pc4 addr size wr addr' size' wr' :
  p <> q -> tls w !! p = Some tp -> tls w !! q = Some tq ->
  0 < kShadowCnt -> 0 <= kTidBits -> 0 <= kClkBits ->
  0 <= fast_tid tp < 2 ^ kTidBits ->
  epoch_inc (fast_epoch tp) <= epoch_inc (epoch_inc (fast_epoch tp)) ->
  synctab (ctx w) !! m = Some s -> sv_type s = Mtx ->
  (forall j, 0 <= j < kShadowCnt ->
     LoadShadow (shadow w) (MemToShadow addr + j) = 0) ->
  MemToShadow addr' = MemToShadow addr ->
  let w1 := fst (MemoryAccess p pc1 addr size wr w) in
  let w2 := fst (MutexUnlock p pc2 m w1) in
  let w3 := fst (MutexLock q pc3 m w2) in
  let r := MemoryAccess q pc4 addr' size' wr' w3 in
  snd (MemoryAccess p pc1 addr size wr w) = Ret tt
  /\ snd (MutexUnlock p pc2 m w1) = Ret tt
  /\ snd (MutexLock q pc3 m w2) = Ret tt
  /\ snd r = Ret tt
  /\ races (fst r) = races w.
Proof.
  intros Hpq Htp Htq HK HT HC Htid Hwrap Hs Hm Hz Hcell. cbv zeta.
  (* the first access *)
  pose proof (access_scan_empty tp pc1 addr size wr (shadow w) HK Hz) as Es.
  destruct (MemoryAccess_quiet w p tp pc1 addr size wr Htp)
    as (w1 & E1 & T1 & B1 & R1 & C1).
  { right. now rewrite Es. }
  rewrite Es in B1. cbn [fst snd orb] in B1.
  rewrite E1. cbn [fst snd].
  set (tp1 := access_state tp pc1) in *.
  set (s0 := access_desc tp addr size wr) in *.
  assert (Htp1 : tls w1 !! p = Some tp1) by (rewrite T1; apply lookup_insert_eq).
  assert (Hs1 : synctab (ctx w1) !! m = Some s) by now rewrite C1.
  (* the unlock *)
  destruct (MutexUnlock_known w1 p tp1 pc2 m s Htp1 Hs1 Hm)
    as (w2 & E2 & T2 & S2 & _ & _ & B2 & R2).
  rewrite E2. cbn [fst snd].
  set (tp2 := after_event tp1 EventTypeUnlock m) in *.
  set (s1 := set_sv_clock s (clock_release (clock (released tp2)) (sv_clock s))) in *.
  assert (Htq2 : tls w2 !! q = Some tq).
  { rewrite T2, T1. rewrite !lookup_insert_ne by congruence. exact Htq. }
  assert (Hs2 : synctab (ctx w2) !! m = Some s1).
  { rewrite S2. apply lookup_insert_eq. }
  (* the lock *)
  destruct (MutexLock_known w2 q tq pc3 m s1 Htq2 Hs2 Hm)
    as (w3 & E3 & T3 & _ & B3 & R3).
  rewrite E3. cbn [fst snd].
  set (tq3 := acquired (after_event tq EventTypeLock m) (sv_clock s1)) in *.
  assert (Htq3 : tls w3 !! q = Some tq3) by (rewrite T3; apply lookup_insert_eq).
  (* what the second thread knows *)
  pose proof (access_state_fields tp pc1) as (F1 & _ & _ & F2). fold tp1 in F1, F2.
  assert (Hk : epoch_inc (fast_epoch tp) <= clock_get (clock tq3) (fast_tid tp)).
  { eapply Z.le_trans; [exact Hwrap|].
    eapply clock_le_get.
    - eapply clock_le_trans; [|apply clock_le_join_r].
      unfold s1. cbn [sv_clock set_sv_clock]. apply clock_le_join_r.
    - pose proof (released_own tp2) as R. unfold tp2 in R.
      rewrite after_event_tid, after_event_epoch, F1, F2 in R. exact R. }
  (* the second access meets no racy slot *)
  destruct (mkShadow_unpack (fast_tid (StatInc tp StatMop))
              (epoch_inc (fast_epoch (StatInc tp StatMop))) (Z.land addr 7)
              (Z.min (u64 (Z.land addr 7 + size - 1)) 7) wr HT HC)
    as (D1 & D2 & _).
  cbv zeta in D1, D2. fold (access_desc tp addr size wr) in D1, D2. fold s0 in D1, D2.
  pose proof (StatInc_fields tp StatMop) as (St & Se & _).
  rewrite St in D1. rewrite Se in D2.
  rewrite (Z.mod_small _ _ Htid) in D1.
  assert (D2' : Shadow_epoch s0 = epoch_inc (fast_epoch tp)).
  { rewrite D2. unfold epoch_inc, bitfield. rewrite Z.mod_mod; [reflexivity|].
    apply Z.pow_nonzero; lia. }
  destruct (MemoryAccess_no_racy w3 q tq3 pc4 addr' size' wr' Htq3 HK)
    as (w4 & E4 & R4 & _).
  { intros j Hj. rewrite Hcell, B3, B2, B1, Load_Store.
    destruct (decide _).
    - apply slot_racy_seen. now rewrite D1, D2'.
    - rewrite (Hz j Hj). apply slot_racy_zero. }
  rewrite E4. cbn [fst snd].
  repeat split; congruence.
Qed.

End Synchronized.

Section Unsynchronized.
Context `{Config}.

(** X27. Conflicting accesses with nothing in between are reported. A
    thread accesses a word that nobody has touched; another thread, whose
    clock has not reached the epoch of that access, then accesses the
    same bytes, and one of the two accesses is a write. The second
    [MemoryAccess] calls [ReportRace] once, with its own descriptor and
    the one the first access left in the cell. *)
Theorem unsynchronized_accesses_race
    w p q tp tq pc1 pc2 addr size wr wr' :
  p <> q -> tls w !! p = Some tp -> tls w !! q = Some tq ->
  0 < kShadowCnt -> 0 <= kTidBits -> 0 <= kClkBits ->
  0 <= fast_tid tp < 2 ^ kTidBits ->
  fast_tid tq <> fast_tid tp ->
  clock_get (clock tq) (fast_tid tp) < epoch_inc (fast_epoch tp) ->
  epoch_inc (fast_epoch tp) <> 0 ->
  wr || wr' = true ->
  (forall j, 0 <= j < kShadowCnt ->
     LoadShadow (shadow w) (MemToShadow addr + j) = 0) ->
  let w1 := fst (MemoryAccess p pc1 addr size wr w) in
  let w2 := fst (MemoryAccess q pc2 addr size wr' w1) in
  snd (MemoryAccess p pc1 addr size wr w) = Ret tt
  /\ races w1 = races w
  /\ races w2 = races w ++ [(addr, access_desc tq addr size wr',
                             access_desc tp addr size wr)].
Proof.
  intros Hpq Htp Htq HK HT HC Htid Hne Hclk Hnz Hwr Hz. cbv zeta.
  (* the first access *)
  pose proof (access_scan_empty tp pc1 addr size wr (shadow w) HK Hz) as Es.
  destruct (MemoryAccess_quiet w p tp pc1 addr size wr Htp)
    as (w1 & E1 & T1 & B1 & R1 & C1).
  { right. now rewrite Es. }
  rewrite Es in B1. cbn [fst snd orb] in B1.
  rewrite E1. cbn [fst snd].
  split; [reflexivity|]. split; [exact R1|].
  set (s0 := access_desc tp addr size wr) in *.
  set (s0' := access_desc tq addr size wr').
  assert (Htq1 : tls w1 !! q = Some tq).
  { rewrite T1, lookup_insert_ne by congruence. exact Htq. }
  (* the fields of the two descriptors *)
  pose proof (StatInc_fields tp StatMop) as (St & Se & _).
  pose proof (StatInc_fields tq StatMop) as (St' & Se' & _).
  destruct (mkShadow_unpack (fast_tid (StatInc tp StatMop))
              (epoch_inc (fast_epoch (StatInc tp StatMop))) (Z.land addr 7)
              (Z.min (u64 (Z.land addr 7 + size - 1)) 7) wr HT HC)
    as (D1 & D2 & D3 & D4 & D5 & _).
  destruct (mkShadow_unpack (fast_tid (StatInc tq StatMop))
              (epoch_inc (fast_epoch (StatInc tq StatMop))) (Z.land addr 7)
              (Z.min (u64 (Z.land addr 7 + size - 1)) 7) wr' HT HC)
    as (_ & _ & D3' & D4' & _).
  cbv zeta in D1, D2, D3, D4, D5, D3', D4'.
  fold (access_desc tp addr size wr) in D1, D2, D3, D4, D5.
  fold (access_desc tq addr size wr') in D3', D4'.
  fold s0 in D1, D2, D3, D4, D5. fold s0' in D3', D4'.
  rewrite St in D1. rewrite Se in D2. rewrite (Z.mod_small _ _ Htid) in D1.
  assert (D2' : Shadow_epoch s0 = epoch_inc (fast_epoch tp)).
  { rewrite D2. unfold epoch_inc, bitfield. rewrite Z.mod_mod; [reflexivity|].
    apply Z.pow_nonzero; lia. }
  assert (Hs0 : (s0 =? 0) = false).
  { apply Z.eqb_neq. intros E0. apply Hnz. rewrite <- D2', E0.
    unfold Shadow_epoch. rewrite Z.div_0_l, Z.mod_0_l; try reflexivity.
    all: apply Z.pow_nonzero; lia. }
  (* the cell the second access finds *)
  set (base := MemToShadow addr) in *.
  set (off := MemoryAccess_off addr size) in *.
  assert (Hcell : forall j, 0 <= j < kShadowCnt ->
            LoadShadow (shadow w1) (base + j)
            = if decide (j = off mod kShadowCnt) then s0 else 0).
  { intros j Hj. rewrite B1, Load_Store.
    destruct (decide (base + off mod kShadowCnt = base + j)) as [E|E];
      destruct (decide (j = off mod kShadowCnt)) as [E'|E'];
      try lia; try reflexivity. now apply Hz. }
  assert (Hracy0 : slot_racy (clock tq) (fast_tid tq) s0' wr' s0 = true).
  { unfold slot_racy, ranges_overlap. rewrite Hs0, D1, D2', D3, D4, D5, D3', D4'.
    rewrite !Z.eqb_refl. cbn [negb andb orb].
    rewrite (proj2 (Z.eqb_neq _ _) (not_eq_sym Hne)).
    rewrite (proj2 (Z.ltb_lt _ _) Hclk). cbn [negb andb]. exact Hwr. }
  (* its scan *)
  pose proof (MemoryAccess_result w1 q tq pc2 addr size wr' Htq1) as (_ & _ & R).
  cbv zeta in R. unfold access_scan in R. fold s0' in R.
  pose proof (access_state_fields tq pc2) as (Ftid & Fse & Fclk & _).
  set (fs := (fast_tid (StatInc tq StatMop),
              epoch_inc (fast_epoch (StatInc tq StatMop)))) in *.
  fold base off in R.
  set (se := fast_synch_epoch (access_state tq pc2)) in *.
  assert (Hn : 0 + Z.of_nat (Z.to_nat kShadowCnt) <= kShadowCnt) by lia.
  assert (H0 : 0 <= 0) by lia.
  assert (Hsame : forall i', 0 <= i' < 0 + Z.of_nat (Z.to_nat kShadowCnt) ->
            slot_same (fst fs) se s0' wr'
              (LoadShadow (shadow w1) (base + (i' + off) mod kShadowCnt)) = false).
  { intros i' Hi'. rewrite Hcell by (apply Z.mod_pos_bound; lia).
    destruct (decide _); [|reflexivity].
    unfold slot_same. rewrite D1. unfold fs. cbn [fst]. rewrite St'.
    rewrite (proj2 (Z.eqb_neq _ _) (not_eq_sym Hne)).
    now rewrite andb_false_r. }
  pose proof (MemoryAccess_scan_no_same (access_state tq pc2) fs se s0' base off wr'
                (shadow w1) (Z.to_nat kShadowCnt) 0 (shadow w1) false 0
                HK H0 Hn ltac:(reflexivity) Hsame) as [Hd D].
  cbv zeta in Hd, D. rewrite Hd in R. cbn [orb] in R.
  assert (Hres : snd (snd (MemoryAccess_scan (access_state tq pc2) fs se s0' base off
                             wr' (Z.to_nat kShadowCnt) 0 (shadow w1, false, 0)))
                 = s0).
  { destruct D as [[_ Hno]|(i' & Hi' & Hr & E)].
    - exfalso. specialize (Hno 0 ltac:(lia)).
      rewrite Z.add_0_l, Hcell in Hno by (apply Z.mod_pos_bound; lia).
      destruct (decide _) as [_|Eo]; [|now destruct Eo].
      unfold fs in Hno. cbn [fst] in Hno. rewrite Fclk, St' in Hno. congruence.
    - rewrite E. rewrite Hcell by (apply Z.mod_pos_bound; lia).
      rewrite Hcell in Hr by (apply Z.mod_pos_bound; lia).
      destruct (decide _); [reflexivity|]. discriminate Hr. }
  rewrite Hres, Hs0 in R. rewrite R, R1. reflexivity.
Qed.

End Unsynchronized.

Section RegistryEdges.
Context `{Config}.

(** X28. Joining twice. After a successful [ThreadJoin] on the only
    registered thread with a uid, the thread's slot is free, and joining
    the uid again prints the warning for a non-existent thread and
    changes nothing: it is not fatal. *)
Theorem ThreadJoin_twice w p t uid0 tid c :
  tls w !! p = Some t ->
  Z.of_nat (length (threads (ctx w))) = kMaxTid ->
  zlookup (threads (ctx w)) tid = Some c ->
  join_match uid0 c = true ->
  (forall j c', j <> tid -> zlookup (threads (ctx w)) j = Some c' ->
                join_match uid0 c' = false) ->
  detached c = false -> status c = ThreadStatusFinished ->
  let w1 := fst (ThreadJoin p uid0 w) in
  let r := ThreadJoin p uid0 w1 in
  snd (ThreadJoin p uid0 w) = Ret tt
  /\ snd r = Ret tt
  /\ same_state w1 (fst r)
  /\ last (out (fst r))
     = Some (OutPrintf "ThreadSanitizer: join of non-existent thread\n" []).
Proof.
  intros Ht Hlen Hc Hm Honly Hd Hs. cbv zeta.
  assert (Htgt : join_target (threads (ctx w)) uid0 tid c).
  { split; [exact Hc|]. split; [exact Hm|].
    intros j c' Hj. apply Honly. lia. }
  destruct (ThreadJoin_finished w p t uid0 tid c Ht Hlen Htgt Hd Hs)
    as (w1 & E1 & T1 & B1 & _).
  rewrite E1. cbn [fst snd].
  pose proof (zlookup_nonneg _ _ _ Hc) as Hnn.
  assert (Ht1 : tls w1 !! p = Some (set_clock t (clock_acquire (clock t) (sync c)))).
  { rewrite T1. apply lookup_insert_eq. }
  assert (Hlen1 : Z.of_nat (length (threads (ctx w1))) = kMaxTid).
  { rewrite B1. unfold zinsert. now rewrite length_insert. }
  assert (Hno : forall c', c' ∈ threads (ctx w1) -> join_match uid0 c' = false).
  { intros c' Hin. apply list_elem_of_lookup_1 in Hin as [i Hi].
    assert (Hz : zlookup (threads (ctx w1)) (Z.of_nat i) = Some c').
    { unfold zlookup. destruct (Z.ltb_spec (Z.of_nat i) 0); [lia|].
      now rewrite Nat2Z.id. }
    rewrite B1 in Hz.
    destruct (zlookup_zinsert_inv _ _ _ _ _ Hnn Hz) as [[_ ->]|[Hne Hz']].
    - unfold join_match. cbn [status uid]. cbn [status_eqb negb].
      apply andb_false_r.
    - exact (Honly (Z.of_nat i) c' Hne Hz'). }
  destruct (ThreadJoin_no_match w1 p _ uid0 Ht1 Hlen1 Hno) as (w2 & E2 & S2 & O2).
  rewrite E2. cbn [fst snd].
  split; [reflexivity|]. split; [reflexivity|]. split; [exact S2|exact O2].
Qed.


End RegistryEdges.


(** * Concrete runs *)

#[local] Existing Instance demo.

Lemma demo_main_thread : tls demo_main !! 1000 = Some (state_at demo_main 1000).
Proof. vm_compute. reflexivity. Qed.

Lemma demo_two_thread : tls demo_two !! 1000 = Some (state_at demo_two 1000).
Proof. vm_compute. reflexivity. Qed.

Lemma demo_finished_thread :
  tls demo_finished !! 1000 = Some (state_at demo_finished 1000).
Proof. vm_compute. reflexivity. Qed.

(** [MutexUnlock_unknown_is_fatal] at thread 0 of [demo_main] and the
    address 8192, where no mutex was created. *)
Lemma MutexUnlock_unknown_is_fatal_witness :
  synctab (ctx demo_main) !! 8192 = None
  /\ snd (MutexUnlock 1000 0 8192 demo_main) = Fatal.
Proof.
  assert (Hs : synctab (ctx demo_main) !! 8192 = None)
    by (vm_compute; reflexivity).
  split; [exact Hs|].
  exact (proj1 (MutexUnlock_unknown_is_fatal demo_main 1000
                  (state_at demo_main 1000) 0 8192
                  demo_main_thread Hs)).
Defined.

(** C7, as stated, fails: unlocking the unknown address 8192 is fatal, and
    the thread's epoch has moved from 1 to 2 by then. *)
Lemma MutexUnlock_unknown_counterexample :
  synctab (ctx demo_main) !! 8192 = None
  /\ snd (MutexUnlock 1000 0 8192 demo_main) = Fatal
  /\ fast_epoch (state_at demo_main 1000) = 1
  /\ fast_epoch (state_at (exec (MutexUnlock 1000 0 8192) demo_main) 1000) = 2.
Proof. repeat split; vm_compute; reflexivity. Qed.

Lemma demo_two_target :
  join_target (threads (ctx demo_two)) 77 1 (context_at demo_two 1).
Proof.
  split; [vm_compute; reflexivity|]. split; [vm_compute; reflexivity|].
  intros j c' Hj Hc'. assert (j = 0) as -> by lia.
  vm_compute in Hc'. injection Hc' as <-. vm_compute. reflexivity.
Qed.

Lemma demo_finished_target :
  join_target (threads (ctx demo_finished)) 77 1 (context_at demo_finished 1).
Proof.
  split; [vm_compute; reflexivity|]. split; [vm_compute; reflexivity|].
  intros j c' Hj Hc'. assert (j = 0) as -> by lia.
  vm_compute in Hc'. injection Hc' as <-. vm_compute. reflexivity.
Qed.

Lemma demo_two_no_99 c : c ∈ threads (ctx demo_two) -> join_match 99 c = false.
Proof.
  revert c. apply Forall_forall. vm_compute. repeat constructor.
Qed.

(** [ThreadJoin_outcomes] in its three cases: uid 99 is not registered;
    uid 77 is thread 1, Running in [demo_two] and Finished in
    [demo_finished]. *)
Lemma ThreadJoin_outcomes_witness :
  (snd (ThreadJoin 1000 99 demo_two) = Ret tt
   /\ same_state demo_two (fst (ThreadJoin 1000 99 demo_two)))
  /\ snd (ThreadJoin 1000 77 demo_two) = Fatal
  /\ (snd (ThreadJoin 1000 77 demo_finished) = Ret tt
      /\ status (context_at (fst (ThreadJoin 1000 77 demo_finished)) 1)
         = ThreadStatusInvalid).
Proof.
  assert (L2 : Z.of_nat (length (threads (ctx demo_two))) = kMaxTid)
    by (vm_compute; reflexivity).
  assert (L3 : Z.of_nat (length (threads (ctx demo_finished))) = kMaxTid)
    by (vm_compute; reflexivity).
  assert (R : status (context_at demo_two 1) <> ThreadStatusFinished)
    by (vm_compute; discriminate).
  assert (D : detached (context_at demo_finished 1) = false)
    by (vm_compute; reflexivity).
  assert (F : status (context_at demo_finished 1) = ThreadStatusFinished)
    by (vm_compute; reflexivity).
  split; [|split].
  - pose proof (proj1 (ThreadJoin_outcomes demo_two 1000 (state_at demo_two 1000) 99
                         demo_two_thread L2) demo_two_no_99) as (A & B & _).
    exact (conj A B).
  - exact (proj1 (proj2 (ThreadJoin_outcomes demo_two 1000 (state_at demo_two 1000) 77
                           demo_two_thread L2) 1 _ demo_two_target)
                 (or_intror R)).
  - pose proof (proj2 (proj2 (ThreadJoin_outcomes demo_finished 1000
                                (state_at demo_finished 1000) 77
                                demo_finished_thread L3)
                             1 _ demo_finished_target) D F)
      as (A & _ & B & _).
    split; [exact A|]. unfold context_at at 1. rewrite B.
    vm_compute. reflexivity.
Defined.

(** C5, as stated, fails: joining thread 1 (uid 77) while it is still
    Running does not block, it is fatal. *)
Lemma ThreadJoin_running_counterexample :
  status (context_at demo_two 1) = ThreadStatusRunning
  /\ uid (context_at demo_two 1) = 77
  /\ detached (context_at demo_two 1) = false
  /\ snd (ThreadJoin 1000 77 demo_two) = Fatal.
Proof. repeat split; vm_compute; reflexivity. Qed.

(** [Event_pack_unpack] for a function entry at pc 4096, epoch 2. *)
Lemma Event_pack_unpack_witness :
  mkEvent EventTypeFuncEnter 4096 = Z.lor (Z.shiftl 1 61) 4096
  /\ Event_pc (mkEvent EventTypeFuncEnter 4096) = 4096.
Proof.
  pose proof (Event_pack_unpack ThreadState0 2 EventTypeFuncEnter 4096
                ltac:(lia)) as (_ & _ & A & _ & B).
  split; [exact A | exact B].
Defined.

(** C8, as stated, fails on both counts: a pc with bit 48 set is packed
    whole but read back as 0, and a pc with bit 61 set is not masked when
    packed, so that a Mop event reads back as a FuncEnter. *)
Lemma Event_pc_counterexample :
  (Z.land (2 ^ 48) (Z.ones 61) = 2 ^ 48
   /\ Event_pc (mkEvent EventTypeMop (2 ^ 48)) = 0)
  /\ (mkEvent EventTypeMop (2 ^ 61)
      <> Z.lor (Z.shiftl (EventType_code EventTypeMop) 61)
               (Z.land (2 ^ 61) (Z.ones 61))
      /\ Event_typ (mkEvent EventTypeMop (2 ^ 61))
         = EventType_code EventTypeFuncEnter).
Proof. repeat split; vm_compute; congruence. Qed.

Lemma demo_joined_thread :
  tls demo_joined !! 1000 = Some (state_at demo_joined 1000).
Proof. vm_compute. reflexivity. Qed.

(** [ThreadCreate_sequential] in [demo_joined]: the counter stands at 2,
    slot 2 is Invalid, the new thread gets tid 2. *)
Lemma ThreadCreate_sequential_witness :
  snd (ThreadCreate 1000 88 false demo_joined) = Ret 2
  /\ thread_seq (ctx (fst (ThreadCreate 1000 88 false demo_joined))) = 3.
Proof.
  assert (Hc : zlookup (threads (ctx demo_joined)) (thread_seq (ctx demo_joined))
               = Some (context_at demo_joined 2))
    by (vm_compute; reflexivity).
  assert (Hs : status (context_at demo_joined 2) = ThreadStatusInvalid)
    by (vm_compute; reflexivity).
  assert (Hn : thread_seq (ctx demo_joined) <> 0) by (vm_compute; discriminate).
  pose proof (proj2 (ThreadCreate_sequential demo_joined 1000
                       (state_at demo_joined 1000) 88 false
                       (context_at demo_joined 2) demo_joined_thread Hc)
                    Hs Hn) as (A & B & _).
  split; [exact A | exact B].
Defined.

(** C6, as stated, fails on both counts. In [demo_joined] slot 1 is
    Invalid, yet the new thread gets tid 2; and the creating thread has
    tid 0, yet its [fast_synch_epoch] moves from 1 to its epoch 2 and the
    new context's sync clock receives its component. *)
Lemma ThreadCreate_counterexample :
  (status (context_at demo_joined 1) = ThreadStatusInvalid
   /\ snd (ThreadCreate 1000 88 false demo_joined) = Ret 2)
  /\ (fast_tid (state_at demo_joined 1000) = 0
      /\ fast_synch_epoch (state_at demo_joined 1000) = 1
      /\ fast_synch_epoch
           (state_at (exec (ThreadCreate 1000 88 false) demo_joined) 1000) = 2
      /\ clock_get
           (sync (context_at (exec (ThreadCreate 1000 88 false) demo_joined) 2))
           0 = 2).
Proof. repeat split; vm_compute; reflexivity. Qed.



Lemma demo_written_thread :
  tls demo_written !! 1000 = Some (state_at demo_written 1000).
Proof. vm_compute. reflexivity. Qed.

Lemma demo_stale_thread :
  tls demo_stale !! 1000 = Some (state_at demo_stale 1000).
Proof. vm_compute. reflexivity. Qed.

Lemma small_cases j : 0 <= j < 8 ->
  j = 0 \/ j = 1 \/ j = 2 \/ j = 3 \/ j = 4 \/ j = 5 \/ j = 6 \/ j = 7.
Proof. lia. Qed.

(** [MemoryAccess_reports] for the write of thread 0 in [demo_written]: no
    slot summarizes it, slot 0 is racy, the reporter is called. *)
Lemma MemoryAccess_reports_witness :
  races (fst (MemoryAccess 1000 800 8192 4 true demo_written))
  <> races demo_written.
Proof.
  assert (HK : 0 < kShadowCnt) by reflexivity.
  apply (proj1 (MemoryAccess_reports demo_written 1000 (state_at demo_written 1000)
                  800 8192 4 true demo_written_thread HK)).
  split.
  - intros j Hj.
    destruct (small_cases j Hj) as [->|[->|[->|[->|[->|[->|[->| ->]]]]]]];
      vm_compute; reflexivity.
  - exists 0. split; [lia|]. vm_compute. reflexivity.
Defined.

(** C1, as stated, fails: in [demo_raced] slot 0 records a write of thread
    1 to the same bytes, at epoch 2, and thread 0's clock component for
    thread 1 is 0; yet a further write of thread 0 does not call the
    reporter, because slot 1 summarizes it. *)
Lemma MemoryAccess_reports_counterexample :
  (Shadow_tid (LoadShadow (shadow demo_raced) 8192) = 1
   /\ fast_tid (state_at demo_raced 1000) = 0
   /\ Shadow_write (LoadShadow (shadow demo_raced) 8192) = true
   /\ ranges_overlap (access_desc (state_at demo_raced 1000) 8192 4 true)
                     (LoadShadow (shadow demo_raced) 8192) = true
   /\ clock_get (clock (state_at demo_raced 1000)) 1 = 0
   /\ Shadow_epoch (LoadShadow (shadow demo_raced) 8192) = 2)
  /\ snd (MemoryAccess 1000 900 8192 4 true demo_raced) = Ret tt
  /\ races (fst (MemoryAccess 1000 900 8192 4 true demo_raced))
     = races demo_raced.
Proof. repeat split; vm_compute; reflexivity. Qed.

(** [MemoryAccess_stores] for a write of thread 0 in [demo_stale]. *)
Lemma MemoryAccess_stores_witness :
  exists p0, forall p, p <> p0 ->
    LoadShadow (shadow (fst (MemoryAccess 1000 900 8192 4 true demo_stale))) p
    = LoadShadow (shadow demo_stale) p
    \/ LoadShadow (shadow (fst (MemoryAccess 1000 900 8192 4 true demo_stale))) p
       = 0.
Proof.
  assert (HK : 0 < kShadowCnt) by reflexivity.
  exact (proj1 (MemoryAccess_stores demo_stale 1000 (state_at demo_stale 1000)
                  900 8192 4 true demo_stale_thread HK)).
Defined.

(** C2, as stated, fails: the write of thread 0 in [demo_stale] changes
    two slots in its scan, slot 0 to the descriptor and slot 1 to zero. *)
Lemma MemoryAccess_stores_counterexample :
  let w' := fst (MemoryAccess 1000 900 8192 4 true demo_stale) in
  (LoadShadow (shadow w') 8192 <> LoadShadow (shadow demo_stale) 8192
   /\ LoadShadow (shadow w') 8192
      = access_desc (state_at demo_stale 1000) 8192 4 true)
  /\ (LoadShadow (shadow w') 8193 <> LoadShadow (shadow demo_stale) 8193
      /\ LoadShadow (shadow w') 8193 = 0)
  /\ snd (fst (snd (access_scan (state_at demo_stale 1000) 900 8192 4 true
                                (shadow demo_stale)))) = true.
Proof. repeat split; vm_compute; congruence. Qed.



(** C9 fails on [demo_deep]: with the 64-entry buffer of [ReportRace] and
    [n = 64], the replay for thread 0 at epoch 67 stores outside the
    buffer; in a buffer of 100 entries the same call, still with
    [n = 64], returns 66 frames. *)
Lemma RestoreStack_overflows_buffer :
  fast_epoch (state_at demo_deep 1000) = 67
  /\ snd (RestoreStack 0 67 (replicate 64 None) 64 demo_deep) = Undefined
  /\ exists st, snd (RestoreStack 0 67 (replicate 100 None) 64 demo_deep)
                = Ret (66, st).
Proof.
  split; [vm_compute; reflexivity|]. split; [vm_compute; reflexivity|].
  eexists. vm_compute. reflexivity.
Qed.

(** C3 fails on [demo_part]: epoch 129 lies in partition 1, whose header
    is valid and whose first two events are the entry at pc 5000 and the
    access at pc 900; the replay reads ring indices 0 and 1 instead, and
    returns the single frame 0. *)
Lemma RestoreStack_replays_partition_zero :
  let tr := trace (state_at demo_part 1000) in
  headers tr !! 1 = Some 128
  /\ events tr !! 128 = Some (mkEvent EventTypeFuncEnter 5000)
  /\ events tr !! 129 = Some (mkEvent EventTypeMop 900)
  /\ snd (RestoreStack 0 129 (replicate 4 None) 4 demo_part)
     = Ret (1, [Some 0; None; None; None]).
Proof. repeat split; vm_compute; reflexivity. Qed.

(** ** The further properties, on concrete runs *)

Lemma demo_two_thread1 : tls demo_two !! 2000 = Some (state_at demo_two 2000).
Proof. vm_compute. reflexivity. Qed.

Lemma demo_two_slot1 :
  zlookup (threads (ctx demo_two)) 1 = Some (context_at demo_two 1).
Proof. vm_compute. reflexivity. Qed.

(** [ThreadStart_outcomes] for thread 1 of [demo_created], started with
    its state at address 2000. *)
Lemma ThreadStart_outcomes_witness :
  snd (ThreadStart 2000 1 demo_created) = Ret tt
  /\ status (context_at (fst (ThreadStart 2000 1 demo_created)) 1)
     = ThreadStatusRunning.
Proof.
  assert (Hc : zlookup (threads (ctx demo_created)) 1
               = Some (context_at demo_created 1))
    by (vm_compute; reflexivity).
  assert (Hs : status (context_at demo_created 1) = ThreadStatusCreated)
    by (vm_compute; reflexivity).
  destruct (proj2 (ThreadStart_outcomes demo_created 2000 1 _ Hc) Hs)
    as (A & _ & B & _).
  split; [exact A|]. unfold context_at at 1. now rewrite B.
Defined.

(** [ThreadFinish_outcomes] for the joinable thread 1 of [demo_two]. *)
Lemma ThreadFinish_outcomes_witness :
  snd (ThreadFinish 2000 demo_two) = Ret tt
  /\ tls (fst (ThreadFinish 2000 demo_two))
     = <[2000 := released (state_at demo_two 2000)]> (tls demo_two).
Proof.
  assert (Hc : zlookup (threads (ctx demo_two)) (fast_tid (state_at demo_two 2000))
               = Some (context_at demo_two 1))
    by (vm_compute; reflexivity).
  assert (Hs : status (context_at demo_two 1) = ThreadStatusRunning)
    by (vm_compute; reflexivity).
  assert (Hd : detached (context_at demo_two 1) = false)
    by (vm_compute; reflexivity).
  destruct (proj2 (proj2 (ThreadFinish_outcomes demo_two 2000 _ _
                            demo_two_thread1 Hc)) Hs Hd) as (A & B & _).
  now split.
Defined.

(** [create_start_edge]: thread 0 of [demo_main], at epoch 1, creates
    thread 1, which starts at address 2000 knowing that epoch. *)
Lemma create_start_edge_witness :
  snd (ThreadStart 2000 1 (fst (ThreadCreate 1000 77 false demo_main))) = Ret tt
  /\ exists tq,
       tls (fst (ThreadStart 2000 1 (fst (ThreadCreate 1000 77 false demo_main))))
         !! 2000 = Some tq
       /\ 1 <= clock_get (clock tq) 0.
Proof.
  assert (Hq : thread_seq (ctx demo_main) <> 0) by (vm_compute; discriminate).
  assert (Hc : zlookup (threads (ctx demo_main)) (thread_seq (ctx demo_main))
               = Some (context_at demo_main 1))
    by (vm_compute; reflexivity).
  assert (Hs : status (context_at demo_main 1) = ThreadStatusInvalid)
    by (vm_compute; reflexivity).
  destruct (create_start_edge demo_main 1000 2000 _ _ 77 false
              demo_main_thread Hq Hc Hs) as (_ & A & tq & B & _ & _ & _ & C).
  split; [exact A|]. exists tq. split; [exact B|exact C].
Defined.

Lemma demo_two_first_77 j c' :
  0 <= j < fast_tid (state_at demo_two 2000) ->
  zlookup (threads (ctx demo_two)) j = Some c' -> join_match 77 c' = false.
Proof.
  assert (E : fast_tid (state_at demo_two 2000) = 1) by (vm_compute; reflexivity).
  rewrite E. intros Hj Hc'. assert (j = 0) as -> by lia.
  vm_compute in Hc'. injection Hc' as <-. vm_compute. reflexivity.
Qed.

(** [finish_join_edge]: thread 1 of [demo_two] finishes at epoch 1 and
    thread 0 joins it. *)
Lemma finish_join_edge_witness :
  snd (ThreadJoin 1000 77 (fst (ThreadFinish 2000 demo_two))) = Ret tt
  /\ exists tp',
       tls (fst (ThreadJoin 1000 77 (fst (ThreadFinish 2000 demo_two)))) !! 1000
       = Some tp'
       /\ 1 <= clock_get (clock tp') 1.
Proof.
  assert (Hne : (1000 : Z) <> 2000) by discriminate.
  assert (Hl : Z.of_nat (length (threads (ctx demo_two))) = kMaxTid)
    by (vm_compute; reflexivity).
  assert (Hc : zlookup (threads (ctx demo_two)) (fast_tid (state_at demo_two 2000))
               = Some (context_at demo_two 1))
    by (vm_compute; reflexivity).
  assert (Hs : status (context_at demo_two 1) = ThreadStatusRunning)
    by (vm_compute; reflexivity).
  assert (Hd : detached (context_at demo_two 1) = false)
    by (vm_compute; reflexivity).
  assert (Hu : uid (context_at demo_two 1) = 77) by (vm_compute; reflexivity).
  destruct (finish_join_edge demo_two 1000 2000 _ _ _ 77 Hne demo_two_thread
              demo_two_thread1 Hl Hc Hs Hd Hu demo_two_first_77)
    as (_ & A & (tp' & B & _ & _ & C) & _).
  split; [exact A|]. exists tp'. split; [exact B|exact C].
Defined.

Lemma demo_two_detach_target :
  detach_target (threads (ctx demo_two)) 77 1 (context_at demo_two 1).
Proof.
  split; [vm_compute; reflexivity|]. split; [vm_compute; reflexivity|].
  intros j c' Hj Hc'. assert (j = 0) as -> by lia.
  vm_compute in Hc'. injection Hc' as <-. vm_compute. discriminate.
Qed.

(** [ThreadDetach_outcomes]: detaching the Running thread 1 of
    [demo_two] marks it detached. *)
Lemma ThreadDetach_outcomes_witness :
  snd (ThreadDetach 1000 77 demo_two) = Ret tt
  /\ detached (context_at (fst (ThreadDetach 1000 77 demo_two)) 1) = true.
Proof.
  assert (Hl : Z.of_nat (length (threads (ctx demo_two))) = kMaxTid)
    by (vm_compute; reflexivity).
  assert (Hs : status (context_at demo_two 1) = ThreadStatusRunning)
    by (vm_compute; reflexivity).
  destruct (proj2 (proj2 (proj2 (ThreadDetach_outcomes demo_two 1000 _ 77
                                   demo_two_thread Hl) 1 _ demo_two_detach_target))
                  (or_intror Hs)) as (A & _ & _ & B).
  split; [exact A|]. unfold context_at at 1. rewrite B.
  vm_compute. reflexivity.
Defined.

(** [Initialize_once] from the initial world. *)
Lemma Initialize_once_witness :
  snd (Initialize 1000 World0) = Ret tt
  /\ Initialize 1000 demo_main = (demo_main, Ret tt).
Proof.
  assert (Hi : initialized World0 = false) by reflexivity.
  assert (Hk : 0 < kMaxTid) by (vm_compute; reflexivity).
  assert (Hd : TSAN_DEBUG = false \/ is_Some (tls World0 !! 1000))
    by (left; reflexivity).
  destruct (Initialize_once World0 1000 1000 Hi Hk Hd)
    as (A & _ & _ & _ & _ & _ & _ & _ & _ & B).
  split; [exact A|exact B].
Defined.

Lemma demo_mutex_thread : tls demo_mutex !! 1000 = Some (state_at demo_mutex 1000).
Proof. vm_compute. reflexivity. Qed.

(** [unlock_lock_edge]: thread 0 of [demo_mutex] unlocks the mutex at
    4096 at epoch 2, then thread 1 locks it. *)
Lemma unlock_lock_edge_witness :
  snd (MutexLock 2000 0 4096 (fst (MutexUnlock 1000 0 4096 demo_mutex))) = Ret tt
  /\ exists tq',
       tls (fst (MutexLock 2000 0 4096 (fst (MutexUnlock 1000 0 4096 demo_mutex))))
         !! 2000 = Some tq'
       /\ 2 <= clock_get (clock tq') 0.
Proof.
  assert (Hs : synctab (ctx demo_mutex) !! 4096 = Some (MutexVar 4096 true))
    by (vm_compute; reflexivity).
  assert (Hq : tls (fst (MutexUnlock 1000 0 4096 demo_mutex)) !! 2000
               = Some (state_at demo_mutex 2000))
    by (vm_compute; reflexivity).
  destruct (unlock_lock_edge demo_mutex 1000 2000 _ _ 0 0 4096 _
              demo_mutex_thread Hs eq_refl Hq)
    as (_ & A & tq' & B & _ & _ & _ & C).
  split; [exact A|]. exists tq'. split; [exact B|].
  assert (E : epoch_inc (fast_epoch (state_at demo_mutex 1000)) = 2)
    by (vm_compute; reflexivity).
  assert (T : fast_tid (state_at demo_mutex 1000) = 0)
    by (vm_compute; reflexivity).
  rewrite E, T in C. exact C.
Defined.

(** [MutexLock_creates]: thread 0 of [demo_main] locks the address 4096,
    where no mutex was created, and unlocks it. *)
Lemma MutexLock_creates_witness :
  snd (MutexLock 1000 0 4096 demo_main) = Ret tt
  /\ snd (MutexUnlock 1000 0 4096 (fst (MutexLock 1000 0 4096 demo_main))) = Ret tt.
Proof.
  assert (Hs : synctab (ctx demo_main) !! 4096 = None)
    by (vm_compute; reflexivity).
  assert (Hq : tls (fst (MutexLock 1000 0 4096 demo_main)) !! 1000
               = Some (state_at (fst (MutexLock 1000 0 4096 demo_main)) 1000))
    by (vm_compute; reflexivity).
  destruct (proj1 (MutexLock_creates demo_main 1000 _ 0 4096 demo_main_thread) Hs)
    as (A & _ & _ & B).
  split; [exact A|]. exact (proj1 (B 0 1000 _ Hq)).
Defined.


(** [other_threads_untouched]: a function entry of thread 0 leaves the
    state of thread 1, at address 2000, as it is. *)
Lemma other_threads_untouched_witness :
  tls (fst (FuncEntry 1000 4096 demo_two)) !! 2000 = tls demo_two !! 2000.
Proof.
  apply (other_threads_untouched (OpFuncEntry 1000 4096) demo_two 2000).
  cbn. discriminate.
Defined.


(** [status_transitions]: slot 1 of [demo_two] goes from Running to
    Finished when its thread finishes. *)
Lemma status_transitions_witness :
  status_step (status (context_at demo_two 1))
              (status (context_at demo_finished 1)) = true.
Proof.
  apply (status_transitions (OpThreadFinish 2000) demo_two 1).
  - intros p E. discriminate E.
  - exact demo_two_slot1.
  - vm_compute. reflexivity.
Defined.


(** [Shadow_fields] for a 4-byte write of thread 1 at epoch 5. *)
Lemma Shadow_fields_witness :
  Shadow_tid (mkShadow 1 5 0 3 true) = 1
  /\ Shadow_epoch (mkShadow 1 5 0 3 true) = 5
  /\ Shadow_addr1 (mkShadow 1 5 0 3 true) = 3
  /\ Shadow_write (mkShadow 1 5 0 3 true) = true.
Proof.
  assert (HT : 0 <= kTidBits) by (vm_compute; discriminate).
  assert (HC : 0 <= kClkBits) by (vm_compute; discriminate).
  destruct (Shadow_fields 1 5 0 3 true HT HC) as (A & B & _ & C & D & _).
  repeat split; assumption.
Defined.

Lemma demo_written_thread1 :
  tls demo_written !! 2000 = Some (state_at demo_written 2000).
Proof. vm_compute. reflexivity. Qed.

(** [MemoryAccess_fast_path]: thread 1 writes the 4 bytes at 8192 again,
    in [demo_written]. *)
Lemma MemoryAccess_fast_path_witness :
  snd (MemoryAccess 2000 710 8192 4 true demo_written) = Ret tt
  /\ shadow (fst (MemoryAccess 2000 710 8192 4 true demo_written))
     = shadow demo_written.
Proof.
  assert (HK : 0 < kShadowCnt) by (vm_compute; reflexivity).
  assert (Hs : slot_same (fast_tid (state_at demo_written 2000))
                 (fast_synch_epoch (state_at demo_written 2000))
                 (access_desc (state_at demo_written 2000) 8192 4 true) true
                 (LoadShadow (shadow demo_written)
                    (MemToShadow 8192 + MemoryAccess_off 8192 4 mod kShadowCnt))
               = true)
    by (vm_compute; reflexivity).
  destruct (MemoryAccess_fast_path demo_written 2000 _ 710 8192 4 true
              demo_written_thread1 HK Hs) as (A & B & _).
  split; [exact A|exact B].
Defined.

Lemma demo_two_cell_empty j :
  0 <= j < kShadowCnt -> LoadShadow (shadow demo_two) (MemToShadow 8192 + j) = 0.
Proof.
  intros _. assert (E : shadow demo_two = ∅) by (vm_compute; reflexivity).
  rewrite E. unfold LoadShadow. now rewrite lookup_empty.
Qed.

(** [MemoryAccess_empty_cell]: the first write to the word at 8192, by
    thread 1 of [demo_two]. *)
Lemma MemoryAccess_empty_cell_witness :
  snd (MemoryAccess 2000 700 8192 4 true demo_two) = Ret tt
  /\ races (fst (MemoryAccess 2000 700 8192 4 true demo_two)) = races demo_two.
Proof.
  assert (HK : 0 < kShadowCnt) by (vm_compute; reflexivity).
  destruct (MemoryAccess_empty_cell demo_two 2000 _ 700 8192 4 true
              demo_two_thread1 HK demo_two_cell_empty) as (A & B & _).
  split; [exact A|exact B].
Defined.

(** [access_desc_fields]: 4 bytes at 8198 reach beyond the word; the
    descriptor covers the bytes 6 and 7. *)
Lemma access_desc_fields_witness :
  Shadow_addr0 (access_desc (state_at demo_two 2000) 8198 4 true) = 6
  /\ Shadow_addr1 (access_desc (state_at demo_two 2000) 8198 4 true) = 7.
Proof.
  assert (HT : 0 <= kTidBits) by (vm_compute; discriminate).
  assert (HC : 0 <= kClkBits) by (vm_compute; discriminate).
  destruct (access_desc_fields (state_at demo_two 2000) 8198 4 true HT HC
              ltac:(lia)) as (_ & _ & _ & A & B & _).
  split; [exact A|exact B].
Defined.

(** [MemoryAccess_repeat]: thread 1 of [demo_two] writes the 4 bytes at
    8192 twice. *)
Lemma MemoryAccess_repeat_witness :
  snd (MemoryAccess 2000 710 8192 4 true
         (fst (MemoryAccess 2000 700 8192 4 true demo_two))) = Ret tt
  /\ races (fst (MemoryAccess 2000 710 8192 4 true
                   (fst (MemoryAccess 2000 700 8192 4 true demo_two))))
     = races demo_two.
Proof.
  assert (HK : 0 < kShadowCnt) by (vm_compute; reflexivity).
  assert (HT : 0 <= kTidBits) by (vm_compute; discriminate).
  assert (HC : 0 <= kClkBits) by (vm_compute; discriminate).
  assert (Ht : 0 <= fast_tid (state_at demo_two 2000) < 2 ^ kTidBits)
    by (vm_compute; split; [discriminate|reflexivity]).
  assert (Hf : fast_synch_epoch (state_at demo_two 2000)
               <= epoch_inc (fast_epoch (state_at demo_two 2000)))
    by (vm_compute; discriminate).
  assert (Hn : epoch_inc (fast_epoch (state_at demo_two 2000)) <> 0)
    by (vm_compute; discriminate).
  destruct (MemoryAccess_repeat demo_two 2000 _ 700 710 8192 4 true
              demo_two_thread1 HK HT HC ltac:(lia) Ht Hf Hn demo_two_cell_empty)
    as (A & _ & B & _).
  split; [exact A|exact B].
Defined.

Lemma demo_part_thread : tls demo_part !! 1000 = Some (state_at demo_part 1000).
Proof. vm_compute. reflexivity. Qed.

(** [RestoreStack_reads_first_partition] in [demo_part]: with the event
    at ring index 128, the first of partition 1, wiped, the result for
    epoch 129 is the same. *)
Lemma RestoreStack_reads_first_partition_witness :
  let t := state_at demo_part 1000 in
  let t' := set_trace t (mkTrace (headers (trace t))
                                 (<[128 := 0]> (events (trace t)))) in
  snd (RestoreStack 0 129 (replicate 4 None) 4
         (set_tls demo_part (<[1000 := t']> (tls demo_part))))
  = snd (RestoreStack 0 129 (replicate 4 None) 4 demo_part).
Proof.
  assert (HP : 0 < kTracePartSize) by (vm_compute; reflexivity).
  assert (HS : kTracePartSize = 128) by (vm_compute; reflexivity).
  apply (RestoreStack_reads_first_partition demo_part 1000 _ _ 0 129
           (replicate 4 None) 4 HP demo_part_thread).
  intros j Hj. rewrite lookup_insert_ne by lia. reflexivity.
Defined.


(** [RestoreStack_reverse_spec] on four frames: the outer two are
    exchanged, the middle two stay. *)
Lemma RestoreStack_reverse_spec_witness :
  exists st', RestoreStack_reverse 3 0 4 [Some 1; Some 2; Some 3; Some 4] = Some st'
    /\ zlookup st' 0 = Some (Some 4) /\ zlookup st' 1 = Some (Some 2).
Proof.
  destruct (proj1 (RestoreStack_reverse_spec [Some 1; Some 2; Some 3; Some 4] 4
                     ltac:(cbn; lia) ltac:(lia)) ltac:(lia))
    as (st' & E & _ & V).
  exists st'. split; [exact E|]. split; rewrite V; reflexivity.
Defined.

(** [RestoreStack_replay_call_stack] on the trace of [demo_part]: the
    ring indices 0 and 1 were never written, index 2 holds the entry at
    pc 4096 and index 3 the access at pc 800. *)
Lemma RestoreStack_replay_call_stack_witness :
  exists st', RestoreStack_replay (events (trace (state_at demo_part 1000))) 4 0 0
                                  (replicate 4 None)
              = Some (1, st')
    /\ holds_frames st' [4096; 800].
Proof.
  assert (Hc : call_stack (Z.of_nat (length (replicate 4 (@None Z))))
                 (ring_events (events (trace (state_at demo_part 1000))) 3 0) []
               = Some [4096])
    by (vm_compute; reflexivity).
  assert (Hm : Event_typ (default 0 (events (trace (state_at demo_part 1000))
                                       !! Z.of_nat 3))
               = EventType_code EventTypeMop)
    by (vm_compute; reflexivity).
  assert (Hp : Event_pc (default 0 (events (trace (state_at demo_part 1000))
                                      !! Z.of_nat 3)) = 800)
    by (vm_compute; reflexivity).
  destruct (RestoreStack_replay_call_stack _ 3 (replicate 4 None) [4096]
              ltac:(cbn; lia) Hc Hm ltac:(cbn; lia)) as (st' & E & _ & F).
  exists st'. split; [exact E|]. rewrite Hp in F. exact F.
Defined.

(** [RestoreStack_call_stack] in [demo_part], for the access of thread 0
    at epoch 3: two frames, left in the order of the calls. *)
Lemma RestoreStack_call_stack_witness :
  exists st', RestoreStack 0 3 (replicate 4 None) 4 demo_part
              = (demo_part, Ret (2, st'))
    /\ zlookup st' 0 = Some (Some 4096) /\ zlookup st' 1 = Some (Some 800).
Proof.
  assert (Hc : zlookup (threads (ctx demo_part)) 0 = Some (context_at demo_part 0))
    by (vm_compute; reflexivity).
  assert (Hs : status (context_at demo_part 0) = ThreadStatusRunning)
    by (vm_compute; reflexivity).
  assert (Hp : thr (context_at demo_part 0) = Some 1000)
    by (vm_compute; reflexivity).
  assert (HP : 0 < kTracePartSize) by (vm_compute; reflexivity).
  assert (Hh : default 0 (headers (trace (state_at demo_part 1000))
                            !! ((3 / kTracePartSize) mod kTraceParts)) <= 3)
    by (vm_compute; discriminate).
  assert (Hcs : call_stack (Z.of_nat (length (replicate 4 (@None Z))))
                  (ring_events (events (trace (state_at demo_part 1000)))
                     (Z.to_nat (3 mod kTracePartSize)) 0) []
                = Some [4096])
    by (vm_compute; reflexivity).
  assert (Hm : Event_typ (default 0 (events (trace (state_at demo_part 1000))
                            !! Z.of_nat (Z.to_nat (3 mod kTracePartSize))))
               = EventType_code EventTypeMop)
    by (vm_compute; reflexivity).
  assert (Hpc : Event_pc (default 0 (events (trace (state_at demo_part 1000))
                            !! Z.of_nat (Z.to_nat (3 mod kTracePartSize)))) = 800)
    by (vm_compute; reflexivity).
  destruct (RestoreStack_call_stack demo_part 0 _ 1000 _ 3 (replicate 4 None) 4
              [4096] Hc Hs Hp demo_part_thread HP Hh ltac:(cbn; lia) Hcs Hm
              ltac:(cbn; lia)) as (st' & E & _ & V).
  exists st'. split; [exact E|]. rewrite Hpc in V.
  split; [exact (V 0%nat ltac:(cbn; lia)) | exact (V 1%nat ltac:(cbn; lia))].
Defined.

(** [epoch_trace_step]: a function entry takes thread 0 of [demo_two]
    from epoch 1 to epoch 2. *)
Lemma epoch_trace_step_witness :
  state_step (state_at demo_two 1000)
             (state_at (fst (FuncEntry 1000 4096 demo_two)) 1000).
Proof.
  assert (Ha : tls (fst (run (OpFuncEntry 1000 4096) demo_two)) !! 1000
               = Some (state_at (fst (FuncEntry 1000 4096 demo_two)) 1000))
    by (vm_compute; reflexivity).
  destruct (epoch_trace_step (OpFuncEntry 1000 4096) demo_two 1000 _ _
              demo_two_thread Ha) as [S|(_ & E & _)]; [exact S|].
  exfalso. revert E. vm_compute. discriminate.
Defined.

Lemma demo_mutex_cell_empty j :
  0 <= j < kShadowCnt -> LoadShadow (shadow demo_mutex) (MemToShadow 8192 + j) = 0.
Proof.
  intros _. assert (E : shadow demo_mutex = ∅) by (vm_compute; reflexivity).
  rewrite E. unfold LoadShadow. now rewrite lookup_empty.
Qed.

(** [synchronized_accesses_do_not_race] in [demo_mutex]: thread 0 writes
    the 4 bytes at 8192 and unlocks the mutex at 4096, thread 1 locks it
    and writes them too. *)
Lemma synchronized_accesses_do_not_race_witness :
  races (fst (MemoryAccess 2000 830 8192 4 true
                (fst (MutexLock 2000 820 4096
                        (fst (MutexUnlock 1000 810 4096
                                (fst (MemoryAccess 1000 800 8192 4 true
                                        demo_mutex))))))))
  = races demo_mutex.
Proof.
  assert (Hne : (1000 : Z) <> 2000) by discriminate.
  assert (Hq : tls demo_mutex !! 2000 = Some (state_at demo_mutex 2000))
    by (vm_compute; reflexivity).
  assert (HK : 0 < kShadowCnt) by (vm_compute; reflexivity).
  assert (HT : 0 <= kTidBits) by (vm_compute; discriminate).
  assert (HC : 0 <= kClkBits) by (vm_compute; discriminate).
  assert (Ht : 0 <= fast_tid (state_at demo_mutex 1000) < 2 ^ kTidBits)
    by (vm_compute; split; [discriminate|reflexivity]).
  assert (Hw : epoch_inc (fast_epoch (state_at demo_mutex 1000))
               <= epoch_inc (epoch_inc (fast_epoch (state_at demo_mutex 1000))))
    by (vm_compute; discriminate).
  assert (Hs : synctab (ctx demo_mutex) !! 4096 = Some (MutexVar 4096 true))
    by (vm_compute; reflexivity).
  exact (proj2 (proj2 (proj2 (proj2
           (synchronized_accesses_do_not_race demo_mutex 1000 2000 _ _ 4096 _
              800 810 820 830 8192 4 true 8192 4 true
              Hne demo_mutex_thread Hq HK HT HC Ht Hw Hs eq_refl
              demo_mutex_cell_empty eq_refl))))).
Defined.

(** [unsynchronized_accesses_race] in [demo_two]: thread 1 writes the 4
    bytes at 8192, then thread 0 does, with no synchronization. *)
Lemma unsynchronized_accesses_race_witness :
  races (fst (MemoryAccess 1000 800 8192 4 true
                (fst (MemoryAccess 2000 700 8192 4 true demo_two))))
  = races demo_two
    ++ [(8192, access_desc (state_at demo_two 1000) 8192 4 true,
         access_desc (state_at demo_two 2000) 8192 4 true)].
Proof.
  assert (Hne : (2000 : Z) <> 1000) by discriminate.
  assert (HK : 0 < kShadowCnt) by (vm_compute; reflexivity).
  assert (HT : 0 <= kTidBits) by (vm_compute; discriminate).
  assert (HC : 0 <= kClkBits) by (vm_compute; discriminate).
  assert (Ht : 0 <= fast_tid (state_at demo_two 2000) < 2 ^ kTidBits)
    by (vm_compute; split; [discriminate|reflexivity]).
  assert (Hd : fast_tid (state_at demo_two 1000) <> fast_tid (state_at demo_two 2000))
    by (vm_compute; discriminate).
  assert (Hc : clock_get (clock (state_at demo_two 1000))
                         (fast_tid (state_at demo_two 2000))
               < epoch_inc (fast_epoch (state_at demo_two 2000)))
    by (vm_compute; reflexivity).
  assert (Hn : epoch_inc (fast_epoch (state_at demo_two 2000)) <> 0)
    by (vm_compute; discriminate).
  exact (proj2 (proj2
           (unsynchronized_accesses_race demo_two 2000 1000 _ _ 700 800 8192 4
              true true Hne demo_two_thread1 demo_two_thread HK HT HC Ht Hd Hc Hn
              eq_refl demo_two_cell_empty))).
Defined.

Lemma demo_finished_only_77 j c' :
  j <> 1 -> zlookup (threads (ctx demo_finished)) j = Some c' ->
  join_match 77 c' = false.
Proof.
  intros Hj Hc'. apply zlookup_elem in Hc' as Hin.
  unfold zlookup in Hc'. destruct (Z.ltb_spec j 0) as [|Hnn]; [discriminate|].
  assert (Hf : Forall (fun c => uid c = 77 -> c = context_at demo_finished 1)
                      (threads (ctx demo_finished))).
  { vm_compute. repeat constructor; discriminate. }
  rewrite Forall_forall in Hf.
  destruct (Z.eq_dec (uid c') 77) as [Eu|Eu].
  - exfalso. pose proof (Hf c' Hin Eu) as Ec. subst c'.
    assert (Hnd : forall i, threads (ctx demo_finished) !! i
                            = Some (context_at demo_finished 1) -> i = 1%nat).
    { intros i. vm_compute.
      do 8 (destruct i as [|i]; [try discriminate; try reflexivity|]).
      discriminate. }
    apply Hnd in Hc'. lia.
  - unfold join_match. now rewrite (proj2 (Z.eqb_neq _ _) Eu).
Qed.

(** [ThreadJoin_twice] in [demo_finished]: thread 0 joins thread 1, and
    then once more. *)
Lemma ThreadJoin_twice_witness :
  snd (ThreadJoin 1000 77 (fst (ThreadJoin 1000 77 demo_finished))) = Ret tt.
Proof.
  assert (Hl : Z.of_nat (length (threads (ctx demo_finished))) = kMaxTid)
    by (vm_compute; reflexivity).
  assert (Hc : zlookup (threads (ctx demo_finished)) 1
               = Some (context_at demo_finished 1))
    by (vm_compute; reflexivity).
  assert (Hm : join_match 77 (context_at demo_finished 1) = true)
    by (vm_compute; reflexivity).
  assert (Hd : detached (context_at demo_finished 1) = false)
    by (vm_compute; reflexivity).
  assert (Hs : status (context_at demo_finished 1) = ThreadStatusFinished)
    by (vm_compute; reflexivity).
  exact (proj1 (proj2 (ThreadJoin_twice demo_finished 1000 _ 77 1 _
                         demo_finished_thread Hl Hc Hm demo_finished_only_77
                         Hd Hs))).
Defined.

